(** * SequentialAgents: the workspace files, the patch engine, the tool
      dispatcher, the provider adapter and the orchestration loop

    A shallow embedding of [workspace_manager.py], [tool_executor.py],
    [api_client.py] (message translation), [main.py] (the autonomous loop and
    the input history), [services/chat_session_service.py] and
    [config_manager.py], with the properties of the design document stated
    over it, followed by further properties of the code. *)

From stdpp Require Import gmap list sorting strings pretty.
From Stdlib Require Import NArith ZArith.

Local Open Scope Z_scope.
Local Open Scope nat_scope.

Set Warnings "-register-all".

(** ** Python strings

    A [str] is a sequence of Unicode code points.  [py] reads an ASCII literal. *)

Definition char := N.
Definition text := list char.

Definition py (s : string) : text := map Ascii.N_of_ascii (String.list_ascii_of_string s).

Module PyStr.

Definition LF : char := 10%N.
Definition CR : char := 13%N.
Definition TAB : char := 9%N.
Definition SPACE : char := 32%N.
Definition DOT : char := 46%N.
Definition SLASH : char := 47%N.

(** Line boundaries of [str.splitlines]. *)
Definition is_linebreak (c : char) : bool :=
  ((10 <=? c) && (c <=? 13) || (28 <=? c) && (c <=? 30) || (c =? 133)
   || (c =? 8232) || (c =? 8233))%N.

(** Whitespace of [str.strip], [str.lstrip] ([str.isspace]). *)
Definition is_space (c : char) : bool :=
  ((9 <=? c) && (c <=? 13) || (28 <=? c) && (c <=? 32) || (c =? 133)
   || (c =? 160) || (c =? 5760) || (8192 <=? c) && (c <=? 8202)
   || (c =? 8232) || (c =? 8233) || (c =? 8239) || (c =? 8287)
   || (c =? 12288))%N.

(** [s.startswith(p)] *)
Fixpoint startswith (s p : text) : bool :=
  match p, s with
  | [], _ => true
  | _ :: _, [] => false
  | a :: p', b :: s' => (a =? b)%N && startswith s' p'
  end.

(** [s.endswith(p)] *)
Definition endswith (s p : text) : bool := startswith (reverse s) (reverse p).

(** [sub in s] *)
Fixpoint contains (sub s : text) : bool :=
  startswith s sub ||
  match s with
  | [] => false
  | _ :: s' => contains sub s'
  end.

(** [s.count(sub)]: occurrences are counted from the left and do not
    overlap; the empty string is found between all characters. *)
Fixpoint count_from (sub : text) (skip : nat) (s : text) : nat :=
  match s with
  | [] => 0
  | _ :: s' =>
      match skip with
      | S k => count_from sub k s'
      | O => if startswith s sub
             then S (count_from sub (length sub - 1) s')
             else count_from sub 0 s'
      end
  end.

Definition count (s sub : text) : nat :=
  match sub with
  | [] => length s + 1
  | _ :: _ => count_from sub 0 s
  end.

(** [s.replace(old, new, 1)]: only the leftmost occurrence. *)
Fixpoint replace1 (s old new : text) : text :=
  if startswith s old then new ++ drop (length old) s
  else match s with
       | [] => []
       | c :: s' => c :: replace1 s' old new
       end.

(** [s.splitlines()]; ["\r\n"] is one boundary, and a final boundary
    opens no further line. *)
Fixpoint splitlines (s : text) : list text :=
  match s with
  | [] => []
  | c :: s' =>
      if is_linebreak c then
        [] :: (if (c =? CR)%N
               then match s' with
                    | c' :: s'' => if (c' =? LF)%N then splitlines s'' else splitlines s'
                    | [] => []
                    end
               else splitlines s')
      else match splitlines s' with
           | [] => [[c]]
           | l :: ls => (c :: l) :: ls
           end
  end.

(** [sep.join(parts)] *)
Fixpoint join (sep : text) (parts : list text) : text :=
  match parts with
  | [] => []
  | [p] => p
  | p :: ps => p ++ sep ++ join sep ps
  end.

Fixpoint lstrip (s : text) : text :=
  match s with
  | [] => []
  | c :: s' => if is_space c then lstrip s' else s
  end.

Definition rstrip (s : text) : text := reverse (lstrip (reverse s)).

(** [s.strip()] *)
Definition strip (s : text) : text := rstrip (lstrip s).

(** [a <= b]: strings compare by code point, a proper prefix comes first. *)
Fixpoint leb (a b : text) : bool :=
  match a, b with
  | [], _ => true
  | _ :: _, [] => false
  | x :: a', y :: b' => (x <? y)%N || (x =? y)%N && leb a' b'
  end.

Definition le (a b : text) : Prop := leb a b = true.

#[export] Instance le_dec : RelDecision le.
Proof. intros a b. unfold le. apply _. Defined.

(** [sorted(l)] for a list of strings. *)
Definition sorted (l : list text) : list text := merge_sort le l.

(** [s[:n]] and [s[n:]] for [0 <= n] are [take n s] and [drop n s]. *)
End PyStr.

(** ** Values, exceptions and tool results

    Tool arguments arrive as decoded JSON, so every parameter of a workspace
    operation is a dynamically typed value. *)

Inductive json :=
  | JNull
  | JBool (b : bool)
  | JNum (n : Z)
  | JStr (s : text)
  | JArr (items : list json)
  | JObj (fields : list (text * json)).

Inductive exn :=
  | TypeError
  | AttributeError
  | IndexError
  | UnicodeDecodeError
  | FileNotFoundError
  | FileExistsError
  | IsADirectoryError
  | NotADirectoryError
  | LoopError
  | JSONDecodeError.

Inductive outcome (A : Type) :=
  | Return (a : A)
  | Raise (e : exn).
Arguments Return {A} a.
Arguments Raise {A} e.

(** The ['error'] strings of the result dictionaries, one constructor per
    message; the parameters are the values interpolated into the message. *)
Inductive error :=
  | WorkspaceNotSet
  | SecurityError (path : text)
  | DirectoryNotFound (path : text)
  | ListFailed (e : exn)
  | FileNotFound (path : text)
  | BinaryFile (path : text)
  | ReadError (e : exn)
  | WriteError (e : exn)
  | MkdirError (e : exn)
  | DeleteError (e : exn)
  | AmbiguousExact
  | EmptySearch
  | MatchNotFound
  | AmbiguousFuzzy (occurrences : nat)
  | EditError (e : exn)
  | UnknownTool (name : text)
  | ArgumentMismatch (name : text) (e : exn)
  | ToolError (name : text) (e : exn)
  | InvalidJSON
  | NoFunctionName.

Inductive message :=
  | Written (path : text)
  | DirectoryCreated (path : text)
  | Deleted (path : text)
  | EditedExact
  | EditedFuzzy.

(** [{'success': False, 'error': e}], [{'success': True, 'message': m}],
    [{'success': True, 'files': l}] and [{'success': True, 'content': c}]. *)
Inductive result :=
  | Failure (e : error)
  | Success (m : message)
  | Files (files : list text)
  | Content (content : text).

(** ** The file system (POSIX)

    A store maps canonical absolute paths to nodes.  A file holds its decoded
    text, or nothing when its bytes are not valid UTF-8. *)

Inductive node :=
  | File (data : option text)
  | Dir
  | Link (target : text).

Abbreviation store := (gmap text node).

Module OS.
Import PyStr.

(** [p.split('/')] *)
Fixpoint split_slash (p : text) : list text :=
  match p with
  | [] => [[]]
  | c :: p' =>
      if (c =? SLASH)%N then [] :: split_slash p'
      else match split_slash p' with
           | [] => [[c]]
           | l :: ls => (c :: l) :: ls
           end
  end.

(** The absolute path with the given components. *)
Definition render (components : list text) : text :=
  SLASH :: join [SLASH] components.

(** [os.path.join(a, b)] *)
Definition path_join (a b : text) : text :=
  if startswith b [SLASH] then b
  else if bool_decide (a = []) || endswith a [SLASH] then a ++ b
  else a ++ [SLASH] ++ b.

(** Symbolic links followed while resolving one path, as the kernel
    bounds them; a link met after that is left unresolved. *)
Definition MAXSYMLINKS : nat := 40.

(** Path resolution: empty and ['.'] components are dropped, ['..'] pops
    (and stays at the root), a symbolic link is replaced by its target. *)
Fixpoint resolve (fs : store) (fuel : nat) : list text → list text → list text :=
  fix walk (stack rest : list text) {struct rest} : list text :=
    match rest with
    | [] => stack
    | name :: rest' =>
        if bool_decide (name = []) || bool_decide (name = [DOT]) then walk stack rest'
        else if bool_decide (name = [DOT; DOT]) then walk (removelast stack) rest'
        else match fs !! render (stack ++ [name]), fuel with
             | Some (Link target), S fuel' =>
                 resolve fs fuel'
                   (if startswith target [SLASH] then [] else stack)
                   (split_slash target ++ rest')
             | _, _ => walk (stack ++ [name]) rest'
             end
    end.

(** [os.path.realpath(p)] for an absolute [p]. *)
Definition realpath (fs : store) (p : text) : text :=
  render (resolve fs MAXSYMLINKS [] (split_slash p)).

(** What [os.stat] finds: system calls follow symbolic links. *)
Definition stat (fs : store) (p : text) : option node :=
  match fs !! realpath fs p with
  | Some (Link _) => None
  | n => n
  end.

Definition path_exists (fs : store) (p : text) : bool :=
  bool_decide (is_Some (stat fs p)).

Definition path_isdir (fs : store) (p : text) : bool :=
  match stat fs p with
  | Some Dir => true
  | _ => false
  end.

Definition path_isfile (fs : store) (p : text) : bool :=
  match stat fs p with
  | Some (File _) => true
  | _ => false
  end.

Definition components (p : text) : list text :=
  filter (λ c, c ≠ []) (split_slash p).

(** [os.path.dirname(p)] of a canonical path. *)
Definition dirname (p : text) : text := render (removelast (components p)).

(** [os.listdir(p)]: the names directly below [p], in no particular order. *)
Definition listdir (fs : store) (p : text) : outcome (list text) :=
  match stat fs p with
  | None => Raise FileNotFoundError
  | Some Dir =>
      let here := components (realpath fs p) in
      Return (omap (λ kv, let cs := components kv.1 in
                          match last cs with
                          | Some name =>
                              if bool_decide (removelast cs = here) then Some name else None
                          | None => None
                          end)
                   (map_to_list fs))
  | Some _ => Raise NotADirectoryError
  end.

(** Universal newlines: a text-mode read turns ["\r\n"] and ["\r"] into ["\n"]. *)
Fixpoint universal_newlines (s : text) : text :=
  match s with
  | [] => []
  | c :: s' =>
      if (c =? CR)%N then
        LF :: match s' with
              | c' :: s'' => if (c' =? LF)%N then universal_newlines s'' else universal_newlines s'
              | [] => []
              end
      else c :: universal_newlines s'
  end.

(** [open(p, 'r', encoding='utf-8').read()] *)
Definition read_text (fs : store) (p : text) : outcome text :=
  match stat fs p with
  | None => Raise FileNotFoundError
  | Some Dir => Raise IsADirectoryError
  | Some (File None) => Raise UnicodeDecodeError
  | Some (File (Some data)) => Return (universal_newlines data)
  | Some (Link _) => Raise LoopError
  end.

(** [open(p, 'w')]: creates or truncates the file; the directory that is
    to hold it has to exist. *)
Definition open_w (fs : store) (p : text) : outcome store :=
  let q := realpath fs p in
  match fs !! q with
  | Some Dir => Raise IsADirectoryError
  | Some (Link _) => Raise LoopError
  | _ => match fs !! dirname q with
         | Some Dir => Return (<[q := File (Some [])]> fs)
         | Some _ => Raise NotADirectoryError
         | None => Raise FileNotFoundError
         end
  end.

(** [f.write(content)] on the file just opened, for text that UTF-8
    encodes.  (A lone surrogate makes the call raise, with the file
    already emptied by [open]: the statements about what is written ask
    for text that can be encoded.) *)
Definition write_text (fs : store) (p : text) (content : text) : store :=
  <[realpath fs p := File (Some content)]> fs.

(** [os.makedirs(p, exist_ok=True)]: missing ancestors are created from the
    top; a file in the way stops it. *)
Fixpoint makedirs_from (fs : store) (stack rest : list text) : option exn * store :=
  match rest with
  | [] => (None, fs)
  | c :: rest' =>
      let here := stack ++ [c] in
      match fs !! render here with
      | None => makedirs_from (<[render here := Dir]> fs) here rest'
      | Some Dir => makedirs_from fs here rest'
      | Some (File _) =>
          (Some (if bool_decide (rest' = []) then FileExistsError else NotADirectoryError), fs)
      | Some (Link _) => (Some LoopError, fs)
      end
  end.

Definition makedirs (fs : store) (p : text) : option exn * store :=
  makedirs_from fs [] (components (realpath fs p)).

(** [os.remove(p)] of a regular file. *)
Definition remove (fs : store) (p : text) : store := delete (realpath fs p) fs.
End OS.

(** ** workspace_manager.py *)

Module WorkspaceManager.
Import PyStr OS.

(** What the edit decides before anything is written. *)
Inductive edit :=
  | Reject (e : error)
  | Rewrite (final_content : text) (m : message).

(** Strategy A.  [None]: the block does not occur, go on to strategy B. *)
Definition exact_match (original_content : text) (search_block replace_block : json)
  : outcome (option edit) :=
  match search_block with
  | JStr sb =>
      if contains sb original_content then
        let count := count original_content sb in
        if 1 <? count then Return (Some (Reject AmbiguousExact))
        else match replace_block with
             | JStr rb => Return (Some (Rewrite (replace1 original_content sb rb) EditedExact))
             | _ => Raise TypeError
             end
      else Return None
  | _ => Raise TypeError
  end.

(** The scan [for i in range(len(stripped_file_lines) - n_search + 1)]. *)
Definition scan (stripped_file_lines stripped_search_lines : list text) : list nat :=
  let n_search := length stripped_search_lines in
  filter (λ i, take n_search (drop i stripped_file_lines) = stripped_search_lines)
         (seq 0 (Z.to_nat (Z.of_nat (length stripped_file_lines) - Z.of_nat n_search + 1))).

(** [line[:len(line) - len(line.lstrip())]] *)
Definition indent_of (line : text) : text :=
  take (length line - length (lstrip line)) line.

(** Indentation auto-correction of the replacement. *)
Definition corrected (current_indent replace_block : text) : text :=
  let replace_lines := splitlines replace_block in
  match replace_lines, current_indent with
  | first_replace_line :: _, _ :: _ =>
      if negb (startswith first_replace_line [SPACE]) && negb (startswith first_replace_line [TAB])
      then join [LF] (map (λ line, current_indent ++ line) replace_lines)
      else replace_block
  | _, _ => replace_block
  end.

(** "Reconstruct file". *)
Definition reconstruct (file_lines : list text) (start_index end_index : nat)
    (replace_block : text) : text :=
  let pre_content := join [LF] (take start_index file_lines) in
  let post_content := join [LF] (drop end_index file_lines) in
  (if bool_decide (pre_content ≠ []) then pre_content ++ [LF] else [])
  ++ replace_block
  ++ (if bool_decide (post_content ≠ []) then
        (if negb (endswith replace_block [LF]) && bool_decide (replace_block ≠ [])
         then [LF] else [])
        ++ post_content
      else []).

(** Strategy B. *)
Definition fuzzy_match (original_content search_block : text) (replace_block : json)
  : outcome edit :=
  let file_lines := splitlines original_content in
  let search_lines := splitlines search_block in
  let stripped_search_lines := map strip search_lines in
  let stripped_file_lines := map strip file_lines in
  let n_search := length stripped_search_lines in
  if bool_decide (n_search = 0) then Return (Reject EmptySearch)
  else
    let matches := scan stripped_file_lines stripped_search_lines in
    match matches with
    | [] => Return (Reject MatchNotFound)
    | [start_index] =>
        let end_index := start_index + n_search in
        match file_lines !! start_index with
        | None => Raise IndexError
        | Some original_first_match_line =>
            let current_indent := indent_of original_first_match_line in
            match replace_block with
            | JStr rb =>
                Return (Rewrite (reconstruct file_lines start_index end_index
                                   (corrected current_indent rb))
                                EditedFuzzy)
            | _ => Raise AttributeError
            end
        end
    | _ => Return (Reject (AmbiguousFuzzy (length matches)))
    end.

(** The two strategies in order, on the text read from the file. *)
Definition edit_text (original_content : text) (search_block replace_block : json)
  : outcome edit :=
  match exact_match original_content search_block replace_block with
  | Raise e => Raise e
  | Return (Some decided) => Return decided
  | Return None =>
      match search_block with
      | JStr sb => fuzzy_match original_content sb replace_block
      | _ => Raise TypeError
      end
  end.

Section Manager.
(** [self.workspace_path], absolute once set. *)
Variable workspace_path : option text.

Definition _resolve_and_check_path (fs : store) (path : json)
  : outcome (text * option error) :=
  match workspace_path with
  | None | Some [] => Return ([], Some WorkspaceNotSet)
  | Some wp =>
      let workspace_root := realpath fs wp in
      match path with
      | JStr p =>
          let full_path := realpath fs (path_join workspace_root p) in
          if negb (startswith full_path workspace_root)
          then Return ([], Some (SecurityError p))
          else Return (full_path, None)
      | _ => Raise TypeError
      end
  end.

(** The text interpolated for [path] in a message; [path] is a string
    wherever a message is built. *)
Definition shown (path : json) : text :=
  match path with
  | JStr p => p
  | _ => []
  end.

Definition list_files (path : json) (fs : store) : outcome result * store :=
  match _resolve_and_check_path fs path with
  | Raise e => (Raise e, fs)
  | Return (_, Some error) => (Return (Failure error), fs)
  | Return (full_path, None) =>
      if negb (path_exists fs full_path)
      then (Return (Failure (DirectoryNotFound (shown path))), fs)
      else match listdir fs full_path with
           | Raise e => (Return (Failure (ListFailed e)), fs)
           | Return names =>
               let entries := sorted names in
               let result :=
                 flat_map (λ entry,
                   if startswith entry [DOT] then []
                   else let entry_path := path_join full_path entry in
                        if path_isdir fs entry_path then [entry ++ [SLASH]]
                        else [entry]) entries in
               (Return (Files result), fs)
           end
  end.

Definition read_file (path : json) (fs : store) : outcome result * store :=
  match _resolve_and_check_path fs path with
  | Raise e => (Raise e, fs)
  | Return (_, Some error) => (Return (Failure error), fs)
  | Return (full_path, None) =>
      match read_text fs full_path with
      | Return content => (Return (Content content), fs)
      | Raise FileNotFoundError => (Return (Failure (FileNotFound (shown path))), fs)
      | Raise UnicodeDecodeError => (Return (Failure (BinaryFile (shown path))), fs)
      | Raise e => (Return (Failure (ReadError e)), fs)
      end
  end.

Definition write_file (path content : json) (fs : store) : outcome result * store :=
  match _resolve_and_check_path fs path with
  | Raise e => (Raise e, fs)
  | Return (_, Some error) => (Return (Failure error), fs)
  | Return (full_path, None) =>
      match makedirs fs (dirname full_path) with
      | (Some e, fs1) => (Return (Failure (WriteError e)), fs1)
      | (None, fs1) =>
          match open_w fs1 full_path with
          | Raise e => (Return (Failure (WriteError e)), fs1)
          | Return fs2 =>
              match content with
              | JStr c => (Return (Success (Written (shown path))),
                           write_text fs2 full_path c)
              | _ => (Return (Failure (WriteError TypeError)), fs2)
              end
          end
      end
  end.

Definition create_directory (path : json) (fs : store) : outcome result * store :=
  match _resolve_and_check_path fs path with
  | Raise e => (Raise e, fs)
  | Return (_, Some error) => (Return (Failure error), fs)
  | Return (full_path, None) =>
      match makedirs fs full_path with
      | (Some e, fs1) => (Return (Failure (MkdirError e)), fs1)
      | (None, fs1) => (Return (Success (DirectoryCreated (shown path))), fs1)
      end
  end.

Definition delete_file (path : json) (fs : store) : outcome result * store :=
  match _resolve_and_check_path fs path with
  | Raise e => (Raise e, fs)
  | Return (_, Some error) => (Return (Failure error), fs)
  | Return (full_path, None) =>
      if negb (path_isfile fs full_path)
      then (Return (Failure (FileNotFound (shown path))), fs)
      else (Return (Success (Deleted (shown path))), remove fs full_path)
  end.

Definition apply_file_edit (path search_block replace_block : json) (fs : store)
  : outcome result * store :=
  match _resolve_and_check_path fs path with
  | Raise e => (Raise e, fs)
  | Return (_, Some error) => (Return (Failure error), fs)
  | Return (full_path, None) =>
      if negb (path_exists fs full_path)
      then (Return (Failure (FileNotFound (shown path))), fs)
      else
        match read_text fs full_path with
        | Raise e => (Return (Failure (EditError e)), fs)
        | Return original_content =>
            match edit_text original_content search_block replace_block with
            | Raise e => (Return (Failure (EditError e)), fs)
            | Return (Reject error) => (Return (Failure error), fs)
            | Return (Rewrite final_content m) =>
                match open_w fs full_path with
                | Raise e => (Return (Failure (EditError e)), fs)
                | Return fs1 =>
                    (Return (Success m), write_text fs1 full_path final_content)
                end
            end
        end
  end.
End Manager.
End WorkspaceManager.

(** ** Tool calls on the wire

    The active provider fixes the shape of the tool calls a response
    carries: Google sends [functionCall] parts, every other provider the
    OpenAI [tool_calls] entries. *)

Inductive provider := Google | OpenAICompatible.

(** [{'name': ..., 'args': {...}}]; ['args'] may be absent. *)
Record function_call := { fc_name : text; fc_args : option json }.

(** [{'id': ..., 'type': 'function', 'function': {'name': ..., 'arguments': ...}}];
    the arguments are JSON text. *)
Record tool_call := { tc_id : text; tc_name : text; tc_arguments : text }.

Definition wire_call (p : provider) : Type :=
  match p with
  | Google => function_call
  | OpenAICompatible => tool_call
  end.

(** ** tool_executor.py *)

Module ToolExecutor.
Import PyStr.

(** A bound method of the registry, called as [method( **arguments )]. *)
Definition method := gmap text json → store → outcome result * store.

(** The dictionary a decoded JSON object becomes: a repeated key keeps its
    last value. *)
Definition dict (fields : list (text * json)) : gmap text json :=
  list_to_map (rev fields).

(** Keyword binding: a keyword that is no parameter is a [TypeError]. *)
Definition accepts (parameters : list text) (arguments : gmap text json) : bool :=
  bool_decide (dom arguments ⊆ list_to_set parameters).

(** A required parameter without a value is a [TypeError]. *)
Definition call1 (p1 : text) (default1 : option json)
    (f : json → store → outcome result * store) : method :=
  λ arguments fs,
    if accepts [p1] arguments then
      match arguments !! p1, default1 with
      | Some a1, _ | None, Some a1 => f a1 fs
      | None, None => (Raise TypeError, fs)
      end
    else (Raise TypeError, fs).

Definition call2 (p1 p2 : text)
    (f : json → json → store → outcome result * store) : method :=
  λ arguments fs,
    if accepts [p1; p2] arguments then
      match arguments !! p1, arguments !! p2 with
      | Some a1, Some a2 => f a1 a2 fs
      | _, _ => (Raise TypeError, fs)
      end
    else (Raise TypeError, fs).

Definition call3 (p1 p2 p3 : text)
    (f : json → json → json → store → outcome result * store) : method :=
  λ arguments fs,
    if accepts [p1; p2; p3] arguments then
      match arguments !! p1, arguments !! p2, arguments !! p3 with
      | Some a1, Some a2, Some a3 => f a1 a2 a3 fs
      | _, _, _ => (Raise TypeError, fs)
      end
    else (Raise TypeError, fs).

(** The names of [self.tool_map]. *)
Definition tool_names : list text :=
  [py "list_files"; py "read_file"; py "write_file"; py "create_directory";
   py "delete_file"; py "apply_file_edit"].

(** [self.tool_map], built over the workspace manager in [__init__]. *)
Definition workspace_tools (workspace_path : option text) (name : text) : option method :=
  if bool_decide (name = py "list_files") then
    Some (call1 (py "path") (Some (JStr (py "."))) (WorkspaceManager.list_files workspace_path))
  else if bool_decide (name = py "read_file") then
    Some (call1 (py "path") None (WorkspaceManager.read_file workspace_path))
  else if bool_decide (name = py "write_file") then
    Some (call2 (py "path") (py "content") (WorkspaceManager.write_file workspace_path))
  else if bool_decide (name = py "create_directory") then
    Some (call1 (py "path") None (WorkspaceManager.create_directory workspace_path))
  else if bool_decide (name = py "delete_file") then
    Some (call1 (py "path") None (WorkspaceManager.delete_file workspace_path))
  else if bool_decide (name = py "apply_file_edit") then
    Some (call3 (py "path") (py "search_block") (py "replace_block")
            (WorkspaceManager.apply_file_edit workspace_path))
  else None.

Section Executor.
Variable tool_map : text → option method.

(** The body of the [try]: anything but a dictionary fails in the
    membership test, the item assignment or the [**] call. *)
Definition attempt (function_name : text) (m : method) (arguments : json) (fs : store)
  : outcome result * store :=
  match arguments with
  | JObj fields =>
      let arguments := dict fields in
      let arguments :=
        if bool_decide (function_name = py "list_files") then
          match arguments !! py "path" with
          | None => <[py "path" := JStr (py ".")]> arguments
          | Some _ => arguments
          end
        else arguments in
      m arguments fs
  | _ => (Raise TypeError, fs)
  end.

Definition _execute_tool (function_name : text) (arguments : json) (fs : store)
  : outcome result * store :=
  match tool_map function_name with
  | None => (Return (Failure (UnknownTool function_name)), fs)
  | Some m =>
      match attempt function_name m arguments fs with
      | (Return r, fs') => (Return r, fs')
      | (Raise TypeError, fs') =>
          (Return (Failure (ArgumentMismatch function_name TypeError)), fs')
      | (Raise e, fs') => (Return (Failure (ToolError function_name e)), fs')
      end
  end.

(** [json.loads]; [None] is a [JSONDecodeError]. *)
Variable json_loads : text → option json.

(** Returns [(tool_result, function_name, tool_call_id)]. *)
Definition process_tool_call (active_provider : provider)
  : wire_call active_provider → store →
    outcome (result * option text * option text) * store :=
  match active_provider with
  | Google => λ tool_call fs,
      let function_name := fc_name tool_call in
      let arguments := default (JObj []) (fc_args tool_call) in
      if bool_decide (function_name = [])
      then (Return (Failure NoFunctionName, None, None), fs)
      else match _execute_tool function_name arguments fs with
           | (Return tool_result, fs') =>
               (Return (tool_result, Some function_name, None), fs')
           | (Raise e, fs') => (Raise e, fs')
           end
  | OpenAICompatible => λ tool_call fs,
      let function_name := tc_name tool_call in
      let tool_call_id := tc_id tool_call in
      match json_loads (tc_arguments tool_call) with
      | None => (Return (Failure InvalidJSON, Some function_name, Some tool_call_id), fs)
      | Some arguments =>
          if bool_decide (function_name = [])
          then (Return (Failure NoFunctionName, None, None), fs)
          else match _execute_tool function_name arguments fs with
               | (Return tool_result, fs') =>
                   (Return (tool_result, Some function_name, Some tool_call_id), fs')
               | (Raise e, fs') => (Raise e, fs')
               end
      end
  end.
End Executor.
End ToolExecutor.

(** ** Conversation messages *)

Inductive chat_message :=
  | SystemMessage (content : text)
  | UserMessage (content : text)
  | AssistantMessage (content : option text) (tool_calls : option (list tool_call))
  | ToolMessage (name : text) (content : text) (tool_call_id : text).

(** ** api_client.py: translation of the history for Google *)

Module APIClient.

Inductive role := user | model | function.

#[export] Instance role_eq_dec : EqDecision role.
Proof. solve_decision. Defined.

Inductive part :=
  | TextPart (text_ : option text)
  | FunctionCallPart (name : text) (args : json)
  | FunctionResponsePart (name : text) (content : json).

(** [{"role": ..., "parts": [...]}] *)
Record entry := { entry_role : role; entry_parts : list part }.

(** [transformed.append(e)] before the rest of the pass runs. *)
Definition and_then (e : entry) (rest : outcome (list entry)) : outcome (list entry) :=
  match rest with
  | Return l => Return (e :: l)
  | Raise x => Raise x
  end.

Section Transform.
Variable json_loads : text → option json.

Definition function_call_part (tc : tool_call) : part :=
  FunctionCallPart (tc_name tc) (default (JObj []) (json_loads (tc_arguments tc))).

(** The pass over the messages; [system_prompt] is the prefix still to be
    put in front of a user message.  A tool message whose content does
    not decode raises out of the translation. *)
Fixpoint per_message (system_prompt : text) (messages : list chat_message)
  : outcome (list entry) :=
  match messages with
  | [] => Return []
  | msg :: rest =>
      match msg with
      | SystemMessage _ => per_message system_prompt rest
      | AssistantMessage content tool_calls =>
          let e :=
            match tool_calls with
            | Some (tc :: tcs) =>
                {| entry_role := model;
                   entry_parts := map function_call_part (tc :: tcs) |}
            | _ => {| entry_role := model; entry_parts := [TextPart content] |}
            end in
          and_then e (per_message system_prompt rest)
      | ToolMessage name content _ =>
          match json_loads content with
          | None => Raise JSONDecodeError
          | Some content_obj =>
              and_then {| entry_role := function;
                          entry_parts := [FunctionResponsePart name content_obj] |}
                (per_message system_prompt rest)
          end
      | UserMessage content =>
          let content' :=
            match system_prompt with
            | [] => content
            | _ :: _ => system_prompt ++ py "

--- USER'S TASK ---

" ++ content
            end in
          and_then {| entry_role := user; entry_parts := [TextPart (Some content')] |}
            (per_message [] rest)
      end
  end.

(** The inner [while]: entries from index [i] on, as long as they have
    role [function], give their parts. *)
Fixpoint gather (fuel : nat) (transformed : list entry) (i : nat)
    (function_parts : list part) : option (nat * list part) :=
  match fuel with
  | O => None
  | S fuel' =>
      match transformed !! i with
      | Some e =>
          if bool_decide (entry_role e = function)
          then gather fuel' transformed (i + 1) (function_parts ++ entry_parts e)
          else Some (i, function_parts)
      | None => Some (i, function_parts)
      end
  end.

(** The outer [while i < len(transformed)]. *)
Fixpoint coalesce_from (fuel : nat) (transformed : list entry) (i : nat)
    (final_transformed : list entry) : option (list entry) :=
  match fuel with
  | O => None
  | S fuel' =>
      match transformed !! i with
      | None => Some final_transformed
      | Some current_msg =>
          if bool_decide (entry_role current_msg = function) then
            match gather (S (length transformed)) transformed i [] with
            | None => None
            | Some (i', function_parts) =>
                coalesce_from fuel' transformed i'
                  (final_transformed
                     ++ [{| entry_role := function; entry_parts := function_parts |}])
            end
          else coalesce_from fuel' transformed (i + 1) (final_transformed ++ [current_msg])
      end
  end.

(** The coalescing pass; the loop runs at most once per entry. *)
Definition coalesce (transformed : list entry) : option (list entry) :=
  coalesce_from (S (length transformed)) transformed 0 [].

(** The translation raises when a tool message does not decode; the
    inner [option] is the coalescing loop, which always ends. *)
Definition _transform_messages_for_google (messages : list chat_message)
  : outcome (option (list entry)) :=
  let system_prompt :=
    match messages with
    | SystemMessage content :: _ => content
    | _ => []
    end in
  match per_message system_prompt messages with
  | Raise e => Raise e
  | Return transformed => Return (coalesce transformed)
  end.
End Transform.
End APIClient.

(** ** main.py: the autonomous loop *)

Module TextualCLI.
Import PyStr.

(** What [get_response] hands back with [success]. *)
Inductive response (p : provider) :=
  | ToolCallResponse (calls : list (wire_call p))
  | TextResponse (content : text).
Arguments ToolCallResponse {p} calls.
Arguments TextResponse {p} content.

Inductive reply (p : provider) :=
  | Reply (r : response p)
  | NoSuccess
  | Raised (e : exn).
Arguments Reply {p} r.
Arguments NoSuccess {p}.
Arguments Raised {p} e.

(** The session: [self.messages], the workspace files, [self.loaded_context]
    and, for the statements below, the number of requests sent to the model. *)
Record state := {
  messages : list chat_message;
  files : store;
  loaded_context : option text;
  requests : nat
}.

Definition MAX_LOOPS : nat := 15.

Section Turn.
Variable workspace_path : option text.
Variable active_provider : provider.
Variable json_loads : text → option json.
Variable json_dumps : json → text.
(** [json.dumps(result)] of a tool result. *)
Variable result_dumps : result → text.
(** The model behind the API, asked for the [n]-th time with a copy of
    the history. *)
Variable get_response : nat → list chat_message → reply active_provider.

Definition tool_executor :=
  ToolExecutor.process_tool_call (ToolExecutor.workspace_tools workspace_path) json_loads.

(** "Format calls for history". *)
Definition openai_formatted_tool_calls
  : list (wire_call active_provider) → list tool_call :=
  match active_provider with
  | Google => imap (λ i tc,
                {| tc_id := py "call_" ++ py (pretty i);
                   tc_name := fc_name tc;
                   tc_arguments := json_dumps (default (JObj []) (fc_args tc)) |})
  | OpenAICompatible => λ tool_calls, tool_calls
  end.

(** "Execute Tools": [for i, tool_call in enumerate(tool_calls)], from
    index [i] on.  An exception leaves the loop with what was done so far. *)
Fixpoint execute_tools (i : nat) (tool_calls : list (wire_call active_provider))
    (formatted : list tool_call) (st : state) : state * option exn :=
  match tool_calls with
  | [] => (st, None)
  | tool_call :: rest =>
      match formatted !! i with
      | None => (st, Some IndexError)
      | Some f =>
          let call_id := tc_id f in
          match tool_executor active_provider tool_call (files st) with
          | (Raise e, fs') =>
              ({| messages := messages st; files := fs';
                  loaded_context := loaded_context st; requests := requests st |},
               Some e)
          | (Return (result, name, _), fs') =>
              let tool_message :=
                match name with
                | Some (c :: n) => [ToolMessage (c :: n) (result_dumps result) call_id]
                | _ => []
                end in
              execute_tools (i + 1) rest formatted
                {| messages := messages st ++ tool_message; files := fs';
                   loaded_context := loaded_context st; requests := requests st |}
          end
      end
  end.

Definition append (st : state) (m : chat_message) : state :=
  {| messages := messages st ++ [m]; files := files st;
     loaded_context := loaded_context st; requests := requests st |}.

Definition asked (st : state) : state :=
  {| messages := messages st; files := files st;
     loaded_context := loaded_context st; requests := S (requests st) |}.

(** [while keep_running and loop_count < MAX_LOOPS].  [None]: out of fuel. *)
Fixpoint autonomous_loop (fuel : nat) (loop_count : nat) (st : state) : option state :=
  match fuel with
  | O => None
  | S fuel' =>
      if loop_count <? MAX_LOOPS then
        let loop_count := loop_count + 1 in
        let current_messages := messages st in
        match get_response (requests st) current_messages with
        | Raised _ | NoSuccess => Some (asked st)
        | Reply (ToolCallResponse tool_calls) =>
            let formatted := openai_formatted_tool_calls tool_calls in
            let assistant_message := AssistantMessage None (Some formatted) in
            match execute_tools 0 tool_calls formatted
                    (append (asked st) assistant_message) with
            | (st', Some _) => Some st'
            | (st', None) => autonomous_loop fuel' loop_count st'
            end
        | Reply (TextResponse content) =>
            Some (append (asked st) (AssistantMessage (Some content) None))
        end
      else Some st
  end.

(** "Inject loaded context if available". *)
Definition inject (st : state) : state :=
  match loaded_context st, last (messages st) with
  | Some (c :: ctx), Some (UserMessage last_user_message) =>
      {| messages := removelast (messages st)
                     ++ [UserMessage ((c :: ctx) ++ py "
--- User's Prompt ---
" ++ last_user_message)];
         files := files st; loaded_context := None; requests := requests st |}
  | _, _ => st
  end.

Definition process_bot_turn (st : state) : option state :=
  match workspace_path with
  | None | Some [] =>
      Some match last (messages st) with
           | Some (UserMessage _) =>
               {| messages := removelast (messages st); files := files st;
                  loaded_context := loaded_context st; requests := requests st |}
           | _ => st
           end
  | Some _ => autonomous_loop (S MAX_LOOPS) 0 (inject st)
  end.
End Turn.
End TextualCLI.

(** ** services/chat_session_service.py

    The messages of a session are dictionaries, which [list.copy] shares
    between the session and the lists it hands out: the session holds the
    addresses of its messages, and the dictionaries live in [objects]. *)

Module ChatSessionService.

Record session := {
  system_prompt : text;
  (** the message dictionaries allocated so far, by address *)
  objects : list chat_message;
  messages : list nat;
  (** [{file_path: content}], in insertion order *)
  managed_context : list (text * text);
  command_history : list text;
  history_index : Z
}.

(** [l[i]] for a Python index: a negative index counts from the end. *)
Definition py_index {A} (l : list A) (i : Z) : outcome A :=
  let i' := (if i <? 0 then Z.of_nat (length l) + i else i)%Z in
  if (i' <? 0)%Z then Raise IndexError
  else match l !! Z.to_nat i' with
       | Some x => Return x
       | None => Raise IndexError
       end.

(** [d[key] = value] *)
Fixpoint dict_set (d : list (text * text)) (key value : text) : list (text * text) :=
  match d with
  | [] => [(key, value)]
  | (k, v) :: d' => if bool_decide (k = key) then (k, value) :: d'
                    else (k, v) :: dict_set d' key value
  end.

Definition clear_context (s : session) : session :=
  {| system_prompt := system_prompt s; objects := objects s; messages := messages s;
     managed_context := []; command_history := command_history s;
     history_index := history_index s |}.

Definition start_new_session (s : session) : session :=
  clear_context
    {| system_prompt := system_prompt s;
       objects := objects s ++ [SystemMessage (system_prompt s)];
       messages := [length (objects s)];
       managed_context := managed_context s; command_history := command_history s;
       history_index := history_index s |}.

Definition __init__ (system_prompt : text) : session :=
  start_new_session
    {| system_prompt := system_prompt; objects := []; messages := [];
       managed_context := []; command_history := []; history_index := (-1)%Z |}.

(** [message] is a dictionary the caller has just built. *)
Definition add_message (s : session) (message : chat_message) : session :=
  {| system_prompt := system_prompt s;
     objects := objects s ++ [message];
     messages := messages s ++ [length (objects s)];
     managed_context := managed_context s; command_history := command_history s;
     history_index := history_index s |}.

(** [self.messages.copy()]: a new list of the same dictionaries. *)
Definition get_messages (s : session) : list nat := messages s.

Definition add_to_context (s : session) (file_path content : text) : session :=
  {| system_prompt := system_prompt s; objects := objects s; messages := messages s;
     managed_context := dict_set (managed_context s) file_path content;
     command_history := command_history s; history_index := history_index s |}.

Definition get_context_files (s : session) : list text := map fst (managed_context s).

Definition add_to_command_history (s : session) (user_input : text) : session :=
  {| system_prompt := system_prompt s; objects := objects s; messages := messages s;
     managed_context := managed_context s;
     command_history :=
       if bool_decide (user_input ∈ command_history s) then command_history s
       else user_input :: command_history s;
     history_index := (-1)%Z |}.

Definition set_history_index (s : session) (i : Z) : session :=
  {| system_prompt := system_prompt s; objects := objects s; messages := messages s;
     managed_context := managed_context s; command_history := command_history s;
     history_index := i |}.

Definition get_previous_history (s : session) : outcome (option text) * session :=
  match command_history s with
  | [] => (Return None, s)
  | _ :: _ =>
      let s := set_history_index s
                 (Z.min (history_index s + 1) (Z.of_nat (length (command_history s)) - 1)) in
      (match py_index (command_history s) (history_index s) with
       | Return item => Return (Some item)
       | Raise e => Raise e
       end, s)
  end.

Definition get_next_history (s : session) : outcome text * session :=
  if bool_decide (command_history s ≠ []) && (-1 <? history_index s)%Z then
    let s := set_history_index s (Z.max (history_index s - 1) (-1)) in
    if (history_index s =? -1)%Z then (Return [], s)
    else (py_index (command_history s) (history_index s), s)
  else (Return [], s).

(** [temp_messages[i]['role'] == 'user'] *)
Definition role_is_user (objects : list chat_message) (address : nat) : bool :=
  match objects !! address with
  | Some (UserMessage _) => true
  | _ => false
  end.

(** The text built from the managed context. *)
Definition context_str (managed_context : list (text * text)) : text :=
  py "--- CONTEXT START ---
" ++ flat_map (λ item, py "--- FILE: " ++ item.1 ++ py " ---
" ++ item.2 ++ py "
--- END FILE: " ++ item.1 ++ py " ---

") managed_context ++ py "--- CONTEXT END ---

".

(** [for i in reversed(range(len(temp_messages)))] up to the [break]. *)
Definition last_user_msg_idx (objects : list chat_message) (temp_messages : list nat)
  : option nat :=
  head (filter (λ i, match temp_messages !! i with
                     | Some address => role_is_user objects address
                     | None => false
                     end = true)
          (reverse (seq 0 (length temp_messages)))).

(** Returns the list for the API call; the assignment to ['content'] goes
    to the dictionary the session holds too. *)
Definition get_messages_with_injected_context (s : session) : list nat * session :=
  match managed_context s with
  | [] => (get_messages s, s)
  | _ :: _ =>
      let temp_messages := get_messages s in
      match last_user_msg_idx (objects s) temp_messages with
      | None => (temp_messages, s)
      | Some idx =>
          match temp_messages !! idx with
          | Some address =>
              match objects s !! address with
              | Some (UserMessage original_content) =>
                  (temp_messages,
                   {| system_prompt := system_prompt s;
                      objects := <[address := UserMessage
                                     (context_str (managed_context s) ++ original_content)]>
                                   (objects s);
                      messages := messages s;
                      managed_context := managed_context s;
                      command_history := command_history s;
                      history_index := history_index s |})
              | _ => (temp_messages, s)
              end
          | None => (temp_messages, s)
          end
      end
  end.

(** The messages behind a list of addresses. *)
Definition read (s : session) (addresses : list nat) : list chat_message :=
  omap (λ address, objects s !! address) addresses.
End ChatSessionService.

(** ** main.py: the input history of the prompt *)

Module InputHistory.
Import PyStr.

(** [self.history], [self.history_index] and the text of the prompt's
    buffer. *)
Record prompt := {
  history : list text;
  history_index : Z;
  buffer : text
}.

(** The key binding ['up']. *)
Definition up (p : prompt) : outcome prompt :=
  match history p with
  | [] => Return p
  | _ :: _ =>
      let history_index :=
        Z.min (history_index p + 1) (Z.of_nat (length (history p)) - 1) in
      match ChatSessionService.py_index (history p) history_index with
      | Return item =>
          Return {| history := history p; history_index := history_index; buffer := item |}
      | Raise e => Raise e
      end
  end.

(** The key binding ['down']. *)
Definition down (p : prompt) : outcome prompt :=
  match history p with
  | [] => Return p
  | _ :: _ =>
      let history_index := Z.max (history_index p - 1) (-1) in
      if (history_index =? -1)%Z then
        Return {| history := history p; history_index := history_index; buffer := [] |}
      else
        match ChatSessionService.py_index (history p) history_index with
        | Return item =>
            Return {| history := history p; history_index := history_index; buffer := item |}
        | Raise e => Raise e
        end
  end.

(** What [run] does to the history with the input it has read; [None]:
    the input is blank and the loop goes on to the next prompt. *)
Definition remember (p : prompt) (user_input : text) : option prompt :=
  match strip user_input with
  | [] => None
  | c :: stripped =>
      Some {| history := if bool_decide (c :: stripped ∈ history p) then history p
                         else (c :: stripped) :: history p;
              history_index := (-1)%Z;
              buffer := buffer p |}
  end.
End InputHistory.

(** ** config_manager.py: loading the configuration

    The configuration is the value [json.load] has read: nothing makes it a
    dictionary, so the operations on it are those of Python on any decoded
    value.  A [JObj] lists the items of a dictionary in the order they were
    set; an item set later overrides an earlier one with the same key. *)

Module ConfigManager.
Import PyStr.

(** The exceptions of a lookup: those above and [KeyError]. *)
Inductive raised :=
  | Exn (e : exn)
  | KeyError.

Inductive attempt (A : Type) :=
  | Ok (a : A)
  | Fails (e : raised).
Arguments Ok {A} a.
Arguments Fails {A} e.

(** [key in container] for a string [key]: a key of a dictionary, an
    element of a list, a substring of a string; a [TypeError] otherwise. *)
Definition py_in (key : text) (container : json) : attempt bool :=
  match container with
  | JObj fields => Ok (bool_decide (key ∈ fields.*1))
  | JArr values =>
      Ok (existsb (λ v, match v with
                        | JStr s => bool_decide (s = key)
                        | _ => false
                        end) values)
  | JStr s => Ok (contains key s)
  | _ => Fails (Exn TypeError)
  end.

(** [container[key]] for a string [key]. *)
Definition py_getitem (container : json) (key : text) : attempt json :=
  match container with
  | JObj fields =>
      match ToolExecutor.dict fields !! key with
      | Some value => Ok value
      | None => Fails KeyError
      end
  | _ => Fails (Exn TypeError)
  end.

(** [container[key] = value] for a string [key]. *)
Definition py_setitem (container : json) (key : text) (value : json) : attempt json :=
  match container with
  | JObj fields => Ok (JObj (fields ++ [(key, value)]))
  | _ => Fails (Exn TypeError)
  end.

(** The settings of the six providers in [create_default_config]. *)
Definition default_providers : list (text * list (text * json)) :=
  [ (py "google",
     [ (py "api_key", JStr (py "YOUR_GOOGLE_AI_STUDIO_API_KEY_HERE"));
       (py "api_url", JStr (py "https://generativelanguage.googleapis.com/v1beta/models"));
       (py "model", JStr (py "gemini-2.0-flash-exp")) ]);
    (py "openai",
     [ (py "api_key", JStr (py "YOUR_OPENAI_API_KEY_HERE"));
       (py "api_url", JStr (py "https://api.openai.com/v1/chat/completions"));
       (py "model", JStr (py "gpt-4o")) ]);
    (py "openrouter",
     [ (py "api_key", JStr (py "YOUR_OPENROUTER_KEY_HERE"));
       (py "api_url", JStr (py "https://openrouter.ai/api/v1/chat/completions"));
       (py "model", JStr (py "anthropic/claude-3.5-sonnet")) ]);
    (py "groq",
     [ (py "api_key", JStr (py "YOUR_GROQ_API_KEY_HERE"));
       (py "api_url", JStr (py "https://api.groq.com/openai/v1/chat/completions"));
       (py "model", JStr (py "llama3-70b-8192")) ]);
    (py "ollama",
     [ (py "api_key", JStr (py "ollama"));
       (py "api_url", JStr (py "http://localhost:11434/api/chat"));
       (py "model", JStr (py "llama3.1")) ]);
    (py "lmstudio",
     [ (py "api_key", JStr (py "lm-studio"));
       (py "api_url", JStr (py "http://localhost:1234/v1/chat/completions"));
       (py "model", JStr (py "local-model")) ]) ].

(** The items of the dictionary [create_default_config] returns. *)
Definition create_default_config : list (text * json) :=
  [ (py "active_provider", JStr (py "google"));
    (py "debug_mode", JBool false);
    (py "workspace_path", JNull);
    (py "confirm_actions", JBool false);
    (py "providers", JObj (map (λ item, (item.1, JObj item.2)) default_providers)) ].

Section Migration.
(** [default_config], and the items of [default_config["providers"]]. *)
Variable default_config : list (text * json).
Variable default_providers : list (text * list (text * json)).

(** [for key, value in defaults.items(): if key not in container:
    container[key] = value; updated = True] *)
Fixpoint fill (container : json) (defaults : list (text * json)) : attempt (json * bool) :=
  match defaults with
  | [] => Ok (container, false)
  | (key, value) :: defaults =>
      match py_in key container with
      | Fails e => Fails e
      | Ok true => fill container defaults
      | Ok false =>
          match py_setitem container key value with
          | Fails e => Fails e
          | Ok container =>
              match fill container defaults with
              | Fails e => Fails e
              | Ok (container, _) => Ok (container, true)
              end
          end
      end
  end.

(** "Migrate providers": the loop over the default providers, on
    [config["providers"]]; the settings of a provider are filled where
    they are, in the dictionary the configuration holds.  The dictionary
    of a provider is looked up for each of its default settings: not at
    all when there are none. *)
Fixpoint fill_providers (providers : json) (defaults : list (text * list (text * json)))
  : attempt (json * bool) :=
  match defaults with
  | [] => Ok (providers, false)
  | (provider, settings) :: defaults =>
      match py_in provider providers with
      | Fails e => Fails e
      | Ok false =>
          match py_setitem providers provider (JObj settings) with
          | Fails e => Fails e
          | Ok providers =>
              match fill_providers providers defaults with
              | Fails e => Fails e
              | Ok (providers, _) => Ok (providers, true)
              end
          end
      | Ok true =>
          match settings with
          | [] => fill_providers providers defaults
          | _ :: _ =>
              match py_getitem providers provider with
              | Fails e => Fails e
              | Ok current =>
                  match fill current settings with
                  | Fails e => Fails e
                  | Ok (_, false) => fill_providers providers defaults
                  | Ok (current, true) =>
                      match py_setitem providers provider current with
                      | Fails e => Fails e
                      | Ok providers =>
                          match fill_providers providers defaults with
                          | Fails e => Fails e
                          | Ok (providers, _) => Ok (providers, true)
                          end
                      end
                  end
              end
          end
      end
  end.

(** The migration of a configuration that was read: the configuration to
    use, and [updated]. *)
Definition migrate (config : json) : attempt (json * bool) :=
  match fill config default_config with
  | Fails e => Fails e
  | Ok (config, updated) =>
      match py_in (py "providers") config with
      | Fails e => Fails e
      | Ok false =>
          match py_getitem (JObj default_config) (py "providers") with
          | Fails e => Fails e
          | Ok providers =>
              match py_setitem config (py "providers") providers with
              | Fails e => Fails e
              | Ok config => Ok (config, true)
              end
          end
      | Ok true =>
          match py_getitem config (py "providers") with
          | Fails e => Fails e
          | Ok providers =>
              match fill_providers providers default_providers with
              | Fails e => Fails e
              | Ok (_, false) => Ok (config, updated)
              | Ok (providers, true) =>
                  match py_setitem config (py "providers") providers with
                  | Fails e => Fails e
                  | Ok config => Ok (config, true)
                  end
              end
          end
      end
  end.
End Migration.

(** What is found at [self.config_file]. *)
Inductive config_file :=
  | Missing
  (** [open] raises an [IOError] *)
  | Unreadable
  (** the bytes are not UTF-8 *)
  | NotText
  (** [json.load] raises a [JSONDecodeError] *)
  | NotJSON
  | Holds (config : json).

(** Returns [self.config] and what [save_config] is called with, if it
    is called.  Only [JSONDecodeError] and [IOError] are caught. *)
Definition load_and_migrate_config (file : config_file) : attempt (json * option json) :=
  match file with
  | Missing => Ok (JObj create_default_config, Some (JObj create_default_config))
  | Unreadable | NotJSON => Ok (JObj create_default_config, None)
  | NotText => Fails (Exn UnicodeDecodeError)
  | Holds config =>
      match migrate create_default_config default_providers config with
      | Fails e => Fails e
      | Ok (config, updated) => Ok (config, if updated then Some config else None)
      end
  end.
End ConfigManager.

(** ** The words of the design document

    Predicates the statements below are written with. *)

Module Spec.
Import PyStr OS APIClient.

(** [sub] occurs in [s] at offset [i]. *)
Definition occurs_at (sub s : text) (i : nat) : Prop :=
  i ≤ length s ∧ sub `prefix_of` drop i s.


(** A proper path component: a name, not empty, not ['.'] or ['..']. *)
Definition proper (c : text) : Prop :=
  c ≠ [] ∧ c ≠ [DOT] ∧ c ≠ [DOT; DOT] ∧ SLASH ∉ c.

Definition no_links (fs : store) : Prop :=
  ∀ p target, fs !! p ≠ Some (Link target).

Definition link_free (n : node) : bool :=
  match n with
  | Link _ => false
  | _ => true
  end.

(** The parameters of the six operations, after the interface table of the
    design document; [path] of [list_files] is the only optional one. *)
Definition parameters (name : text) : list text :=
  if bool_decide (name = py "write_file") then [py "path"; py "content"]
  else if bool_decide (name = py "apply_file_edit")
       then [py "path"; py "search_block"; py "replace_block"]
       else [py "path"].

Definition optional (name : text) : list text :=
  if bool_decide (name = py "list_files") then [py "path"] else [].

(** An argument that is no parameter, or a required parameter left out. *)
Definition mismatch (name : text) (arguments : gmap text json) : Prop :=
  (∃ k, k ∈ dom arguments ∧ k ∉ parameters name)
  ∨ (∃ p, p ∈ parameters name ∧ (p ∉ optional name) ∧ arguments !! p = None).

(** What the design document asks of the pass: every maximal run of
    consecutive [function] entries becomes one [function] entry with the
    parts of the run in order; the other entries stay as they are, in order. *)
Inductive Coalesced : list entry → list entry → Prop :=
  | coalesced_nil : Coalesced [] []
  | coalesced_other e l l' :
      entry_role e ≠ function →
      Coalesced l l' →
      Coalesced (e :: l) (e :: l')
  | coalesced_run run rest rest' :
      run ≠ [] →
      Forall (λ e, entry_role e = function) run →
      (∀ e, head rest = Some e → entry_role e ≠ function) →
      Coalesced rest rest' →
      Coalesced (run ++ rest)
        ({| entry_role := function; entry_parts := concat (map entry_parts run) |} :: rest').

(** The function name a tool call carries. *)
Definition call_name (p : provider) : wire_call p → text :=
  match p with
  | Google => fc_name
  | OpenAICompatible => tc_name
  end.

(** A tool-result message that answers the call [tc]. *)
Definition answers (tc : tool_call) (m : chat_message) : Prop :=
  ∃ content, m = ToolMessage (tc_name tc) content (tc_id tc).

End Spec.

(** ** Sample workspaces, sessions and model stubs *)

Module Samples.
Import PyStr TextualCLI.

(** A workspace with one file, [/ws/f.txt]. *)
Definition one_file (content : text) : store :=
  list_to_map [(py "/", Dir); (py "/ws", Dir); (py "/ws/f.txt", File (Some content))].

(** Two lines that hold [bar]; only the second is [bar] alone. *)
Definition bar_twice : text := py "bar x
bar".

(** A file with an indented second line. *)
Definition indented : text := py "foo
    bar
baz".

(** A file that ends with a blank line. *)
Definition blank_last_line : text := py "  bar
x

".

(** A machine with a workspace [/home/ws] and a directory next to it. *)
Definition machine : store :=
  list_to_map
    [(py "/", Dir); (py "/etc", Dir); (py "/etc/passwd", File (Some (py "root:x:0:0")));
     (py "/home", Dir); (py "/home/ws", Dir);
     (py "/home/ws2", Dir); (py "/home/ws2/secret.txt", File (Some (py "s3cret")))].

(** A workspace in which [sub/dir] is a symbolic link. *)
Definition linked : store :=
  list_to_map
    [(py "/", Dir); (py "/home", Dir); (py "/home/ws", Dir); (py "/home/ws/sub", Dir);
     (py "/home/ws/other", Dir); (py "/home/ws/other/deep", Dir);
     (py "/home/ws/sub/dir", Link (py "/home/ws/other/deep"))].

(** A workspace with a directory [a] next to a file [a.txt]. *)
Definition two_entries : store :=
  list_to_map [(py "/", Dir); (py "/ws", Dir); (py "/ws/a", Dir);
               (py "/ws/.git", Dir); (py "/ws/a.txt", File (Some []))].

(** A session over the one-file workspace. *)
Definition session : state :=
  {| messages := [SystemMessage (py "You are an agent."); UserMessage (py "go")];
     files := one_file (py "foo");
     loaded_context := None;
     requests := 0 |}.

(** A decoder that knows the empty object, and encoders that write nothing
    else. *)
Definition loads_empty (s : text) : option json :=
  if bool_decide (s = py "{}") then Some (JObj []) else None.

Definition dumps_empty (_ : json) : text := py "{}".

Definition dumps_result (_ : result) : text := py "{}".

(** A Google model that lists the files again and again. *)
Definition keeps_listing (_ : nat) (_ : list chat_message) : reply Google :=
  Reply (ToolCallResponse (p := Google) [{| fc_name := py "list_files"; fc_args := None |}]).

(** An OpenAI-style model that first sends one call without a function
    name, then a closing text. *)
Definition nameless_call : tool_call :=
  {| tc_id := py "call_a"; tc_name := []; tc_arguments := py "{}" |}.


(** An OpenAI-style model that first sends three calls, the second one
    without a function name, then a closing text. *)
Definition list_call : tool_call :=
  {| tc_id := py "call_b"; tc_name := py "list_files"; tc_arguments := py "{}" |}.

Definition unknown_call : tool_call :=
  {| tc_id := py "call_c"; tc_name := py "fly"; tc_arguments := py "{}" |}.

Definition mixed_batch : list tool_call := [list_call; nameless_call; unknown_call].

Definition mixed_then_text (n : nat) (_ : list chat_message) : reply OpenAICompatible :=
  match n with
  | O => Reply (ToolCallResponse (p := OpenAICompatible) mixed_batch)
  | S _ => Reply (TextResponse (py "done"))
  end.
End Samples.

(** ** Further notions and samples for the statements *)

Module FileNotions.
Import PyStr OS APIClient.

(** A code point that UTF-8 encodes: no surrogate, at most [0x10FFFF]. *)
Definition scalar_value (c : char) : Prop :=
  (c < 55296 ∨ 57343 < c ∧ c ≤ 1114111)%N.

(** Text that a file opened with [encoding='utf-8'] accepts. *)
Definition encodable (s : text) : Prop := Forall scalar_value s.

(** The two stores hold the same symbolic links. *)
Definition same_links (fs fs' : store) : Prop :=
  ∀ p target, fs !! p = Some (Link target) ↔ fs' !! p = Some (Link target).

(** [fs'] is [fs] with directories added. *)
Definition adds_directories (fs fs' : store) : Prop :=
  ∀ p, fs' !! p = fs !! p ∨ (fs !! p = None ∧ fs' !! p = Some Dir).
End FileNotions.

Module TranslationNotions.
Import PyStr OS APIClient.

(** No two [function] entries follow one another. *)
Definition separated (l : list entry) : Prop :=
  ∀ i e1 e2,
    l !! i = Some e1 → l !! S i = Some e2 →
    entry_role e1 = function → entry_role e2 ≠ function.


Definition is_user (m : chat_message) : Prop :=
  match m with
  | UserMessage _ => True
  | _ => False
  end.

(** The text sent for the first user message of a history with a system
    prompt. *)
Definition under_system_prompt (system_prompt content : text) : text :=
  system_prompt ++ py "

--- USER'S TASK ---

" ++ content.

Definition user_entry (content : text) : entry :=
  {| entry_role := user; entry_parts := [TextPart (Some content)] |}.
End TranslationNotions.

Module TurnNotions.
Import PyStr TextualCLI.

(** The reply that ends a turn before the bound: a text, or a request that
    failed. *)
Definition ends_the_turn {p : provider} (r : reply p) (history final : list chat_message)
  : Prop :=
  match r with
  | Reply (TextResponse content) => final = history ++ [AssistantMessage (Some content) None]
  | Reply (ToolCallResponse _) => False
  | NoSuccess | Raised _ => final = history
  end.

(** The last user message once the loaded context is put in front of it. *)
Definition with_context (context last_user_message : text) : chat_message :=
  UserMessage (context ++ py "
--- User's Prompt ---
" ++ last_user_message).
End TurnNotions.

Module SessionNotions.
Import ChatSessionService.

(** The history index is [-1] or an index of the command history. *)
Definition index_in_range (s : session) : Prop :=
  (-1 ≤ history_index s < Z.of_nat (length (command_history s)))%Z.

(** The session after [n] requests of a turn. *)
Definition after_requests (n : nat) (s : session) : session :=
  Nat.iter n (λ s, (get_messages_with_injected_context s).2) s.

(** The prompt and the session service hold the same history. *)
Definition same_history (s : session) (p : InputHistory.prompt) : Prop :=
  command_history s = InputHistory.history p
  ∧ history_index s = InputHistory.history_index p.
End SessionNotions.

Module ConfigNotions.
Import ConfigManager.

(** [d.get(key)] of a dictionary; nothing for any other value. *)
Definition entry (value : json) (key : text) : option json :=
  match value with
  | JObj fields => ToolExecutor.dict fields !! key
  | _ => None
  end.

(** The setting [key] of [provider] among the providers. *)
Definition setting_in (providers : json) (provider key : text) : option json :=
  settings ← entry providers provider;
  entry settings key.

(** The setting [key] of [provider] in a configuration. *)
Definition provider_setting (config : json) (provider key : text) : option json :=
  providers ← entry config (py "providers");
  setting_in providers provider key.

(** The default of that setting. *)
Definition default_setting (provider key : text) : option json :=
  provider_setting (JObj create_default_config) provider key.

(** A dictionary of dictionaries. *)
Definition dictionaries (providers : json) : Prop :=
  (∃ fields, providers = JObj fields)
  ∧ ∀ provider settings,
      entry providers provider = Some settings → ∃ fields, settings = JObj fields.

(** A configuration of the expected shape: a dictionary whose
    ["providers"], if there are any, are a dictionary of dictionaries. *)
Definition well_formed (config : json) : Prop :=
  (∃ fields, config = JObj fields)
  ∧ ∀ providers, entry config (py "providers") = Some providers → dictionaries providers.

(** The settings of a provider are all there. *)
Definition complete (providers : json) (item : text * list (text * json)) : Prop :=
  py_in item.1 providers = Ok true
  ∧ (item.2 = []
     ∨ ∃ current, py_getitem providers item.1 = Ok current
                  ∧ Forall (λ setting, py_in setting.1 current = Ok true) item.2).

(** The first default of a setting in a list of provider defaults. *)
Fixpoint first_default (defaults : list (text * list (text * json))) (provider key : text)
  : option json :=
  match defaults with
  | [] => None
  | (p, settings) :: defaults =>
      if bool_decide (p = provider) then
        match (list_to_map settings : gmap text json) !! key with
        | Some value => Some value
        | None => first_default defaults provider key
        end
      else first_default defaults provider key
  end.

(** A configuration written before the other providers were known, with a
    key of its own. *)
Definition old_config : json :=
  JObj [ (py "active_provider", JStr (py "groq"));
         (py "theme", JStr (py "dark"));
         (py "providers",
          JObj [ (py "groq", JObj [ (py "api_key", JStr (py "secret")) ]) ]) ].
End ConfigNotions.

Module MoreSamples.
Import PyStr.

(** A history in which one assistant message with two calls is answered by
    two tool messages. *)
Definition two_results : list chat_message :=
  [ SystemMessage (py "You are an agent.");
    UserMessage (py "go");
    AssistantMessage None
      (Some [ {| tc_id := py "call_0"; tc_name := py "read_file"; tc_arguments := py "{}" |};
              {| tc_id := py "call_1"; tc_name := py "list_files"; tc_arguments := py "{}" |} ]);
    ToolMessage (py "read_file") (py "{}") (py "call_0");
    ToolMessage (py "list_files") (py "{}") (py "call_1");
    AssistantMessage (Some (py "done")) None ].

(** A registry with one tool, which raises. *)
Definition raising_tools (name : text) : option ToolExecutor.method :=
  if bool_decide (name = py "boom") then Some (λ _ fs, (Raise LoopError, fs)) else None.

(** A session with a context loaded, and a model that answers with a text. *)
Definition session_with_context : TextualCLI.state :=
  {| TextualCLI.messages := [SystemMessage (py "You are an agent."); UserMessage (py "go")];
     TextualCLI.files := Samples.one_file (py "foo");
     TextualCLI.loaded_context := Some (py "CONTEXT");
     TextualCLI.requests := 0 |}.

Definition says_done (_ : nat) (_ : list chat_message) : TextualCLI.reply OpenAICompatible :=
  TextualCLI.Reply (TextualCLI.TextResponse (py "done")).

(** A chat session with the user message ["go"] and one file in the
    context. *)
Definition one_file_in_context : ChatSessionService.session :=
  ChatSessionService.add_to_context
    (ChatSessionService.add_message (ChatSessionService.__init__ (py "prompt"))
       (UserMessage (py "go")))
    (py "a.txt") (py "A").
End MoreSamples.

(** * Properties *)

(** ** Strings *)

Module PyStrFacts.
Import PyStr.

Lemma startswith_nil (s : text) : startswith s [] = true.
Proof. by destruct s. Qed.

Lemma startswith_prefix (s p : text) : startswith s p = true ↔ p `prefix_of` s.
Proof.
  revert s. induction p as [|a p IH]; intros [|b s]; simpl.
  - split; [intros _; apply prefix_nil | done].
  - split; [intros _; apply prefix_nil | done].
  - split; [done | intros H; by apply prefix_nil_not in H].
  - rewrite andb_true_iff, N.eqb_eq, IH. split.
    + intros [-> H]. by apply prefix_cons.
    + intros H. split.
      * by eapply prefix_cons_inv_1.
      * by eapply prefix_cons_inv_2.
Qed.

Lemma contains_nil (s : text) : contains [] s = true.
Proof. destruct s; simpl; by rewrite ?startswith_nil. Qed.

Lemma count_from_contains (sub s : text) (skip : nat) :
  0 < count_from sub skip s → contains sub s = true.
Proof.
  revert skip. induction s as [|c s IH]; intros skip; [simpl; lia|].
  cbn [count_from contains].
  destruct skip as [|k].
  - destruct (startswith (c :: s) sub) eqn:E; [done|].
    intros H. by rewrite (IH 0 H).
  - intros H. rewrite (IH k H). by rewrite orb_true_r.
Qed.

Lemma count_contains (s sub : text) : 0 < count s sub → contains sub s = true.
Proof.
  destruct sub as [|a sub]; [intros _; apply contains_nil|].
  apply count_from_contains.
Qed.

Lemma count_nil (s : text) : count s [] = length s + 1.
Proof. done. Qed.

Lemma endswith_last (s : text) (c : char) : endswith s [c] = true ↔ last s = Some c.
Proof.
  unfold endswith. rewrite <- head_reverse.
  change (reverse [c]) with [c].
  destruct (reverse s) as [|b r]; simpl; [done|].
  rewrite startswith_nil, andb_true_r, N.eqb_eq. split; congruence.
Qed.

(** Induction along the recursion of [splitlines]. *)
Lemma splitlines_ind (P : text → Prop) :
  P [] →
  (∀ c s, P s → (∀ c' s', s = c' :: s' → P s') → P (c :: s)) →
  ∀ s, P s.
Proof.
  intros Hnil Hcons s.
  cut (P s ∧ P (tail s)); [tauto|].
  induction s as [|c s [IH1 IH2]]; [done|]. split; [|done].
  apply Hcons; [done|]. by intros c' s' ->.
Qed.

Lemma splitlines_nonempty (s : text) : s ≠ [] → splitlines s ≠ [].
Proof.
  destruct s as [|c s]; [done|]. intros _. simpl.
  destruct (is_linebreak c); [done|]. by destruct (splitlines s).
Qed.

(** No line of [splitlines] contains a line boundary. *)
Lemma splitlines_no_linebreak (s : text) :
  Forall (Forall (λ c, is_linebreak c = false)) (splitlines s).
Proof.
  induction s as [|c s IH IH'] using splitlines_ind; [constructor|].
  simpl. destruct (is_linebreak c) eqn:Hc.
  - constructor; [constructor|].
    destruct (c =? CR)%N; [|done].
    destruct s as [|c' s']; [constructor|].
    destruct (c' =? LF)%N; [by eapply IH'|done].
  - destruct (splitlines s) as [|l ls]; [by repeat constructor|].
    inversion IH; subst. constructor; [by constructor|done].
Qed.

Lemma last_join (sep : text) (parts : list text) (p : text) :
  last parts = Some p → p ≠ [] → last (join sep parts) = last p.
Proof.
  induction parts as [|q [|q' parts] IH]; intros Hlast Hp; [done|by simplify_eq/=|].
  change (join sep (q :: q' :: parts)) with (q ++ sep ++ join sep (q' :: parts)).
  specialize (IH Hlast Hp).
  assert (join sep (q' :: parts) ≠ []) as Hne.
  { intros Heq. rewrite Heq in IH. destruct p using rev_ind; [done|].
    by rewrite last_snoc in IH. }
  rewrite !last_app. rewrite IH.
  destruct p using rev_ind; [done|]. by rewrite last_snoc.
Qed.

Lemma last_map {A B} (f : A → B) (l : list A) : last (map f l) = f <$> last l.
Proof. induction l as [|x [|y l] IH]; [done|done|]. exact IH. Qed.

Lemma lstrip_length (s : text) : length (lstrip s) ≤ length s.
Proof. induction s as [|c s IH]; simpl; [done|]. destruct (is_space c); simpl; lia. Qed.

(** A line that [lstrip] leaves alone starts with no white space. *)
Lemma lstrip_fixed (s : text) :
  lstrip s = s → startswith s [SPACE] = false ∧ startswith s [TAB] = false.
Proof.
  destruct s as [|c s]; [done|]. cbn [lstrip startswith]. intros H.
  destruct (is_space c) eqn:Hc.
  - pose proof (lstrip_length s) as Hlen. rewrite H in Hlen. simpl in Hlen. lia.
  - rewrite !startswith_nil, !andb_true_r.
    split; apply N.eqb_neq; intros <-; done.
Qed.

End PyStrFacts.

(** ** The patch engine *)

Module PatchEngine.
Import PyStr OS WorkspaceManager PyStrFacts Spec Samples FileNotions.

Lemma length_pos {A} (l : list A) : l ≠ [] → 0 < length l.
Proof. destruct l; [done|simpl; lia]. Qed.

Lemma read_text_exists (fs : store) (p content : text) :
  read_text fs p = Return content → path_exists fs p = true.
Proof.
  unfold read_text, path_exists. destruct (stat fs p) as [n|]; [|done].
  intros _. apply bool_decide_eq_true. by eexists.
Qed.

Section Edit.
Variable workspace_path : option text.
Variable fs : store.
Variables (path : json) (full_path original_content : text).
Hypothesis resolved :
  _resolve_and_check_path workspace_path fs path = Return (full_path, None).
Hypothesis readable : read_text fs full_path = Return original_content.

(** The edit of a readable file is decided by [edit_text] alone. *)
Lemma apply_file_edit_decided (search_block replace_block : json) :
  apply_file_edit workspace_path path search_block replace_block fs =
  match edit_text original_content search_block replace_block with
  | Raise e => (Return (Failure (EditError e)), fs)
  | Return (Reject error) => (Return (Failure error), fs)
  | Return (Rewrite final_content m) =>
      match open_w fs full_path with
      | Raise e => (Return (Failure (EditError e)), fs)
      | Return fs1 => (Return (Success m), write_text fs1 full_path final_content)
      end
  end.
Proof.
  unfold apply_file_edit. rewrite resolved.
  by rewrite (read_text_exists _ _ _ readable), readable.
Qed.

(** C4.  An empty [search_block] against a non-empty file is found by
    strategy A between all characters, [len + 1 > 1] times: the call
    returns the ambiguous-match failure as an ordinary result, and the
    files are left as they were. *)
Theorem empty_search_block_is_ambiguous (replace_block : json) :
  original_content ≠ [] →
  count original_content [] = length original_content + 1
  ∧ 1 < count original_content []
  ∧ apply_file_edit workspace_path path (JStr []) replace_block fs
    = (Return (Failure AmbiguousExact), fs).
Proof.
  intros Hne.
  assert (1 < count original_content []) as Hcount.
  { rewrite count_nil. apply length_pos in Hne. lia. }
  split; [done|]. split; [done|].
  rewrite apply_file_edit_decided. unfold edit_text, exact_match.
  rewrite contains_nil. by apply Nat.ltb_lt in Hcount as ->.
Qed.

(** C2 (amended).  When [search_block] has more than one occurrence as
    [str.count] counts them (from the left, not overlapping), strategy A
    itself decides the call: it fails with the ambiguous-exact-match
    error, nothing is written, and strategy B is not consulted. *)
Theorem ambiguous_exact_match_fails (search_block : text) (replace_block : json) :
  1 < count original_content search_block →
  exact_match original_content (JStr search_block) replace_block
    = Return (Some (Reject AmbiguousExact))
  ∧ apply_file_edit workspace_path path (JStr search_block) replace_block fs
    = (Return (Failure AmbiguousExact), fs).
Proof.
  intros Hcount.
  assert (exact_match original_content (JStr search_block) replace_block
          = Return (Some (Reject AmbiguousExact))) as Hexact.
  { unfold exact_match. rewrite count_contains by lia.
    by apply Nat.ltb_lt in Hcount as ->. }
  split; [done|].
  rewrite apply_file_edit_decided. unfold edit_text. by rewrite Hexact.
Qed.
End Edit.

(** The empty block against the file ["foo"]. *)
Lemma empty_search_block_is_ambiguous_witness :
  _resolve_and_check_path (Some (py "/ws")) (one_file (py "foo")) (JStr (py "f.txt"))
    = Return (py "/ws/f.txt", None)
  ∧ read_text (one_file (py "foo")) (py "/ws/f.txt") = Return (py "foo")
  ∧ py "foo" ≠ []
  ∧ count (py "foo") [] = length (py "foo") + 1
  ∧ 1 < count (py "foo") []
  ∧ apply_file_edit (Some (py "/ws")) (JStr (py "f.txt")) (JStr []) (JStr (py "x"))
      (one_file (py "foo"))
    = (Return (Failure AmbiguousExact), one_file (py "foo")).
Proof.
  assert (_resolve_and_check_path (Some (py "/ws")) (one_file (py "foo")) (JStr (py "f.txt"))
          = Return (py "/ws/f.txt", None)) as H1 by (vm_compute; reflexivity).
  assert (read_text (one_file (py "foo")) (py "/ws/f.txt") = Return (py "foo")) as H2
    by (vm_compute; reflexivity).
  assert (py "foo" ≠ []) as H3 by discriminate.
  repeat split; try assumption;
    apply (empty_search_block_is_ambiguous _ _ _ _ _ H1 H2 (JStr (py "x")) H3).
Defined.

(** On [bar_twice], strategy B alone would place the edit of [bar]: the
    block matches one line once white space is ignored.  Strategy A counts
    two occurrences and refuses. *)
Lemma ambiguous_exact_match_fails_witness :
  _resolve_and_check_path (Some (py "/ws")) (one_file bar_twice) (JStr (py "f.txt"))
    = Return (py "/ws/f.txt", None)
  ∧ read_text (one_file bar_twice) (py "/ws/f.txt") = Return bar_twice
  ∧ 1 < count bar_twice (py "bar")
  ∧ fuzzy_match bar_twice (py "bar") (JStr (py "B")) = Return (Rewrite (py "bar x
B") EditedFuzzy)
  ∧ exact_match bar_twice (JStr (py "bar")) (JStr (py "B"))
    = Return (Some (Reject AmbiguousExact))
  ∧ apply_file_edit (Some (py "/ws")) (JStr (py "f.txt")) (JStr (py "bar")) (JStr (py "B"))
      (one_file bar_twice)
    = (Return (Failure AmbiguousExact), one_file bar_twice).
Proof.
  assert (_resolve_and_check_path (Some (py "/ws")) (one_file bar_twice) (JStr (py "f.txt"))
          = Return (py "/ws/f.txt", None)) as H1 by (vm_compute; reflexivity).
  assert (read_text (one_file bar_twice) (py "/ws/f.txt") = Return bar_twice) as H2
    by (vm_compute; reflexivity).
  assert (1 < count bar_twice (py "bar")) as H3 by (vm_compute; lia).
  split; [exact H1|]. split; [exact H2|]. split; [exact H3|].
  split; [vm_compute; reflexivity|].
  exact (ambiguous_exact_match_fails _ _ _ _ _ H1 H2 (py "bar") (JStr (py "B")) H3).
Defined.

(** C2, as stated, fails: in ["aaa"] the block ["aa"] occurs at offsets 0
    and 1, yet [str.count] finds one occurrence and the edit is applied. *)
Lemma overlapping_occurrences_are_edited :
  occurs_at (py "aa") (py "aaa") 0
  ∧ occurs_at (py "aa") (py "aaa") 1
  ∧ ∃ fs', apply_file_edit (Some (py "/ws")) (JStr (py "f.txt")) (JStr (py "aa"))
             (JStr (py "b")) (one_file (py "aaa"))
           = (Return (Success EditedExact), fs')
           ∧ fs' !! py "/ws/f.txt" = Some (File (Some (py "ba"))).
Proof.
  split; [|split].
  - split; [vm_compute; lia|]. by exists (py "a").
  - split; [vm_compute; lia|]. by exists [].
  - eexists. split; vm_compute; reflexivity.
Qed.

(** The sample edits of the design document. *)
Example exact_replace :
  edit_text (py "foo
bar
baz") (JStr (py "bar")) (JStr (py "BAR")) = Return (Rewrite (py "foo
BAR
baz") EditedExact).
Proof. vm_compute. reflexivity. Qed.

Example fuzzy_whitespace_tolerance :
  edit_text [TAB; 98; 97; 114; SPACE; SPACE]%N (JStr (py "bar   ")) (JStr (py "X"))
  = Return (Rewrite [TAB; 88]%N EditedFuzzy).
Proof. vm_compute. reflexivity. Qed.

Example indentation_inheritance :
  edit_text (py "    bar") (JStr (py "bar ")) (JStr (py "bar2"))
  = Return (Rewrite (py "    bar2") EditedFuzzy).
Proof. vm_compute. reflexivity. Qed.

Example fuzzy_ambiguity :
  edit_text (py "  bar
bar  ") (JStr (py " bar ")) (JStr (py "X")) = Return (Reject (AmbiguousFuzzy 2)).
Proof. vm_compute. reflexivity. Qed.

(** *** Strategy B *)

Lemma scan_in_range (stripped_file_lines stripped_search_lines : list text) (i : nat) :
  stripped_search_lines ≠ [] →
  i ∈ scan stripped_file_lines stripped_search_lines →
  i < length stripped_file_lines.
Proof.
  intros Hne Hin. apply length_pos in Hne.
  unfold scan in Hin. apply list_elem_of_filter in Hin as [_ Hin].
  apply elem_of_seq in Hin. lia.
Qed.

Section Fuzzy.
Variables original_content search_block replace_block : text.
Variable start_index : nat.

Let file_lines := splitlines original_content.
Let n_search := length (splitlines search_block).
Let before := take start_index file_lines.
Let after := drop (start_index + n_search) file_lines.

Hypothesis not_exact : contains search_block original_content = false.
Hypothesis unique :
  scan (map strip file_lines) (map strip (splitlines search_block)) = [start_index].

Lemma search_lines_nonempty : splitlines search_block ≠ [].
Proof.
  apply splitlines_nonempty. intros ->. by rewrite contains_nil in not_exact.
Qed.

Lemma matched_line_exists : is_Some (file_lines !! start_index).
Proof.
  apply lookup_lt_is_Some.
  rewrite <- (length_map strip file_lines).
  apply (scan_in_range _ (map strip (splitlines search_block))).
  - intros H. apply map_eq_nil in H. by apply search_lines_nonempty.
  - rewrite unique. apply list_elem_of_singleton. done.
Qed.

(** A unique fuzzy match: the file is reconstructed around the corrected
    replacement. *)
Lemma unique_fuzzy_match (matched_line : text) :
  file_lines !! start_index = Some matched_line →
  edit_text original_content (JStr search_block) (JStr replace_block)
  = Return (Rewrite (reconstruct file_lines start_index (start_index + n_search)
                       (corrected (indent_of matched_line) replace_block))
                    EditedFuzzy).
Proof.
  intros Hline. unfold edit_text, exact_match. rewrite not_exact.
  unfold fuzzy_match. fold file_lines. rewrite unique, Hline.
  rewrite bool_decide_eq_false_2; [by rewrite length_map|].
  rewrite length_map. pose proof search_lines_nonempty as Hne.
  apply length_pos in Hne. lia.
Qed.

(** The file the edit is applied to. *)
Variable workspace_path : option text.
Variables (fs fs_opened : store) (path : json) (full_path : text).
Hypothesis resolved :
  _resolve_and_check_path workspace_path fs path = Return (full_path, None).
Hypothesis readable : read_text fs full_path = Return original_content.
Hypothesis writable : open_w fs full_path = Return fs_opened.

Lemma unique_fuzzy_match_written (matched_line : text) :
  file_lines !! start_index = Some matched_line →
  apply_file_edit workspace_path path (JStr search_block) (JStr replace_block) fs
  = (Return (Success EditedFuzzy),
     write_text fs_opened full_path
       (reconstruct file_lines start_index (start_index + n_search)
          (corrected (indent_of matched_line) replace_block))).
Proof.
  intros Hline.
  rewrite (apply_file_edit_decided _ _ _ _ _ resolved readable).
  by rewrite (unique_fuzzy_match _ Hline), writable.
Qed.


Lemma no_linebreak_last (l : text) :
  Forall (λ c, is_linebreak c = false) l → last l ≠ Some LF.
Proof.
  intros Hl Hlast. apply last_Some_elem_of in Hlast.
  by rewrite Forall_forall in Hl; apply Hl in Hlast.
Qed.

Lemma corrected_last (current_indent : text) :
  Forall (λ c, is_linebreak c = false) current_indent →
  replace_block ≠ [] →
  endswith replace_block [LF] = false →
  ∃ c, last (corrected current_indent replace_block) = Some c ∧ c ≠ LF.
Proof.
  intros Hindent Hne Hend.
  assert (∃ c, last replace_block = Some c ∧ c ≠ LF) as Hplain.
  { destruct (last replace_block) as [c|] eqn:Hlast.
    - exists c. split; [done|]. intros ->.
      apply endswith_last in Hlast. congruence.
    - by apply last_None in Hlast. }
  unfold corrected.
  destruct (splitlines replace_block) as [|first rest] eqn:Hsplit; [done|].
  destruct current_indent as [|c ind] eqn:Hci; [done|]. rewrite <- Hci in *.
  destruct (_ && _); [|done].
  pose proof (splitlines_no_linebreak replace_block) as Hlines.
  rewrite Hsplit in Hlines.
  destruct (last (first :: rest)) as [l|] eqn:Hl; [|by apply last_None in Hl].
  assert (current_indent ++ l ≠ []) as Hne' by (rewrite Hci; done).
  rewrite (last_join _ _ (current_indent ++ l));
    [|rewrite last_map; exact (f_equal (fmap _) Hl)|done].
  assert (Forall (λ c, is_linebreak c = false) (current_indent ++ l)) as Hall.
  { apply Forall_app. split; [done|].
    apply last_Some_elem_of in Hl. by rewrite Forall_forall in Hlines; apply Hlines. }
  destruct (last (current_indent ++ l)) as [d|] eqn:Hd; [|by apply last_None in Hd].
  exists d. split; [done|]. intros ->. by eapply no_linebreak_last.
Qed.

(** C9 (amended).  For a file whose content ends with a newline that
    closes a non-blank last line, a strategy-B edit whose [replace_block]
    is not empty, is text that UTF-8 encodes and does not end with a
    newline succeeds and leaves the file without a final newline. *)
Theorem fuzzy_match_drops_final_newline :
  endswith original_content [LF] = true →
  (∀ l, last file_lines = Some l → l ≠ []) →
  replace_block ≠ [] →
  encodable replace_block →
  endswith replace_block [LF] = false →
  ∃ final_content,
    apply_file_edit workspace_path path (JStr search_block) (JStr replace_block) fs
    = (Return (Success EditedFuzzy), write_text fs_opened full_path final_content)
    ∧ endswith final_content [LF] = false.
Proof.
  intros _ Hlastline Hne _ Hend.
  destruct matched_line_exists as [matched_line Hline].
  eexists. split; [by apply unique_fuzzy_match_written|].
  apply not_true_is_false. rewrite endswith_last.
  pose proof (splitlines_no_linebreak original_content) as Hlines.
  fold file_lines in Hlines.
  assert (Forall (λ c, is_linebreak c = false) (indent_of matched_line)) as Hindent.
  { unfold indent_of. apply Forall_take.
    apply list_elem_of_lookup_2 in Hline.
    by rewrite Forall_forall in Hlines; apply Hlines. }
  destruct (corrected_last _ Hindent Hne Hend) as (c & Hc & HcLF).
  unfold reconstruct. fold after.
  destruct (bool_decide (join [LF] after ≠ [])) eqn:Hpost.
  - apply bool_decide_eq_true in Hpost.
    destruct (last after) as [l|] eqn:Hl;
      [|apply last_None in Hl; by rewrite Hl in Hpost].
    assert (last file_lines = Some l) as Hl'.
    { unfold after in Hl. rewrite <- (take_drop (start_index + n_search) file_lines).
      by rewrite last_app, Hl. }
    assert (l ≠ []) as Hlne by by apply Hlastline.
    pose proof (last_join [LF] _ l Hl Hlne) as Hjoin.
    destruct (last l) as [d|] eqn:Hd; [|by apply last_None in Hd].
    rewrite !last_app, Hjoin.
    intros [= ->]. eapply (no_linebreak_last l); [|done].
    apply last_Some_elem_of in Hl'.
    by rewrite Forall_forall in Hlines; apply Hlines.
  - rewrite app_nil_r, last_app, Hc. congruence.
Qed.
End Fuzzy.



(** A file of two lines, closed by a newline, loses it. *)
Lemma fuzzy_match_drops_final_newline_witness :
  contains (py "bar ") (py "  bar
x
") = false
  ∧ scan (map strip (splitlines (py "  bar
x
"))) (map strip (splitlines (py "bar "))) = [0]
  ∧ _resolve_and_check_path (Some (py "/ws")) (one_file (py "  bar
x
")) (JStr (py "f.txt")) = Return (py "/ws/f.txt", None)
  ∧ read_text (one_file (py "  bar
x
")) (py "/ws/f.txt") = Return (py "  bar
x
")
  ∧ open_w (one_file (py "  bar
x
")) (py "/ws/f.txt") = Return (one_file [])
  ∧ endswith (py "  bar
x
") [LF] = true
  ∧ (∀ l, last (splitlines (py "  bar
x
")) = Some l → l ≠ [])
  ∧ py "Y" ≠ []
  ∧ encodable (py "Y")
  ∧ endswith (py "Y") [LF] = false
  ∧ ∃ final_content,
      apply_file_edit (Some (py "/ws")) (JStr (py "f.txt")) (JStr (py "bar ")) (JStr (py "Y"))
        (one_file (py "  bar
x
"))
      = (Return (Success EditedFuzzy), write_text (one_file []) (py "/ws/f.txt") final_content)
      ∧ endswith final_content [LF] = false.
Proof.
  assert (∀ l, last (splitlines (py "  bar
x
")) = Some l → l ≠ []) as H7 by (intros l [= <-]; discriminate).
  assert (encodable (py "Y")) as H8 by (repeat constructor; left; reflexivity).
  repeat (split; [first [exact H7 | exact H8 | vm_compute; reflexivity | discriminate]|]).
  apply (fuzzy_match_drops_final_newline (py "  bar
x
") (py "bar ") (py "Y") 0);
    first [exact H7 | exact H8 | vm_compute; reflexivity | discriminate].
Defined.

(** C9, as stated, fails for a file that ends with a blank line: the
    newline before the blank line survives the rejoining. *)
Lemma blank_last_line_keeps_a_final_newline :
  endswith blank_last_line [LF] = true
  ∧ endswith (py "Y") [LF] = false
  ∧ contains (py "bar ") blank_last_line = false
  ∧ ∃ fs', apply_file_edit (Some (py "/ws")) (JStr (py "f.txt")) (JStr (py "bar "))
             (JStr (py "Y")) (one_file blank_last_line)
           = (Return (Success EditedFuzzy), fs')
           ∧ fs' !! py "/ws/f.txt" = Some (File (Some (py "  Y
x
")))
           ∧ endswith (py "  Y
x
") [LF] = true.
Proof.
  repeat split; try (vm_compute; reflexivity).
  eexists. repeat split; vm_compute; reflexivity.
Qed.
End PatchEngine.

(** ** Path resolution within the workspace *)

Module PathSandbox.
Import PyStr OS WorkspaceManager PyStrFacts Spec Samples.

#[export] Instance proper_dec (c : text) : Decision (proper c).
Proof. unfold proper. apply _. Defined.

Ltac proper_names :=
  repeat constructor; apply (bool_decide_unpack _); vm_compute; exact I.

Lemma resolve_nil (fs : store) (fuel : nat) (stack : list text) :
  resolve fs fuel stack [] = stack.
Proof. by destruct fuel. Qed.

Lemma resolve_cons (fs : store) (fuel : nat) (stack rest : list text) (name : text) :
  resolve fs fuel stack (name :: rest) =
  if bool_decide (name = []) || bool_decide (name = [DOT]) then resolve fs fuel stack rest
  else if bool_decide (name = [DOT; DOT]) then resolve fs fuel (removelast stack) rest
  else match fs !! render (stack ++ [name]), fuel with
       | Some (Link target), S fuel' =>
           resolve fs fuel'
             (if startswith target [SLASH] then [] else stack)
             (split_slash target ++ rest)
       | _, _ => resolve fs fuel (stack ++ [name]) rest
       end.
Proof. by destruct fuel. Qed.

Lemma resolve_skip (fs : store) (fuel : nat) (stack rest : list text) :
  resolve fs fuel stack ([] :: rest) = resolve fs fuel stack rest.
Proof. by rewrite resolve_cons. Qed.

Lemma resolve_up (fs : store) (fuel : nat) (stack rest : list text) :
  resolve fs fuel stack ([DOT; DOT] :: rest) = resolve fs fuel (removelast stack) rest.
Proof. by rewrite resolve_cons. Qed.

Section NoLinks.
Variable fs : store.
Hypothesis plain : no_links fs.

Lemma resolve_push (fuel : nat) (stack rest : list text) (name : text) :
  proper name →
  resolve fs fuel stack (name :: rest) = resolve fs fuel (stack ++ [name]) rest.
Proof.
  intros (H1 & H2 & H3 & _). rewrite resolve_cons.
  rewrite !bool_decide_eq_false_2 by done. simpl.
  destruct (fs !! render (stack ++ [name])) as [[| |target]|] eqn:E; try done.
  by apply plain in E.
Qed.

Lemma resolve_proper (fuel : nat) (stack names rest : list text) :
  Forall proper names →
  resolve fs fuel stack (names ++ rest) = resolve fs fuel (stack ++ names) rest.
Proof.
  intros Hnames. revert stack.
  induction Hnames as [|name names Hname _ IH]; intros stack; simpl.
  - by rewrite app_nil_r.
  - rewrite resolve_push by done. rewrite IH. by rewrite <- app_assoc.
Qed.

Lemma Forall_removelast {A} (P : A → Prop) (l : list A) :
  Forall P l → Forall P (removelast l).
Proof.
  induction 1 as [|x l Hx Hl IH]; [constructor|]. simpl.
  destruct l; [constructor|]. by constructor.
Qed.

(** Without links the resolved stack holds proper components only. *)
Lemma resolve_is_proper (fuel : nat) (stack rest : list text) :
  Forall proper stack →
  Forall (λ c, SLASH ∉ c) rest →
  Forall proper (resolve fs fuel stack rest).
Proof.
  intros Hstack Hrest. revert stack Hstack.
  induction Hrest as [|name rest Hname _ IH]; intros stack Hstack.
  - by rewrite resolve_nil.
  - rewrite resolve_cons.
    destruct (bool_decide (name = [])) eqn:E1; simpl; [by apply IH|].
    destruct (bool_decide (name = [DOT])) eqn:E2; simpl; [by apply IH|].
    destruct (bool_decide (name = [DOT; DOT])) eqn:E3.
    { apply IH. by apply Forall_removelast. }
    apply bool_decide_eq_false in E1, E2, E3.
    assert (Forall proper (stack ++ [name])) as Hpush.
    { apply Forall_app. split; [done|]. by repeat constructor. }
    destruct (fs !! render (stack ++ [name])) as [[| |target]|] eqn:E;
      try by apply IH.
    by apply plain in E.
Qed.
End NoLinks.

Lemma split_slash_no_slash (p : text) : Forall (λ c, SLASH ∉ c) (split_slash p).
Proof.
  induction p as [|c p IH]; cbn [split_slash].
  - repeat constructor. by intros ?%elem_of_nil.
  - destruct (N.eqb_spec c SLASH) as [->|Hc].
    + constructor; [by intros ?%elem_of_nil|done].
    + destruct (split_slash p) as [|l ls]; inversion IH; subst.
      * repeat constructor. intros Heq%list_elem_of_singleton. congruence.
      * constructor; [|done]. intros [Heq|?]%elem_of_cons; [congruence|done].
  Qed.

Lemma split_slash_nonempty (p : text) : split_slash p ≠ [].
Proof.
  destruct p as [|c p]; [done|]. cbn [split_slash].
  destruct (c =? SLASH)%N; [done|]. by destruct (split_slash p).
Qed.

Lemma split_slash_app (a b : text) :
  split_slash (a ++ SLASH :: b) = split_slash a ++ split_slash b.
Proof.
  induction a as [|c a IH]; [done|]. cbn [split_slash app].
  destruct (c =? SLASH)%N; [rewrite IH; reflexivity|].
  rewrite IH. pose proof (split_slash_nonempty a).
  destruct (split_slash a); [done|reflexivity].
Qed.

Lemma split_slash_name (c : text) : SLASH ∉ c → split_slash c = [c].
Proof.
  induction c as [|x c IH]; [done|]. intros Hx. cbn [split_slash].
  apply not_elem_of_cons in Hx as [Hx Hc].
  destruct (N.eqb_spec x SLASH) as [->|_]; [done|]. by rewrite IH.
Qed.

Lemma join_cons (sep p : text) (ps : list text) :
  ps ≠ [] → join sep (p :: ps) = p ++ sep ++ join sep ps.
Proof. by destruct ps. Qed.

Lemma join_app (sep : text) (ps qs : list text) :
  ps ≠ [] → qs ≠ [] → join sep (ps ++ qs) = join sep ps ++ sep ++ join sep qs.
Proof.
  intros Hps Hqs. induction ps as [|p ps IH]; [done|].
  destruct ps as [|p' ps].
  - simpl app. by rewrite join_cons.
  - change ((p :: p' :: ps) ++ qs) with (p :: (p' :: ps) ++ qs).
    rewrite !join_cons by done. rewrite IH by done. by rewrite <- !app_assoc.
Qed.

Lemma split_slash_join (cs : list text) :
  cs ≠ [] → Forall (λ c, SLASH ∉ c) cs → split_slash (join [SLASH] cs) = cs.
Proof.
  intros Hne Hcs. induction Hcs as [|c cs Hc Hcs IH]; [done|].
  destruct cs as [|c' cs]; [by apply split_slash_name|].
  rewrite join_cons by done.
  change (c ++ [SLASH] ++ join [SLASH] (c' :: cs))
    with (c ++ SLASH :: join [SLASH] (c' :: cs)).
  rewrite split_slash_app, split_slash_name by done. by rewrite IH.
Qed.

Lemma proper_no_slash (cs : list text) : Forall proper cs → Forall (λ c, SLASH ∉ c) cs.
Proof. intros H. eapply Forall_impl; [exact H|]. by intros c (_ & _ & _ & ?). Qed.

(** The components of a rendered path and of what is joined to it. *)
Lemma split_slash_path_join (cs : list text) (b : text) :
  Forall proper cs →
  startswith b [SLASH] = false →
  split_slash (path_join (render cs) b) = [] :: cs ++ split_slash b.
Proof.
  intros Hcs Hb. unfold path_join. rewrite Hb. unfold render.
  rewrite bool_decide_eq_false_2 by done. simpl orb.
  destruct cs as [|c cs] using rev_ind.
  - by vm_compute endswith.
  - clear IHcs.
    assert (endswith (SLASH :: join [SLASH] (cs ++ [c])) [SLASH] = false) as ->.
    { apply not_true_is_false. rewrite endswith_last.
      apply Forall_app in Hcs as [_ Hc]. inversion Hc as [|? ? (Hne & _ & _ & Hs) _]; subst.
      rewrite last_cons, (last_join _ _ c); [|by rewrite last_snoc|done].
      destruct (last c) as [d|] eqn:Hd; [|by apply last_None in Hd].
      intros [= ->]. by apply last_Some_elem_of in Hd. }
    change ((SLASH :: join [SLASH] (cs ++ [c])) ++ [SLASH] ++ b)
      with ([] ++ SLASH :: (join [SLASH] (cs ++ [c]) ++ SLASH :: b)).
    rewrite !split_slash_app. simpl.
    rewrite split_slash_join; [done|by destruct cs|by apply proper_no_slash].
Qed.

Lemma render_prefix (cs rest : list text) : render cs `prefix_of` render (cs ++ rest).
Proof.
  unfold render. apply prefix_cons.
  destruct cs as [|c cs]; [apply prefix_nil|].
  destruct rest as [|r rest]; [by rewrite app_nil_r|].
  rewrite join_app by done. by eexists.
Qed.

Section Workspace.
Variable wp : text.
Hypothesis workspace_set : wp ≠ [].

Lemma resolve_and_check (fs : store) (p : text) :
  _resolve_and_check_path (Some wp) fs (JStr p) =
  let workspace_root := realpath fs wp in
  let full_path := realpath fs (path_join workspace_root p) in
  if startswith full_path workspace_root then Return (full_path, None)
  else Return ([], Some (SecurityError p)).
Proof.
  unfold _resolve_and_check_path. destruct wp; [done|].
  cbn zeta. by destruct (startswith _ _).
Qed.

(** Without links the workspace root is a rendered list of proper
    components, and a relative path is walked from there. *)
Lemma realpath_root (fs : store) :
  no_links fs →
  ∃ cs, Forall proper cs ∧ realpath fs wp = render cs
        ∧ ∀ b, startswith b [SLASH] = false →
               realpath fs (path_join (render cs) b)
               = render (resolve fs MAXSYMLINKS cs (split_slash b)).
Proof.
  intros Hplain. exists (resolve fs MAXSYMLINKS [] (split_slash wp)).
  assert (Forall proper (resolve fs MAXSYMLINKS [] (split_slash wp))) as Hcs.
  { apply resolve_is_proper; [done|constructor|apply split_slash_no_slash]. }
  split; [done|]. split; [done|]. intros b Hb. unfold realpath at 1.
  rewrite split_slash_path_join by done.
  by rewrite resolve_skip, (resolve_proper fs Hplain).
Qed.

(** A path whose canonical form does not start with the
    canonical workspace root is refused with the escape error by
    [_resolve_and_check_path], and every file operation returns that
    failure without touching the files.  On a store without symbolic
    links ["../../etc/passwd"] denotes [etc/passwd] two levels above the
    root and is refused unless the root is a prefix of that path, and
    ["sub/dir/../file.txt"] is accepted and denotes [<root>/sub/file.txt].
    (Paths outside the root whose canonical form continues the root's own
    characters are not covered.) *)
Theorem escaping_path_is_refused :
  (∀ fs p,
     startswith (realpath fs (path_join (realpath fs wp) p)) (realpath fs wp) = false →
     _resolve_and_check_path (Some wp) fs (JStr p) = Return ([], Some (SecurityError p))
     ∧ list_files (Some wp) (JStr p) fs = (Return (Failure (SecurityError p)), fs)
     ∧ read_file (Some wp) (JStr p) fs = (Return (Failure (SecurityError p)), fs)
     ∧ (∀ content,
          write_file (Some wp) (JStr p) content fs
          = (Return (Failure (SecurityError p)), fs))
     ∧ create_directory (Some wp) (JStr p) fs = (Return (Failure (SecurityError p)), fs)
     ∧ delete_file (Some wp) (JStr p) fs = (Return (Failure (SecurityError p)), fs)
     ∧ (∀ search_block replace_block,
          apply_file_edit (Some wp) (JStr p) search_block replace_block fs
          = (Return (Failure (SecurityError p)), fs)))
  ∧ (∀ fs, no_links fs →
       ∃ cs, realpath fs wp = render cs
             ∧ realpath fs (path_join (render cs) (py "../../etc/passwd"))
               = render (removelast (removelast cs) ++ [py "etc"; py "passwd"])
             ∧ (startswith (render (removelast (removelast cs) ++ [py "etc"; py "passwd"]))
                  (render cs) = false →
                _resolve_and_check_path (Some wp) fs (JStr (py "../../etc/passwd"))
                = Return ([], Some (SecurityError (py "../../etc/passwd")))))
  ∧ (∀ fs, no_links fs →
       _resolve_and_check_path (Some wp) fs (JStr (py "sub/dir/../file.txt"))
       = Return (path_join (realpath fs wp) (py "sub/file.txt"), None)).
Proof.
  split; [|split].
  - intros fs p Hout.
    assert (_resolve_and_check_path (Some wp) fs (JStr p)
            = Return ([], Some (SecurityError p))) as Hres.
    { rewrite resolve_and_check. cbn zeta. by rewrite Hout. }
    unfold list_files, read_file, write_file, create_directory, delete_file,
      apply_file_edit. by rewrite Hres.
  - intros fs Hplain.
    destruct (realpath_root fs Hplain) as (cs & Hcs & Hroot & Hwalk).
    exists cs. split; [done|].
    assert (realpath fs (path_join (render cs) (py "../../etc/passwd"))
            = render (removelast (removelast cs) ++ [py "etc"; py "passwd"])) as Htarget.
    { rewrite Hwalk by done.
      change (split_slash (py "../../etc/passwd"))
        with [[DOT; DOT]; [DOT; DOT]; py "etc"; py "passwd"].
      rewrite !resolve_up.
      rewrite (resolve_proper fs Hplain _ _ [py "etc"; py "passwd"] []).
      + by rewrite resolve_nil.
      + proper_names. }
    split; [done|]. intros Hout.
    rewrite resolve_and_check. cbn zeta. by rewrite Hroot, Htarget, Hout.
  - intros fs Hplain.
    destruct (realpath_root fs Hplain) as (cs & Hcs & Hroot & Hwalk).
    assert (realpath fs (path_join (render cs) (py "sub/dir/../file.txt"))
            = render (cs ++ [py "sub"; py "file.txt"])) as Htarget.
    { rewrite Hwalk by done.
      change (split_slash (py "sub/dir/../file.txt"))
        with ([py "sub"; py "dir"] ++ [[DOT; DOT]; py "file.txt"]).
      rewrite (resolve_proper fs Hplain);
        [|proper_names].
      rewrite resolve_up.
      replace (removelast (cs ++ [py "sub"; py "dir"])) with (cs ++ [py "sub"])
        by (change [py "sub"; py "dir"] with ([py "sub"] ++ [py "dir"]);
            by rewrite app_assoc, removelast_last).
      rewrite (resolve_proper fs Hplain _ _ [py "file.txt"] []);
        [|proper_names].
      by rewrite resolve_nil, <- app_assoc. }
    rewrite resolve_and_check. cbn zeta. rewrite Hroot, Htarget.
    rewrite (proj2 (startswith_prefix _ _) (render_prefix cs _)).
    do 2 f_equal.
    unfold path_join. change (startswith (py "sub/file.txt") [SLASH]) with false.
    cbn iota. unfold render.
    rewrite bool_decide_eq_false_2 by done. simpl orb.
    destruct cs as [|c cs] using rev_ind; [reflexivity|]. clear IHcs.
    assert (endswith (SLASH :: join [SLASH] (cs ++ [c])) [SLASH] = false) as ->.
    { apply not_true_is_false. rewrite endswith_last.
      apply Forall_app in Hcs as [_ Hc].
      inversion Hc as [|? ? (Hne & _ & _ & Hs) _]; subst.
      rewrite last_cons, (last_join _ _ c); [|by rewrite last_snoc|done].
      destruct (last c) as [d|] eqn:Hd; [|by apply last_None in Hd].
      intros [= ->]. by apply last_Some_elem_of in Hd. }
    rewrite join_app by (try done; by destruct cs).
    reflexivity.
Qed.
End Workspace.

Lemma no_links_checked (fs : store) :
  map_Forall (λ _ n, link_free n = true) fs → no_links fs.
Proof. intros Hall p target Hp. by apply Hall in Hp. Qed.

Ltac link_free_store :=
  apply no_links_checked; apply (bool_decide_unpack _); vm_compute; exact I.

(** From [/home/ws], ["../../etc/passwd"] is refused and
    ["sub/dir/../file.txt"] is [/home/ws/sub/file.txt]. *)
Lemma escaping_path_is_refused_witness :
  py "/home/ws" ≠ []
  ∧ startswith
      (realpath machine (path_join (realpath machine (py "/home/ws")) (py "../../etc/passwd")))
      (realpath machine (py "/home/ws")) = false
  ∧ no_links machine
  ∧ _resolve_and_check_path (Some (py "/home/ws")) machine (JStr (py "../../etc/passwd"))
    = Return ([], Some (SecurityError (py "../../etc/passwd")))
  ∧ read_file (Some (py "/home/ws")) (JStr (py "../../etc/passwd")) machine
    = (Return (Failure (SecurityError (py "../../etc/passwd"))), machine)
  ∧ _resolve_and_check_path (Some (py "/home/ws")) machine (JStr (py "sub/dir/../file.txt"))
    = Return (py "/home/ws/sub/file.txt", None).
Proof.
  assert (py "/home/ws" ≠ []) as H0 by discriminate.
  assert (startswith
            (realpath machine
               (path_join (realpath machine (py "/home/ws")) (py "../../etc/passwd")))
            (realpath machine (py "/home/ws")) = false) as H1 by (vm_compute; reflexivity).
  assert (no_links machine) as H2 by link_free_store.
  destruct (escaping_path_is_refused (py "/home/ws") H0) as (Hout & _ & Hsub).
  destruct (Hout machine (py "../../etc/passwd") H1) as (Hres & _ & Hread & _).
  repeat (split; [assumption|]).
  rewrite (Hsub machine H2). vm_compute. reflexivity.
Defined.

(** The two sample paths of the design document depend on the root and on
    links.  From the workspace root [/etc] the path ["../../etc/passwd"] lies
    inside the root and is accepted; and where [sub/dir] is a symbolic link,
    ["sub/dir/../file.txt"] denotes a file next to the link's target, not
    [<root>/sub/file.txt]. *)
Lemma resolution_depends_on_root_and_links :
  _resolve_and_check_path (Some (py "/etc")) machine (JStr (py "../../etc/passwd"))
    = Return (py "/etc/passwd", None)
  ∧ _resolve_and_check_path (Some (py "/home/ws")) linked (JStr (py "sub/dir/../file.txt"))
    = Return (py "/home/ws/other/file.txt", None)
  ∧ py "/home/ws/other/file.txt" ≠ py "/home/ws/sub/file.txt".
Proof. repeat split; try (vm_compute; reflexivity). discriminate. Qed.

(** C1.  The code falls short of the claim: the test
    [full_path.startswith(workspace_root)] compares characters, not path
    components.  The canonical form of ["../ws2/secret.txt"] from the
    workspace [/home/ws] is [/home/ws2/secret.txt], which is not below the
    root and yet starts with the root's characters: the path is resolved
    without an escape error and [read_file] returns the content of the file
    outside the workspace. *)
Example neighbour_passes_the_prefix_test :
  realpath machine (py "/home/ws") = py "/home/ws"
  ∧ realpath machine (path_join (py "/home/ws") (py "../ws2/secret.txt"))
    = py "/home/ws2/secret.txt"
  ∧ ¬ (components (py "/home/ws") `prefix_of` components (py "/home/ws2/secret.txt"))
  ∧ _resolve_and_check_path (Some (py "/home/ws")) machine (JStr (py "../ws2/secret.txt"))
    = Return (py "/home/ws2/secret.txt", None)
  ∧ read_file (Some (py "/home/ws")) (JStr (py "../ws2/secret.txt")) machine
    = (Return (Content (py "s3cret")), machine).
Proof.
  repeat split; try (vm_compute; reflexivity).
  intros [k Hk]. vm_compute in Hk. discriminate.
Qed.
End PathSandbox.

(** ** Directory listings *)

Module Listing.
Import PyStr OS WorkspaceManager PyStrFacts Spec Samples.

Lemma leb_cons (x y : char) (a b : text) :
  leb (x :: a) (y :: b) = true ↔ (x < y)%N ∨ x = y ∧ leb a b = true.
Proof.
  cbn [leb]. rewrite orb_true_iff, andb_true_iff, N.ltb_lt, N.eqb_eq. tauto.
Qed.

#[export] Instance le_total : Total le.
Proof.
  intros a. unfold le. induction a as [|x a IH]; intros [|y b]; try by left.
  - by right.
  - rewrite !leb_cons. destruct (IH b) as [H|H]; destruct (N.lt_trichotomy x y) as [?|[?|?]];
      intuition.
Qed.

#[export] Instance le_trans : Transitive le.
Proof.
  intros a. unfold le. induction a as [|x a IH]; intros [|y b] [|z c]; try done.
  rewrite !leb_cons. intros [?|[-> ?]] [?|[-> ?]]; [left; lia|by left|by left|].
  right. split; [done|]. by eapply IH.
Qed.

Lemma StronglySorted_filter {A} (R : relation A) (P : A → Prop)
    `{!∀ x, Decision (P x)} (l : list A) :
  StronglySorted R l → StronglySorted R (filter P l).
Proof.
  induction 1 as [|x l Hl IH Hx]; [constructor|].
  rewrite filter_cons. case_decide; [|done].
  constructor; [done|]. apply Forall_forall. intros y [_ Hy]%list_elem_of_filter.
  by rewrite Forall_forall in Hx; apply Hx.
Qed.

(** The loop over the sorted entries skips the hidden ones and decorates
    the others. *)
Lemma listing_loop (decorate : text → text) (entries : list text) :
  flat_map (λ entry, if startswith entry [DOT] then [] else [decorate entry]) entries
  = map decorate (filter (λ entry, startswith entry [DOT] = false) entries).
Proof.
  induction entries as [|e entries IH]; [done|]. cbn [flat_map]. rewrite filter_cons.
  destruct (startswith e [DOT]) eqn:He.
  - rewrite decide_False by done. exact IH.
  - rewrite decide_True by done. simpl. by rewrite IH.
Qed.

(** C10 (amended).  A successful [list_files] leaves the files alone and
    returns, for the names in the directory that do not begin with ['.'],
    taken in sorted order, the name itself or, for a directory, the name
    followed by ['/'].  The order is that of the names: the suffix is added
    after sorting. *)
Theorem list_files_lists (workspace_path : option text) (path : json)
    (fs fs' : store) (files : list text) :
  list_files workspace_path path fs = (Return (Files files), fs') →
  fs' = fs
  ∧ Forall (λ entry, startswith entry [DOT] = false) files
  ∧ ∃ full_path all names,
      _resolve_and_check_path workspace_path fs path = Return (full_path, None)
      ∧ listdir fs full_path = Return all
      ∧ names = filter (λ name, startswith name [DOT] = false) (sorted all)
      ∧ StronglySorted le names
      ∧ files = map (λ name, if path_isdir fs (path_join full_path name)
                             then name ++ [SLASH] else name) names.
Proof.
  unfold list_files.
  destruct (_resolve_and_check_path workspace_path fs path)
    as [[full_path [error|]]|e]; try done.
  destruct (negb (path_exists fs full_path)); [done|].
  destruct (listdir fs full_path) as [all|e] eqn:Hlist; [|done].
  intros [= <- <-]. split; [done|].
  set (decorate := λ name, if path_isdir fs (path_join full_path name)
                           then name ++ [SLASH] else name).
  assert (flat_map (λ entry, if startswith entry [DOT] then []
                             else if path_isdir fs (path_join full_path entry)
                                  then [entry ++ [SLASH]] else [entry]) (sorted all)
          = map decorate (filter (λ name, startswith name [DOT] = false) (sorted all)))
    as ->.
  { rewrite <- listing_loop. apply flat_map_ext. intros entry. unfold decorate.
    destruct (startswith entry [DOT]); [done|]. by destruct (path_isdir _ _). }
  split.
  - apply Forall_forall. intros entry Hin.
    apply list_elem_of_In, in_map_iff in Hin as (name & <- & Hname).
    apply list_elem_of_In, list_elem_of_filter in Hname as [Hname _].
    unfold decorate. destruct (path_isdir _ _); [|done].
    destruct name as [|c name]; [done|]. cbn [app startswith] in *.
    by destruct name.
  - exists full_path, all, (filter (λ name, startswith name [DOT] = false) (sorted all)).
    do 3 (split; [done|]). split; [|done].
    apply StronglySorted_filter, StronglySorted_merge_sort; apply _.
Qed.

(** The listing of [two_entries]: [.git] is left out, [a] is shown as [a/]. *)
Lemma list_files_lists_witness :
  list_files (Some (py "/ws")) (JStr (py ".")) two_entries
    = (Return (Files [py "a/"; py "a.txt"]), two_entries)
  ∧ Forall (λ entry, startswith entry [DOT] = false) [py "a/"; py "a.txt"]
  ∧ ∃ names, StronglySorted le names
             ∧ [py "a/"; py "a.txt"]
               = map (λ name, if path_isdir two_entries (path_join (py "/ws") name)
                              then name ++ [SLASH] else name) names.
Proof.
  assert (list_files (Some (py "/ws")) (JStr (py ".")) two_entries
          = (Return (Files [py "a/"; py "a.txt"]), two_entries)) as H
    by (vm_compute; reflexivity).
  split; [exact H|].
  destruct (list_files_lists _ _ _ _ _ H) as (_ & Hvisible & full & all & names & Hres & _ & _ & Hsorted & Hfiles).
  split; [exact Hvisible|]. exists names. split; [exact Hsorted|].
  injection Hres as <-. exact Hfiles.
Defined.

(** C10, as stated, fails: the returned entries themselves are not in
    sorted order when a directory name is a prefix of its neighbour's name,
    since ['/'] sorts after ['.']. *)
Lemma returned_entries_not_sorted :
  list_files (Some (py "/ws")) (JStr (py ".")) two_entries
    = (Return (Files [py "a/"; py "a.txt"]), two_entries)
  ∧ ¬ Sorted le [py "a/"; py "a.txt"].
Proof.
  split; [vm_compute; reflexivity|].
  intros Hsorted. inversion Hsorted as [|? ? _ Hhd]; subst.
  inversion Hhd as [|? ? Hle]; subst. vm_compute in Hle. discriminate.
Qed.
End Listing.

(** ** The tool dispatcher *)

Module Dispatcher.
Import PyStr OS WorkspaceManager ToolExecutor Spec Samples.

Lemma accepts_false (ps : list text) (arguments : gmap text json) (k : text) :
  k ∈ dom arguments → k ∉ ps → accepts ps arguments = false.
Proof.
  intros Hk Hps. apply bool_decide_eq_false. intros Hsub.
  apply Hps. apply Hsub in Hk. by apply elem_of_list_to_set in Hk.
Qed.

Lemma call1_mismatch (p1 : text) (d : option json) (f : json → store → outcome result * store)
    (arguments : gmap text json) (fs : store) :
  (∃ k, k ∈ dom arguments ∧ k ∉ [p1]) ∨ (d = None ∧ arguments !! p1 = None) →
  call1 p1 d f arguments fs = (Raise TypeError, fs).
Proof.
  unfold call1. intros [(k & Hk & Hp)|[-> Hp]].
  - by rewrite (accepts_false _ _ k).
  - rewrite Hp. by destruct (accepts _ _).
Qed.

Lemma call2_mismatch (p1 p2 : text) (f : json → json → store → outcome result * store)
    (arguments : gmap text json) (fs : store) :
  (∃ k, k ∈ dom arguments ∧ k ∉ [p1; p2])
  ∨ arguments !! p1 = None ∨ arguments !! p2 = None →
  call2 p1 p2 f arguments fs = (Raise TypeError, fs).
Proof.
  unfold call2. intros [(k & Hk & Hp)|[Hp|Hp]].
  - by rewrite (accepts_false _ _ k).
  - rewrite Hp. by destruct (accepts _ _).
  - rewrite Hp. destruct (accepts _ _); [|done]. by destruct (arguments !! p1).
Qed.

Lemma call3_mismatch (p1 p2 p3 : text)
    (f : json → json → json → store → outcome result * store)
    (arguments : gmap text json) (fs : store) :
  (∃ k, k ∈ dom arguments ∧ k ∉ [p1; p2; p3])
  ∨ arguments !! p1 = None ∨ arguments !! p2 = None ∨ arguments !! p3 = None →
  call3 p1 p2 p3 f arguments fs = (Raise TypeError, fs).
Proof.
  unfold call3. intros [(k & Hk & Hp)|[Hp|[Hp|Hp]]].
  - by rewrite (accepts_false _ _ k).
  - rewrite Hp. by destruct (accepts _ _).
  - rewrite Hp. destruct (accepts _ _); [|done]. by destruct (arguments !! p1).
  - rewrite Hp. destruct (accepts _ _); [|done].
    by destruct (arguments !! p1), (arguments !! p2).
Qed.

(** Whatever the registry holds, [_execute_tool] hands back a result. *)
Lemma execute_tool_contains (tool_map : text → option method)
    (function_name : text) (arguments : json) (fs : store) :
  ∃ r fs', _execute_tool tool_map function_name arguments fs = (Return r, fs')
           ∧ ∀ m e fs1,
               tool_map function_name = Some m →
               attempt function_name m arguments fs = (Raise e, fs1) →
               fs' = fs1 ∧ ∃ error, r = Failure error.
Proof.
  unfold _execute_tool. destruct (tool_map function_name) as [m|];
    [|eexists _, _; split; [reflexivity|]; intros; discriminate].
  destruct (attempt function_name m arguments fs) as [[r|e] fs'] eqn:Hm.
  - exists r, fs'. split; [done|]. intros ? ? ? [= <-]. by rewrite Hm.
  - destruct e; eexists _, fs'; (split; [done|]);
      intros ? ? ? [= <-]; rewrite Hm; intros [= <- <-]; eauto.
Qed.

Section Registry.
Variable workspace_path : option text.

Lemma unregistered (name : text) :
  name ∉ tool_names → workspace_tools workspace_path name = None.
Proof.
  intros Hname. unfold workspace_tools.
  repeat case_bool_decide; try done; subst; exfalso; apply Hname;
    unfold tool_names; set_solver.
Qed.

Lemma mismatch_is_reported (name : text) (fields : list (text * json)) (fs : store) :
  name ∈ tool_names →
  mismatch name (dict fields) →
  _execute_tool (workspace_tools workspace_path) name (JObj fields) fs
  = (Return (Failure (ArgumentMismatch name TypeError)), fs).
Proof.
  intros Hname Hmis. unfold tool_names in Hname.
  repeat (apply elem_of_cons in Hname as [->|Hname]); [..|by apply elem_of_nil in Hname].
  - (* list_files *)
    unfold _execute_tool, attempt.
    change (workspace_tools workspace_path (py "list_files"))
      with (Some (call1 (py "path") (Some (JStr (py "."))) (list_files workspace_path))).
    rewrite bool_decide_eq_true_2 by done. cbv beta iota.
    rewrite call1_mismatch; [done|]. left.
    destruct Hmis as [(k & Hk & Hnp)|(p & Hp & Hopt & _)].
    + exists k. split; [|exact Hnp].
      destruct (dict fields !! py "path"); [done|]. set_solver.
    + exfalso. apply Hopt. exact Hp.
  - (* read_file *)
    unfold _execute_tool, attempt.
    change (workspace_tools workspace_path (py "read_file"))
      with (Some (call1 (py "path") None (read_file workspace_path))).
    rewrite bool_decide_eq_false_2 by discriminate. cbv beta iota.
    rewrite call1_mismatch; [done|].
    destruct Hmis as [(k & Hk & Hnp)|(p & Hp & _ & Hnone)].
    + left. exists k. split; [done|exact Hnp].
    + right. split; [done|]. apply list_elem_of_singleton in Hp as ->. exact Hnone.
  - (* write_file *)
    unfold _execute_tool, attempt.
    change (workspace_tools workspace_path (py "write_file"))
      with (Some (call2 (py "path") (py "content") (write_file workspace_path))).
    rewrite bool_decide_eq_false_2 by discriminate. cbv beta iota.
    rewrite call2_mismatch; [done|].
    destruct Hmis as [(k & Hk & Hnp)|(p & Hp & _ & Hnone)].
    + left. exists k. split; [done|exact Hnp].
    + right. repeat (apply elem_of_cons in Hp as [->|Hp]); [by left|by right|].
      by apply elem_of_nil in Hp.
  - (* create_directory *)
    unfold _execute_tool, attempt.
    change (workspace_tools workspace_path (py "create_directory"))
      with (Some (call1 (py "path") None (create_directory workspace_path))).
    rewrite bool_decide_eq_false_2 by discriminate. cbv beta iota.
    rewrite call1_mismatch; [done|].
    destruct Hmis as [(k & Hk & Hnp)|(p & Hp & _ & Hnone)].
    + left. exists k. split; [done|exact Hnp].
    + right. split; [done|]. apply list_elem_of_singleton in Hp as ->. exact Hnone.
  - (* delete_file *)
    unfold _execute_tool, attempt.
    change (workspace_tools workspace_path (py "delete_file"))
      with (Some (call1 (py "path") None (delete_file workspace_path))).
    rewrite bool_decide_eq_false_2 by discriminate. cbv beta iota.
    rewrite call1_mismatch; [done|].
    destruct Hmis as [(k & Hk & Hnp)|(p & Hp & _ & Hnone)].
    + left. exists k. split; [done|exact Hnp].
    + right. split; [done|]. apply list_elem_of_singleton in Hp as ->. exact Hnone.
  - (* apply_file_edit *)
    unfold _execute_tool, attempt.
    change (workspace_tools workspace_path (py "apply_file_edit"))
      with (Some (call3 (py "path") (py "search_block") (py "replace_block")
                    (apply_file_edit workspace_path))).
    rewrite bool_decide_eq_false_2 by discriminate. cbv beta iota.
    rewrite call3_mismatch; [done|].
    destruct Hmis as [(k & Hk & Hnp)|(p & Hp & _ & Hnone)].
    + left. exists k. split; [done|exact Hnp].
    + right. repeat (apply elem_of_cons in Hp as [->|Hp]);
        [by left|by right; left|by right; right|].
      by apply elem_of_nil in Hp.
Qed.

Lemma list_files_returns (p : text) (fs : store) :
  ∃ r, list_files workspace_path (JStr p) fs = (Return r, fs).
Proof.
  unfold list_files, _resolve_and_check_path.
  destruct workspace_path as [[|c wp]|]; try by eexists.
  destruct (negb (startswith _ _)); [by eexists|].
  destruct (negb (path_exists _ _)); [by eexists|].
  destruct (listdir _ _); by eexists.
Qed.

(** C6 (amended).  The registry holds six operations ([list_files],
    [read_file], [write_file], [create_directory], [delete_file],
    [apply_file_edit]).  A name outside it gets the unknown-tool failure and
    the files are not touched; arguments that leave out a required parameter
    or name none are reported as an argument mismatch; [list_files] without
    [path] is run with ["."]; and whatever a registered operation raises,
    [_execute_tool] returns a failure result in its place. *)
Theorem dispatch_contract :
  (length tool_names = 6 ∧ NoDup tool_names)
  ∧ (∀ name arguments fs,
       name ∉ tool_names →
       _execute_tool (workspace_tools workspace_path) name arguments fs
       = (Return (Failure (UnknownTool name)), fs))
  ∧ (∀ name fields fs,
       name ∈ tool_names →
       mismatch name (dict fields) →
       _execute_tool (workspace_tools workspace_path) name (JObj fields) fs
       = (Return (Failure (ArgumentMismatch name TypeError)), fs))
  ∧ (∀ fs, ∃ r,
       list_files workspace_path (JStr (py ".")) fs = (Return r, fs)
       ∧ _execute_tool (workspace_tools workspace_path) (py "list_files") (JObj []) fs
         = (Return r, fs))
  ∧ (∀ (registry : text → option method) name arguments fs,
       ∃ r fs',
         _execute_tool registry name arguments fs = (Return r, fs')
         ∧ ∀ m e fs1,
             registry name = Some m →
             attempt name m arguments fs = (Raise e, fs1) →
             fs' = fs1 ∧ ∃ error, r = Failure error).
Proof.
  split; [|split; [|split; [|split]]].
  - split; [done|]. apply (bool_decide_unpack _). by vm_compute.
  - intros name arguments fs Hname. unfold _execute_tool.
    by rewrite (unregistered name Hname).
  - apply mismatch_is_reported.
  - intros fs. destruct (list_files_returns (py ".") fs) as [r Hr].
    exists r. split; [done|].
    unfold _execute_tool, attempt.
    change (workspace_tools workspace_path (py "list_files"))
      with (Some (call1 (py "path") (Some (JStr (py "."))) (list_files workspace_path))).
    change (dict []) with (∅ : gmap text json).
    rewrite bool_decide_eq_true_2 by done. rewrite lookup_empty.
    unfold call1, accepts. rewrite bool_decide_eq_true_2 by set_solver.
    rewrite lookup_insert_eq. by rewrite Hr.
  - apply execute_tool_contains.
Qed.
End Registry.

(** An unknown name, and [read_file] called with [file] instead of [path]. *)
Lemma dispatch_contract_witness :
  (py "format_disk" ∉ tool_names)
  ∧ (py "read_file" ∈ tool_names)
  ∧ mismatch (py "read_file") (dict [(py "file", JStr (py "a.txt"))])
  ∧ _execute_tool (workspace_tools (Some (py "/ws"))) (py "format_disk") (JObj [])
      (one_file [])
    = (Return (Failure (UnknownTool (py "format_disk"))), one_file [])
  ∧ _execute_tool (workspace_tools (Some (py "/ws"))) (py "read_file")
      (JObj [(py "file", JStr (py "a.txt"))]) (one_file [])
    = (Return (Failure (ArgumentMismatch (py "read_file") TypeError)), one_file []).
Proof.
  assert (py "format_disk" ∉ tool_names) as H1
    by (apply (bool_decide_unpack _); by vm_compute).
  assert (py "read_file" ∈ tool_names) as H2
    by (apply (bool_decide_unpack _); by vm_compute).
  assert (mismatch (py "read_file") (dict [(py "file", JStr (py "a.txt"))])) as H3.
  { left. exists (py "file"). split; apply (bool_decide_unpack _); by vm_compute. }
  destruct (dispatch_contract (Some (py "/ws"))) as (_ & Hunknown & Hmismatch & _).
  repeat (split; [assumption|]). split.
  - exact (Hunknown _ _ _ H1).
  - exact (Hmismatch _ _ _ H2 H3).
Defined.

(** C6, as stated, speaks of a registry of five operations: six distinct
    names are registered, and each of them is dispatched. *)
Lemma six_operations_are_registered :
  length tool_names = 6
  ∧ NoDup tool_names
  ∧ Forall (λ name, ∀ workspace_path fs,
              _execute_tool (workspace_tools workspace_path) name JNull fs
              = (Return (Failure (ArgumentMismatch name TypeError)), fs))
           tool_names
  ∧ length tool_names ≠ 5.
Proof.
  split; [done|]. split; [apply (bool_decide_unpack _); by vm_compute|].
  split; [|done]. repeat constructor.
Qed.
End Dispatcher.

(** ** The coalescing pass of the Google translation *)

Module Coalescing.
Import APIClient Spec.

Lemma function_run (l : list entry) :
  ∃ run rest,
    l = run ++ rest
    ∧ Forall (λ e, entry_role e = function) run
    ∧ ∀ e, head rest = Some e → entry_role e ≠ function.
Proof.
  induction l as [|e l (run & rest & -> & Hrun & Hrest)].
  - exists [], []. by repeat split.
  - destruct (decide (entry_role e = function)) as [He|He].
    + exists (e :: run), rest. repeat split; [by constructor|done].
    + exists [], (e :: run ++ rest). repeat split; [constructor|].
      by intros ? [= <-].
Qed.

Lemma lookup_after (pre rest : list entry) : (pre ++ rest) !! length pre = head rest.
Proof.
  destruct rest as [|e rest]; [|by rewrite list_lookup_middle].
  rewrite app_nil_r. by apply lookup_ge_None.
Qed.

Lemma gather_run (transformed pre run rest : list entry) (fuel : nat)
    (function_parts : list part) :
  transformed = pre ++ run ++ rest →
  Forall (λ e, entry_role e = function) run →
  (∀ e, head rest = Some e → entry_role e ≠ function) →
  length run < fuel →
  gather fuel transformed (length pre) function_parts
  = Some (length pre + length run, function_parts ++ concat (map entry_parts run)).
Proof.
  intros -> Hrun Hrest. revert pre fuel function_parts.
  induction Hrun as [|e run He _ IH]; intros pre fuel function_parts Hfuel.
  - destruct fuel as [|fuel]; [simpl in Hfuel; lia|]. cbn [gather app].
    rewrite lookup_after, Nat.add_0_r, app_nil_r.
    destruct (head rest) as [e|] eqn:Hhead; [|done].
    by rewrite bool_decide_eq_false_2 by by apply Hrest.
  - destruct fuel as [|fuel]; [simpl in Hfuel; lia|]. cbn [gather].
    rewrite lookup_after. cbn [head app].
    rewrite bool_decide_eq_true_2 by done.
    replace (length pre + 1) with (length (pre ++ [e])) by (rewrite length_app; simpl; lia).
    replace (pre ++ e :: run ++ rest) with ((pre ++ [e]) ++ run ++ rest)
      by by rewrite <- app_assoc.
    rewrite IH by (simpl in Hfuel; lia).
    rewrite length_app. cbn [length map concat]. f_equal. f_equal; [lia|].
    by rewrite <- app_assoc.
Qed.

Lemma coalesce_from_spec (transformed : list entry) (fuel : nat) :
  ∀ pre rest final_transformed,
    transformed = pre ++ rest →
    length rest < fuel →
    ∃ out, Coalesced rest out
           ∧ coalesce_from fuel transformed (length pre) final_transformed
             = Some (final_transformed ++ out).
Proof.
  induction fuel as [|fuel IH]; intros pre rest final_transformed Ht Hfuel; [lia|].
  cbn [coalesce_from].
  assert (transformed !! length pre = head rest) as -> by (rewrite Ht; apply lookup_after).
  destruct rest as [|e rest0]; cbn [head].
  { exists []. split; [constructor|by rewrite app_nil_r]. }
  destruct (decide (entry_role e = function)) as [He|He].
  - rewrite bool_decide_eq_true_2 by done.
    destruct (function_run (e :: rest0)) as (run & rest & Hsplit & Hrun & Hrest).
    assert (run ≠ []) as Hne.
    { intros ->. simpl in Hsplit. subst rest. by apply (Hrest e). }
    rewrite (gather_run transformed pre run rest); try done.
    + destruct (IH (pre ++ run) rest
                  (final_transformed
                     ++ [{| entry_role := function;
                            entry_parts := concat (map entry_parts run) |}]))
        as (out & Hout & Heq).
      * by rewrite Ht, Hsplit, <- app_assoc.
      * apply (f_equal length) in Hsplit. rewrite length_app in Hsplit.
        simpl in Hsplit, Hfuel. destruct run; [done|]. simpl in Hsplit. lia.
      * rewrite length_app in Heq. cbn [app]. rewrite Heq.
        eexists. split; [rewrite Hsplit; by apply coalesced_run|].
        by rewrite <- app_assoc.
    + by rewrite Ht, Hsplit.
    + apply (f_equal length) in Ht, Hsplit. rewrite !length_app in *. simpl in *. lia.
  - rewrite bool_decide_eq_false_2 by done.
    destruct (IH (pre ++ [e]) rest0 (final_transformed ++ [e])) as (out & Hout & Heq).
    + by rewrite Ht, <- app_assoc.
    + simpl in Hfuel. lia.
    + rewrite length_app in Heq. cbn [length] in Heq. rewrite Heq.
      exists (e :: out). split; [by constructor|]. by rewrite <- app_assoc.
Qed.

(** C8.  The coalescing pass ends and merges every maximal run of consecutive
    [function] entries into one [function] entry whose parts are the parts of
    the run in order; all other entries are kept as they are, in order. *)
Theorem coalesce_merges_function_runs (transformed : list entry) :
  ∃ final_transformed,
    coalesce transformed = Some final_transformed
    ∧ Coalesced transformed final_transformed.
Proof.
  destruct (coalesce_from_spec transformed (S (length transformed)) [] transformed [])
    as (out & Hout & Heq); [done|lia|].
  exists out. by split.
Qed.

(** Two tool results in a row are sent as one entry. *)
Example two_results_in_one_entry :
  coalesce
    [ {| entry_role := user; entry_parts := [TextPart (Some (py "go"))] |};
      {| entry_role := model;
         entry_parts := [FunctionCallPart (py "read_file") JNull;
                         FunctionCallPart (py "list_files") JNull] |};
      {| entry_role := function; entry_parts := [FunctionResponsePart (py "read_file") JNull] |};
      {| entry_role := function; entry_parts := [FunctionResponsePart (py "list_files") JNull] |};
      {| entry_role := model; entry_parts := [TextPart (Some (py "done"))] |} ]
  = Some
      [ {| entry_role := user; entry_parts := [TextPart (Some (py "go"))] |};
        {| entry_role := model;
           entry_parts := [FunctionCallPart (py "read_file") JNull;
                           FunctionCallPart (py "list_files") JNull] |};
        {| entry_role := function;
           entry_parts := [FunctionResponsePart (py "read_file") JNull;
                           FunctionResponsePart (py "list_files") JNull] |};
        {| entry_role := model; entry_parts := [TextPart (Some (py "done"))] |} ].
Proof. vm_compute. reflexivity. Qed.
End Coalescing.

(** ** The autonomous loop *)

Module Orchestration.
Import PyStr ToolExecutor TextualCLI Spec Samples.

Section Turn.
Variable workspace_path : option text.
Variable active_provider : provider.
Variable json_loads : text → option json.
Variable json_dumps : json → text.
Variable result_dumps : result → text.
Variable get_response : nat → list chat_message → reply active_provider.

Abbreviation openai_formatted := (openai_formatted_tool_calls active_provider json_dumps).
Abbreviation run_tools :=
  (execute_tools workspace_path active_provider json_loads result_dumps).
Abbreviation run_loop :=
  (autonomous_loop workspace_path active_provider json_loads json_dumps result_dumps
     get_response).

(** A tool call is processed without an exception; a name comes back exactly
    when the call has one. *)
Lemma tool_executor_returns (tc : wire_call active_provider) (fs : store) :
  ∃ r name id fs',
    tool_executor workspace_path json_loads active_provider tc fs
    = (Return (r, name, id), fs')
    ∧ match name with
      | Some (c :: n) => c :: n = call_name active_provider tc
      | _ => call_name active_provider tc = []
      end.
Proof.
  unfold tool_executor, process_tool_call.
  destruct active_provider; cbn [call_name].
  - case_bool_decide as Hname; [by eexists _, _, _, _|].
    destruct (Dispatcher.execute_tool_contains (workspace_tools workspace_path)
                (fc_name tc) (default (JObj []) (fc_args tc)) fs) as (r & fs' & -> & _).
    eexists _, _, _, _. split; [done|]. by destruct (fc_name tc).
  - destruct (json_loads (tc_arguments tc)) as [arguments|].
    + case_bool_decide as Hname; [by eexists _, _, _, _|].
      destruct (Dispatcher.execute_tool_contains (workspace_tools workspace_path)
                  (tc_name tc) arguments fs) as (r & fs' & -> & _).
      eexists _, _, _, _. split; [done|]. by destruct (tc_name tc).
    + eexists _, _, _, _. split; [done|]. by destruct (tc_name tc).
Qed.

Lemma imap_names (f : nat → function_call → tool_call) (l : list function_call) :
  (∀ i tc, tc_name (f i tc) = fc_name tc) →
  Forall2 (λ tc x, tc_name x = fc_name tc) l (imap f l).
Proof.
  revert f. induction l as [|tc l IH]; intros f Hf; [constructor|].
  cbn [imap]. constructor; [apply Hf|]. apply IH. intros i tc'. apply Hf.
Qed.

(** Formatting for the history keeps the order and the names of the calls. *)
Lemma openai_formatted_names (tool_calls : list (wire_call active_provider)) :
  Forall2 (λ tc f, tc_name f = call_name active_provider tc)
          tool_calls (openai_formatted tool_calls).
Proof.
  unfold openai_formatted_tool_calls. destruct active_provider; cbn [call_name].
  - by apply imap_names.
  - induction tool_calls; by constructor.
Qed.

Lemma drop_cons_inv {A} (l : list A) (i : nat) (x : A) (l' : list A) :
  drop i l = x :: l' → l !! i = Some x ∧ drop (i + 1) l = l'.
Proof.
  intros Hdrop. split.
  - transitivity (drop i l !! 0); [by rewrite lookup_drop, Nat.add_0_r|by rewrite Hdrop].
  - rewrite <- drop_drop. by rewrite Hdrop.
Qed.

(** The batch is executed to its end: the calls that have a name are
    answered, one tool-result message each, in order and under their ids. *)
Lemma execute_tools_answers (formatted : list tool_call)
    (rest : list (wire_call active_provider)) :
  ∀ (i : nat) (st : state) (pending : list tool_call),
    drop i formatted = pending →
    Forall2 (λ tc f, tc_name f = call_name active_provider tc) rest pending →
    ∃ st' results,
      run_tools i rest formatted st = (st', None)
      ∧ messages st' = messages st ++ results
      ∧ requests st' = requests st
      ∧ loaded_context st' = loaded_context st
      ∧ Forall2 answers (filter (λ f, tc_name f ≠ []) pending) results.
Proof.
  induction rest as [|tc rest IH]; intros i st pending Hdrop Hnames.
  - apply Forall2_nil_inv_l in Hnames as ->.
    exists st, []. by rewrite app_nil_r.
  - apply Forall2_cons_inv_l in Hnames as (f & pending' & Hname & Hnames & ->).
    apply drop_cons_inv in Hdrop as [Hlookup Hdrop].
    cbn [execute_tools]. rewrite Hlookup.
    destruct (tool_executor_returns tc (files st)) as (r & name & id & fs' & -> & Hreturned).
    match goal with
    | |- context [execute_tools _ _ _ _ _ rest formatted ?s] =>
        destruct (IH (i + 1) s pending' Hdrop Hnames)
          as (st' & results & -> & Hmessages & Hrequests & Hcontext & Hanswers)
    end.
    cbn [messages requests loaded_context] in Hmessages, Hrequests, Hcontext.
    rewrite filter_cons.
    destruct name as [[|c n]|].
    + exists st', results. rewrite app_nil_r in Hmessages.
      rewrite decide_False by (rewrite Hname, Hreturned; by intros []).
      by repeat split.
    + eexists st', (_ :: results). rewrite <- app_assoc in Hmessages.
      rewrite decide_True by (rewrite Hname, <- Hreturned; done).
      repeat split; try done. constructor; [|done].
      eexists. by rewrite Hname, <- Hreturned.
    + exists st', results. rewrite app_nil_r in Hmessages.
      rewrite decide_False by (rewrite Hname, Hreturned; by intros []).
      by repeat split.
Qed.

(** One round: the request, the assistant message with the batch, the
    answers to the calls that have a name; then the loop goes on. *)
Lemma tool_round_step (fuel loop_count : nat) (st : state)
    (tool_calls : list (wire_call active_provider)) :
  loop_count < MAX_LOOPS →
  get_response (requests st) (messages st) = Reply (ToolCallResponse tool_calls) →
  ∃ st' results,
    run_loop (S fuel) loop_count st = run_loop fuel (loop_count + 1) st'
    ∧ messages st'
      = messages st ++ AssistantMessage None (Some (openai_formatted tool_calls)) :: results
    ∧ requests st' = S (requests st)
    ∧ loaded_context st' = loaded_context st
    ∧ Forall2 answers
        (filter (λ tc, tc_name tc ≠ []) (openai_formatted tool_calls)) results.
Proof.
  intros Hcount Hreply. cbn [autonomous_loop].
  apply Nat.ltb_lt in Hcount as ->. rewrite Hreply.
  destruct (execute_tools_answers (openai_formatted tool_calls) tool_calls 0
              (append (asked st)
                 (AssistantMessage None (Some (openai_formatted tool_calls))))
              (openai_formatted tool_calls) eq_refl (openai_formatted_names tool_calls))
    as (st' & results & -> & Hmessages & Hrequests & Hcontext & Hanswers).
  exists st', results. split; [done|].
  cbn [messages requests loaded_context append asked] in Hmessages, Hrequests, Hcontext.
  rewrite <- app_assoc in Hmessages. by repeat split.
Qed.


Abbreviation run_turn :=
  (process_bot_turn workspace_path active_provider json_loads json_dumps result_dumps
     get_response).

Section AlwaysToolCalls.
Hypothesis always_tool_calls :
  ∀ n history, ∃ tool_calls, get_response n history = Reply (ToolCallResponse tool_calls).


End AlwaysToolCalls.
End Turn.



(** The whole turn with [mixed_then_text]: the two answers stand between
    the batch and the closing text. *)
Example mixed_batch_turn :
  messages <$> process_bot_turn (Some (py "/ws")) OpenAICompatible loads_empty dumps_empty
                 dumps_result mixed_then_text session
  = Some [SystemMessage (py "You are an agent."); UserMessage (py "go");
          AssistantMessage None (Some mixed_batch);
          ToolMessage (py "list_files") (py "{}") (py "call_b");
          ToolMessage (py "fly") (py "{}") (py "call_c");
          AssistantMessage (Some (py "done")) None].
Proof. vm_compute. reflexivity. Qed.

End Orchestration.

(** ** The file operations: round trips and what they leave alone *)

Module FileOperations.
Import PyStr OS WorkspaceManager PyStrFacts Spec Samples FileNotions.

Lemma same_links_refl (fs : store) : same_links fs fs.
Proof. by intros p target. Qed.

Lemma same_links_trans (fs1 fs2 fs3 : store) :
  same_links fs1 fs2 → same_links fs2 fs3 → same_links fs1 fs3.
Proof. intros H12 H23 p target. etrans; [apply H12|apply H23]. Qed.

Lemma same_links_insert (fs : store) (k : text) (n : node) :
  link_free n = true →
  (∀ target, fs !! k ≠ Some (Link target)) →
  same_links fs (<[k := n]> fs).
Proof.
  intros Hn Hk p target. destruct (decide (p = k)) as [->|Hp].
  - rewrite lookup_insert_eq. split; [by intros ?%Hk|].
    intros [= ->]. done.
  - by rewrite lookup_insert_ne.
Qed.

Lemma same_links_delete (fs : store) (k : text) :
  (∀ target, fs !! k ≠ Some (Link target)) →
  same_links fs (delete k fs).
Proof.
  intros Hk p target. destruct (decide (p = k)) as [->|Hp].
  - rewrite lookup_delete_eq. split; [by intros ?%Hk|done].
  - by rewrite lookup_delete_ne.
Qed.

(** Path resolution reads nothing of the store but its links. *)
Lemma resolve_same_links (fs fs' : store) (fuel : nat) (stack rest : list text) :
  same_links fs fs' →
  resolve fs fuel stack rest = resolve fs' fuel stack rest.
Proof.
  intros Hsame. revert stack rest.
  induction fuel as [|fuel IHfuel]; intros stack rest; revert stack;
    induction rest as [|name rest IH]; intros stack;
    rewrite ?PathSandbox.resolve_nil; try done;
    rewrite !PathSandbox.resolve_cons;
    (destruct (bool_decide (name = []) || bool_decide (name = [DOT])); [apply IH|]);
    (destruct (bool_decide (name = [DOT; DOT])); [apply IH|]);
    destruct (fs !! render (stack ++ [name])) as [[d| |target]|] eqn:E;
    try (apply Hsame in E as ->; by rewrite ?IHfuel);
    destruct (fs' !! render (stack ++ [name])) as [[d'| |target']|] eqn:E';
    try apply IH;
    apply Hsame in E'; congruence.
Qed.

Lemma realpath_same_links (fs fs' : store) (p : text) :
  same_links fs fs' → realpath fs p = realpath fs' p.
Proof. intros H. unfold realpath. by rewrite (resolve_same_links fs fs'). Qed.

Lemma resolve_and_check_same_links (workspace_path : option text) (fs fs' : store)
    (path : json) :
  same_links fs fs' →
  _resolve_and_check_path workspace_path fs path
  = _resolve_and_check_path workspace_path fs' path.
Proof.
  intros H. unfold _resolve_and_check_path.
  destruct workspace_path as [[|c wp]|]; [reflexivity| |reflexivity].
  destruct path as [| | |p| |];
    [reflexivity|reflexivity|reflexivity| |reflexivity|reflexivity]. cbn zeta.
  rewrite !(realpath_same_links fs fs' _ H). reflexivity.
Qed.

Lemma adds_directories_refl (fs : store) : adds_directories fs fs.
Proof. intros p. by left. Qed.

Lemma adds_directories_same_links (fs fs' : store) :
  adds_directories fs fs' → same_links fs fs'.
Proof.
  intros H p target. destruct (H p) as [->|[E ->]]; [done|]. by rewrite E.
Qed.

(** [os.makedirs] adds directories and changes nothing else, also when it
    fails half way. *)
Lemma makedirs_from_adds (rest : list text) :
  ∀ fs stack e fs',
    makedirs_from fs stack rest = (e, fs') → adds_directories fs fs'.
Proof.
  induction rest as [|c rest IH]; intros fs stack e fs'; cbn [makedirs_from].
  - intros [= _ <-]. apply adds_directories_refl.
  - destruct (fs !! render (stack ++ [c])) as [[d| |target]|] eqn:E.
    + intros [= _ <-]. apply adds_directories_refl.
    + apply IH.
    + intros [= _ <-]. apply adds_directories_refl.
    + intros Hrec%IH. intros p. destruct (Hrec p) as [Hp|[Hp1 Hp2]].
      * destruct (decide (p = render (stack ++ [c]))) as [->|Hne].
        -- right. by rewrite Hp, lookup_insert_eq.
        -- left. by rewrite Hp, lookup_insert_ne.
      * right. split; [|done].
        destruct (decide (p = render (stack ++ [c]))) as [->|Hne];
          [by rewrite lookup_insert_eq in Hp1|by rewrite lookup_insert_ne in Hp1].
Qed.

(** Once [os.makedirs] has succeeded, doing it again changes nothing. *)
Lemma makedirs_from_again (rest : list text) :
  ∀ fs stack fs',
    makedirs_from fs stack rest = (None, fs') →
    makedirs_from fs' stack rest = (None, fs').
Proof.
  induction rest as [|c rest IH]; intros fs stack fs'; cbn [makedirs_from]; [done|].
  destruct (fs !! render (stack ++ [c])) as [[d| |target]|] eqn:E; try done.
  - intros Hrec. pose proof (makedirs_from_adds _ _ _ _ _ Hrec (render (stack ++ [c]))) as Hp.
    destruct Hp as [Hp|[Hp _]]; [|congruence].
    rewrite Hp, E. by eapply IH.
  - intros Hrec. pose proof (makedirs_from_adds _ _ _ _ _ Hrec (render (stack ++ [c]))) as Hp.
    rewrite lookup_insert_eq in Hp. destruct Hp as [Hp|[Hp _]]; [|done].
    rewrite Hp. by eapply IH.
Qed.

Lemma makedirs_adds (fs : store) (p : text) (e : option exn) (fs' : store) :
  makedirs fs p = (e, fs') → adds_directories fs fs'.
Proof. apply makedirs_from_adds. Qed.

Lemma open_w_same_links (fs : store) (p : text) (fs' : store) :
  open_w fs p = Return fs' →
  fs' = <[realpath fs p := File (Some [])]> fs ∧ same_links fs fs'.
Proof.
  unfold open_w.
  destruct (fs !! realpath fs p) as [[d| |target]|] eqn:E; try done;
    (destruct (fs !! dirname (realpath fs p)) as [[d'| |target']|]; try done);
    intros [= <-]; (split; [done|]);
    apply same_links_insert; try done; intros target; by rewrite E.
Qed.

Lemma write_text_same_links (fs : store) (p content : text) :
  (∀ target, fs !! realpath fs p ≠ Some (Link target)) →
  same_links fs (write_text fs p content).
Proof. intros H. by apply same_links_insert. Qed.

(** What [open(p, 'w')] followed by [f.write(content)] leaves. *)
Lemma open_write (fs fs1 : store) (p content : text) :
  open_w fs p = Return fs1 →
  write_text fs1 p content = <[realpath fs p := File (Some content)]> fs
  ∧ same_links fs (write_text fs1 p content).
Proof.
  intros [-> Hsame]%open_w_same_links. unfold write_text.
  rewrite <- (realpath_same_links fs _ p Hsame).
  rewrite insert_insert_eq. split; [done|].
  intros q target. destruct (decide (q = realpath fs p)) as [->|Hq].
  - rewrite lookup_insert_eq. specialize (Hsame (realpath fs p) target).
    rewrite lookup_insert_eq in Hsame. rewrite Hsame. split; congruence.
  - by rewrite lookup_insert_ne.
Qed.

Lemma edit_text_message (original_content : text) (search_block replace_block : json)
    (final_content : text) (m : message) :
  edit_text original_content search_block replace_block = Return (Rewrite final_content m) →
  m = EditedExact ∨ m = EditedFuzzy.
Proof.
  unfold edit_text, exact_match, fuzzy_match.
  destruct search_block as [| | |sb| |]; try done.
  destruct (contains sb original_content).
  - destruct (1 <? count original_content sb); [done|].
    destruct replace_block; try done. intros [= _ <-]. by left.
  - case_bool_decide; [done|].
    destruct (scan _ _) as [|i [|j l]]; try done.
    destruct (splitlines original_content !! i); [|done].
    destruct replace_block; try done. intros [= _ <-]. by right.
Qed.

Lemma universal_newlines_plain (s : text) : CR ∉ s → universal_newlines s = s.
Proof.
  induction s as [|c s IH]; [done|]. intros [Hc Hs]%not_elem_of_cons.
  cbn [universal_newlines].
  destruct (N.eqb_spec c CR) as [->|_]; [done|]. by rewrite IH.
Qed.

Section Operations.
Variable workspace_path : option text.

(** The file [write_file] has written is read back by [read_file] as the
    content with its line ends normalised (a text-mode read turns ["\r\n"]
    and ["\r"] into ["\n"]), so content without a carriage return is read
    back as it was written.  The content is one that UTF-8 encodes. *)
Theorem write_then_read (path content : text) (fs fs' : store) (m : message) :
  encodable content →
  write_file workspace_path (JStr path) (JStr content) fs = (Return (Success m), fs') →
  read_file workspace_path (JStr path) fs'
  = (Return (Content (universal_newlines content)), fs')
  ∧ (CR ∉ content → universal_newlines content = content).
Proof.
  intros _ Hw. split; [|apply universal_newlines_plain].
  revert Hw. unfold write_file, read_file.
  destruct (_resolve_and_check_path workspace_path fs (JStr path))
    as [[full_path [error|]]|e] eqn:Hres; try done.
  destruct (makedirs fs (dirname full_path)) as [[e|] fs1] eqn:Hmk; [done|].
  destruct (open_w fs1 full_path) as [fs2|e] eqn:Hopen; [|done].
  intros [= _ <-].
  apply makedirs_adds, adds_directories_same_links in Hmk.
  destruct (open_write _ _ _ content Hopen) as [Hfs' Hsame].
  assert (same_links fs (write_text fs2 full_path content)) as Hall
    by by eapply same_links_trans.
  rewrite <- (resolve_and_check_same_links _ _ _ _ Hall), Hres.
  unfold read_text, stat.
  rewrite <- (realpath_same_links _ _ full_path Hsame).
  rewrite Hfs' at 1. by rewrite lookup_insert_eq.
Qed.

(** Content that is no string is refused only after the file has been
    opened for writing: the call fails with the [TypeError] of [f.write],
    and leaves the files as writing the empty string would; the file that
    was there is read back empty. *)
Theorem write_file_truncates_before_it_fails (path : text) (content : json)
    (fs fs' : store) (m : message) :
  (∀ s, content ≠ JStr s) →
  write_file workspace_path (JStr path) (JStr []) fs = (Return (Success m), fs') →
  write_file workspace_path (JStr path) content fs
  = (Return (Failure (WriteError TypeError)), fs')
  ∧ read_file workspace_path (JStr path) fs' = (Return (Content []), fs').
Proof.
  intros Hcontent Hw. split.
  - revert Hw. unfold write_file.
    destruct (_resolve_and_check_path workspace_path fs (JStr path))
      as [[full_path [error|]]|e]; try done.
    destruct (makedirs fs (dirname full_path)) as [[e|] fs1]; [done|].
    destruct (open_w fs1 full_path) as [fs2|e] eqn:Hopen; [|done].
    intros [= _ <-].
    destruct (open_write _ _ _ [] Hopen) as [-> _].
    apply open_w_same_links in Hopen as [-> _].
    destruct content; try done. by destruct (Hcontent s).
  - revert Hw. unfold write_file, read_file.
    destruct (_resolve_and_check_path workspace_path fs (JStr path))
      as [[full_path [error|]]|e] eqn:Hres; try done.
    destruct (makedirs fs (dirname full_path)) as [[e|] fs1] eqn:Hmk; [done|].
    destruct (open_w fs1 full_path) as [fs2|e] eqn:Hopen; [|done].
    intros [= _ <-].
    apply makedirs_adds, adds_directories_same_links in Hmk.
    destruct (open_write _ _ _ [] Hopen) as [Hfs' Hsame].
    assert (same_links fs (write_text fs2 full_path [])) as Hall
      by by eapply same_links_trans.
    rewrite <- (resolve_and_check_same_links _ _ _ _ Hall), Hres.
    unfold read_text, stat.
    rewrite <- (realpath_same_links _ _ full_path Hsame).
    rewrite Hfs' at 1. by rewrite lookup_insert_eq.
Qed.

(** Whatever [write_file] returns, it has touched one file at most: every
    other path holds what it held, or a directory that was missing. *)
Theorem write_file_is_confined (path content : json) (fs fs' : store)
    (r : outcome result) (full_path : text) :
  _resolve_and_check_path workspace_path fs path = Return (full_path, None) →
  write_file workspace_path path content fs = (r, fs') →
  ∀ q, q ≠ realpath fs full_path →
       fs' !! q = fs !! q ∨ (fs !! q = None ∧ fs' !! q = Some Dir).
Proof.
  intros Hres. unfold write_file. rewrite Hres.
  destruct (makedirs fs (dirname full_path)) as [e fs1] eqn:Hmk.
  pose proof (makedirs_adds _ _ _ _ Hmk) as Hadds.
  pose proof (adds_directories_same_links _ _ Hadds) as Hsame.
  assert (∀ q final, q ≠ realpath fs full_path →
            <[realpath fs1 full_path := final]> fs1 !! q = fs !! q
            ∨ (fs !! q = None ∧ <[realpath fs1 full_path := final]> fs1 !! q = Some Dir))
    as Hframe.
  { intros q final Hq. rewrite (realpath_same_links _ _ _ Hsame) in Hq.
    rewrite lookup_insert_ne by done. apply Hadds. }
  destruct e as [e|]; [intros [= _ <-] q _; apply Hadds|].
  destruct (open_w fs1 full_path) as [fs2|e] eqn:Hopen;
    [|intros [= _ <-] q _; apply Hadds].
  assert (∀ c, write_text fs2 full_path c
               = <[realpath fs1 full_path := File (Some c)]> fs1) as Hw.
  { intros c. exact (proj1 (open_write _ _ _ c Hopen)). }
  assert (fs2 = <[realpath fs1 full_path := File (Some [])]> fs1) as Hfs2.
  { exact (proj1 (open_w_same_links _ _ _ Hopen)). }
  destruct content as [| | |s| |]; intros [= _ <-] q Hq; rewrite ?Hw, ?Hfs2;
    apply Hframe; exact Hq.
Qed.

(** A file that [delete_file] has removed is gone for [read_file] and for
    a second [delete_file]; no other path has changed. *)
Theorem delete_then_read (path : text) (fs fs' : store) (m : message) :
  delete_file workspace_path (JStr path) fs = (Return (Success m), fs') →
  read_file workspace_path (JStr path) fs' = (Return (Failure (FileNotFound path)), fs')
  ∧ delete_file workspace_path (JStr path) fs' = (Return (Failure (FileNotFound path)), fs')
  ∧ ∃ full_path,
      _resolve_and_check_path workspace_path fs (JStr path) = Return (full_path, None)
      ∧ fs' = delete (realpath fs full_path) fs.
Proof.
  unfold delete_file, read_file.
  destruct (_resolve_and_check_path workspace_path fs (JStr path))
    as [[full_path [error|]]|e] eqn:Hres; try done.
  destruct (path_isfile fs full_path) eqn:Hfile; [|done].
  cbn [negb]. intros [= _ <-]. unfold remove.
  assert (same_links fs (delete (realpath fs full_path) fs)) as Hsame.
  { apply same_links_delete. intros target Hlink.
    unfold path_isfile, stat in Hfile. by rewrite Hlink in Hfile. }
  rewrite <- (resolve_and_check_same_links _ _ _ _ Hsame), Hres.
  assert (stat (delete (realpath fs full_path) fs) full_path = None) as Hgone.
  { unfold stat. rewrite <- (realpath_same_links _ _ _ Hsame).
    by rewrite lookup_delete_eq. }
  unfold read_text, path_isfile. rewrite Hgone. cbn [negb shown].
  repeat split. by exists full_path.
Qed.

(** [create_directory] adds directories and nothing else, and once it has
    succeeded a second call succeeds without a change. *)
Theorem create_directory_again (path : text) (fs fs' : store) (m : message) :
  create_directory workspace_path (JStr path) fs = (Return (Success m), fs') →
  adds_directories fs fs'
  ∧ create_directory workspace_path (JStr path) fs' = (Return (Success m), fs').
Proof.
  unfold create_directory.
  destruct (_resolve_and_check_path workspace_path fs (JStr path))
    as [[full_path [error|]]|e] eqn:Hres; try done.
  destruct (makedirs fs full_path) as [[e|] fs1] eqn:Hmk; [done|].
  intros [= <- <-].
  pose proof (makedirs_adds _ _ _ _ Hmk) as Hadds.
  pose proof (adds_directories_same_links _ _ Hadds) as Hsame.
  split; [done|].
  rewrite <- (resolve_and_check_same_links _ _ _ _ Hsame), Hres.
  unfold makedirs in *. rewrite <- (realpath_same_links _ _ _ Hsame).
  by rewrite (makedirs_from_again _ _ _ _ Hmk).
Qed.

(** An edit fails and leaves every file as it was, or succeeds and
    replaces the content of the one file the path resolves to.  The
    replacement is text that UTF-8 encodes, so that writing it cannot fail
    half way. *)
Theorem edit_is_all_or_nothing (path search_block replace_block : json)
    (fs fs' : store) (r : outcome result) :
  (∀ rb, replace_block = JStr rb → encodable rb) →
  apply_file_edit workspace_path path search_block replace_block fs = (r, fs') →
  (fs' = fs ∧ ∀ m, r ≠ Return (Success m))
  ∨ ∃ full_path final_content m,
      _resolve_and_check_path workspace_path fs path = Return (full_path, None)
      ∧ r = Return (Success m)
      ∧ (m = EditedExact ∨ m = EditedFuzzy)
      ∧ fs' = <[realpath fs full_path := File (Some final_content)]> fs.
Proof.
  intros _. unfold apply_file_edit.
  destruct (_resolve_and_check_path workspace_path fs path)
    as [[full_path [error|]]|e] eqn:Hres; try (intros [= <- <-]; by left).
  destruct (path_exists fs full_path); [|intros [= <- <-]; by left]. cbn [negb].
  destruct (read_text fs full_path) as [original_content|e];
    [|intros [= <- <-]; by left].
  destruct (edit_text original_content search_block replace_block)
    as [[error|final_content m]|e] eqn:Hedit; try (intros [= <- <-]; by left).
  destruct (open_w fs full_path) as [fs1|e] eqn:Hopen; [|intros [= <- <-]; by left].
  intros [= <- <-]. right. exists full_path, final_content, m.
  split; [done|]. split; [done|]. split; [by eapply edit_text_message|].
  by destruct (open_write _ _ _ final_content Hopen) as [-> _].
Qed.
End Operations.

Lemma write_then_read_witness :
  encodable [97; 13; 10; 98]%N
  ∧ write_file (Some (py "/ws")) (JStr (py "new/g.txt")) (JStr [97; 13; 10; 98]%N)
      (one_file (py "foo"))
    = (Return (Success (Written (py "new/g.txt"))),
       <[py "/ws/new/g.txt" := File (Some [97; 13; 10; 98]%N)]>
         (<[py "/ws/new" := Dir]> (one_file (py "foo"))))
  ∧ read_file (Some (py "/ws")) (JStr (py "new/g.txt"))
      (<[py "/ws/new/g.txt" := File (Some [97; 13; 10; 98]%N)]>
         (<[py "/ws/new" := Dir]> (one_file (py "foo"))))
    = (Return (Content [97; 10; 98]%N),
       <[py "/ws/new/g.txt" := File (Some [97; 13; 10; 98]%N)]>
         (<[py "/ws/new" := Dir]> (one_file (py "foo")))).
Proof.
  assert (encodable [97; 13; 10; 98]%N) as H1
    by (repeat constructor; left; reflexivity).
  assert (write_file (Some (py "/ws")) (JStr (py "new/g.txt")) (JStr [97; 13; 10; 98]%N)
            (one_file (py "foo"))
          = (Return (Success (Written (py "new/g.txt"))),
             <[py "/ws/new/g.txt" := File (Some [97; 13; 10; 98]%N)]>
               (<[py "/ws/new" := Dir]> (one_file (py "foo"))))) as H2
    by (vm_compute; reflexivity).
  split; [exact H1|]. split; [exact H2|].
  exact (proj1 (write_then_read _ _ _ _ _ _ H1 H2)).
Defined.

Lemma write_file_truncates_before_it_fails_witness :
  (∀ s, JNum 5 ≠ JStr s)
  ∧ write_file (Some (py "/ws")) (JStr (py "f.txt")) (JStr []) (one_file (py "foo"))
    = (Return (Success (Written (py "f.txt"))), one_file [])
  ∧ write_file (Some (py "/ws")) (JStr (py "f.txt")) (JNum 5) (one_file (py "foo"))
    = (Return (Failure (WriteError TypeError)), one_file [])
  ∧ read_file (Some (py "/ws")) (JStr (py "f.txt")) (one_file [])
    = (Return (Content []), one_file []).
Proof.
  assert (∀ s, JNum 5 ≠ JStr s) as H1 by discriminate.
  assert (write_file (Some (py "/ws")) (JStr (py "f.txt")) (JStr []) (one_file (py "foo"))
          = (Return (Success (Written (py "f.txt"))), one_file [])) as H2
    by (vm_compute; reflexivity).
  split; [exact H1|]. split; [exact H2|].
  exact (write_file_truncates_before_it_fails _ _ _ _ _ _ H1 H2).
Defined.

Lemma write_file_is_confined_witness :
  _resolve_and_check_path (Some (py "/ws")) (one_file (py "foo")) (JStr (py "new/g.txt"))
    = Return (py "/ws/new/g.txt", None)
  ∧ write_file (Some (py "/ws")) (JStr (py "new/g.txt")) (JStr (py "x")) (one_file (py "foo"))
    = (Return (Success (Written (py "new/g.txt"))),
       <[py "/ws/new/g.txt" := File (Some (py "x"))]>
         (<[py "/ws/new" := Dir]> (one_file (py "foo"))))
  ∧ py "/ws/f.txt" ≠ realpath (one_file (py "foo")) (py "/ws/new/g.txt")
  ∧ (<[py "/ws/new/g.txt" := File (Some (py "x"))]>
       (<[py "/ws/new" := Dir]> (one_file (py "foo"))) !! py "/ws/f.txt"
     = one_file (py "foo") !! py "/ws/f.txt"
     ∨ (one_file (py "foo") !! py "/ws/f.txt" = None
        ∧ <[py "/ws/new/g.txt" := File (Some (py "x"))]>
            (<[py "/ws/new" := Dir]> (one_file (py "foo"))) !! py "/ws/f.txt"
          = Some Dir)).
Proof.
  assert (_resolve_and_check_path (Some (py "/ws")) (one_file (py "foo"))
            (JStr (py "new/g.txt"))
          = Return (py "/ws/new/g.txt", None)) as H1 by (vm_compute; reflexivity).
  assert (write_file (Some (py "/ws")) (JStr (py "new/g.txt")) (JStr (py "x"))
            (one_file (py "foo"))
          = (Return (Success (Written (py "new/g.txt"))),
             <[py "/ws/new/g.txt" := File (Some (py "x"))]>
               (<[py "/ws/new" := Dir]> (one_file (py "foo"))))) as H2
    by (vm_compute; reflexivity).
  assert (py "/ws/f.txt" ≠ realpath (one_file (py "foo")) (py "/ws/new/g.txt")) as H3
    by (vm_compute; discriminate).
  split; [exact H1|]. split; [exact H2|]. split; [exact H3|].
  exact (write_file_is_confined _ _ _ _ _ _ _ H1 H2 _ H3).
Defined.

Lemma delete_then_read_witness :
  delete_file (Some (py "/ws")) (JStr (py "f.txt")) (one_file (py "foo"))
    = (Return (Success (Deleted (py "f.txt"))),
       delete (py "/ws/f.txt") (one_file (py "foo")))
  ∧ read_file (Some (py "/ws")) (JStr (py "f.txt"))
      (delete (py "/ws/f.txt") (one_file (py "foo")))
    = (Return (Failure (FileNotFound (py "f.txt"))),
       delete (py "/ws/f.txt") (one_file (py "foo")))
  ∧ delete_file (Some (py "/ws")) (JStr (py "f.txt"))
      (delete (py "/ws/f.txt") (one_file (py "foo")))
    = (Return (Failure (FileNotFound (py "f.txt"))),
       delete (py "/ws/f.txt") (one_file (py "foo")))
  ∧ ∃ full_path,
      _resolve_and_check_path (Some (py "/ws")) (one_file (py "foo")) (JStr (py "f.txt"))
      = Return (full_path, None)
      ∧ delete (py "/ws/f.txt") (one_file (py "foo"))
        = delete (realpath (one_file (py "foo")) full_path) (one_file (py "foo")).
Proof.
  assert (delete_file (Some (py "/ws")) (JStr (py "f.txt")) (one_file (py "foo"))
          = (Return (Success (Deleted (py "f.txt"))),
             delete (py "/ws/f.txt") (one_file (py "foo")))) as H
    by (vm_compute; reflexivity).
  split; [exact H|].
  exact (delete_then_read _ _ _ _ _ H).
Defined.

Lemma create_directory_again_witness :
  create_directory (Some (py "/ws")) (JStr (py "a/b")) (one_file (py "foo"))
    = (Return (Success (DirectoryCreated (py "a/b"))),
       <[py "/ws/a/b" := Dir]> (<[py "/ws/a" := Dir]> (one_file (py "foo"))))
  ∧ adds_directories (one_file (py "foo"))
      (<[py "/ws/a/b" := Dir]> (<[py "/ws/a" := Dir]> (one_file (py "foo"))))
  ∧ create_directory (Some (py "/ws")) (JStr (py "a/b"))
      (<[py "/ws/a/b" := Dir]> (<[py "/ws/a" := Dir]> (one_file (py "foo"))))
    = (Return (Success (DirectoryCreated (py "a/b"))),
       <[py "/ws/a/b" := Dir]> (<[py "/ws/a" := Dir]> (one_file (py "foo")))).
Proof.
  assert (create_directory (Some (py "/ws")) (JStr (py "a/b")) (one_file (py "foo"))
          = (Return (Success (DirectoryCreated (py "a/b"))),
             <[py "/ws/a/b" := Dir]> (<[py "/ws/a" := Dir]> (one_file (py "foo"))))) as H
    by (vm_compute; reflexivity).
  split; [exact H|].
  exact (create_directory_again _ _ _ _ _ H).
Defined.

Lemma edit_is_all_or_nothing_witness :
  (∀ rb, JStr (py "ee") = JStr rb → encodable rb)
  ∧ apply_file_edit (Some (py "/ws")) (JStr (py "f.txt")) (JStr (py "oo")) (JStr (py "ee"))
    (one_file (py "foo"))
  = (Return (Success EditedExact), one_file (py "fee"))
  ∧ ((one_file (py "fee") = one_file (py "foo")
      ∧ ∀ m, Return (Success EditedExact) ≠ Return (Success m))
     ∨ ∃ full_path final_content m,
         _resolve_and_check_path (Some (py "/ws")) (one_file (py "foo")) (JStr (py "f.txt"))
         = Return (full_path, None)
         ∧ Return (Success EditedExact) = Return (Success m)
         ∧ (m = EditedExact ∨ m = EditedFuzzy)
         ∧ one_file (py "fee")
           = <[realpath (one_file (py "foo")) full_path := File (Some final_content)]>
               (one_file (py "foo"))).
Proof.
  assert (apply_file_edit (Some (py "/ws")) (JStr (py "f.txt")) (JStr (py "oo"))
            (JStr (py "ee")) (one_file (py "foo"))
          = (Return (Success EditedExact), one_file (py "fee"))) as H
    by (vm_compute; reflexivity).
  assert (∀ rb, JStr (py "ee") = JStr rb → encodable rb) as H0
    by (intros rb [= <-]; repeat constructor; left; reflexivity).
  split; [exact H0|]. split; [exact H|].
  exact (edit_is_all_or_nothing _ _ _ _ _ _ _ H0 H).
Defined.

End FileOperations.

(** ** The patch engine: what an edit does to the text *)

Module EditOutcomes.
Import PyStr OS WorkspaceManager PyStrFacts Spec Samples.

(** *** Strategy A: the one occurrence *)

(** [replace(old, new, 1)] rewrites the leftmost occurrence and keeps what
    is before and after it. *)
Lemma replace1_first (s old new : text) :
  contains old s = true →
  ∃ pre post,
    s = pre ++ old ++ post
    ∧ replace1 s old new = pre ++ new ++ post
    ∧ ∀ i, i < length pre → startswith (drop i s) old = false.
Proof.
  induction s as [|c s IH]; cbn [contains replace1].
  - rewrite orb_false_r. intros Hold. rewrite Hold.
    apply startswith_prefix, prefix_nil_inv in Hold as ->.
    exists [], []. repeat split. intros i Hi. simpl in Hi. lia.
  - destruct (startswith (c :: s) old) eqn:Hstart.
    + intros _. exists [], (drop (length old) (c :: s)).
      apply startswith_prefix in Hstart as [post Hpost].
      rewrite Hpost, drop_app_length. repeat split.
      intros i Hi. simpl in Hi. lia.
    + cbn [orb]. intros (pre & post & Hs & Hrep & Hleft)%IH.
      exists (c :: pre), post. rewrite Hrep. split; [by rewrite Hs|]. split; [done|].
      intros [|i] Hi; [done|]. cbn [drop]. apply Hleft. simpl in Hi. lia.
Qed.

(** Counting with a number of characters still to skip. *)
Lemma count_from_skip (sub s : text) (skip : nat) :
  count_from sub skip s = count_from sub 0 (drop skip s).
Proof.
  revert skip. induction s as [|c s IH]; intros [|k]; try done.
  cbn [count_from drop]. apply IH.
Qed.

(** After the leftmost occurrence the count goes on behind it. *)
Lemma count_from_leftmost (sub pre post : text) :
  sub ≠ [] →
  (∀ i, i < length pre → startswith (drop i (pre ++ sub ++ post)) sub = false) →
  count_from sub 0 (pre ++ sub ++ post) = S (count_from sub 0 post).
Proof.
  intros Hsub. induction pre as [|c pre IH]; intros Hleft.
  - destruct sub as [|a sub]; [done|]. cbn [app count_from].
    assert (startswith (a :: sub ++ post) (a :: sub) = true) as ->.
    { apply startswith_prefix. by exists post. }
    rewrite count_from_skip.
    replace (length (a :: sub) - 1) with (length sub) by (simpl; lia).
    by rewrite drop_app_length.
  - pose proof (Hleft 0 ltac:(simpl; lia)) as H0. cbn [drop app] in H0.
    cbn [app count_from]. rewrite H0.
    apply IH. intros i Hi. apply (Hleft (S i)). simpl. lia.
Qed.

Lemma contains_count_from (sub s : text) :
  sub ≠ [] → contains sub s = true → 0 < count_from sub 0 s.
Proof.
  intros Hsub (pre & post & -> & _ & Hleft)%(replace1_first _ _ []).
  rewrite count_from_leftmost by done. lia.
Qed.

(** An exact match that [str.count] finds once: the edit rewrites
    the leftmost occurrence of [search_block], keeps the text before and
    after it character by character, and the text after it holds no
    further occurrence. *)
Theorem exact_edit_replaces_the_first_occurrence
    (original_content search_block replace_block : text) :
  search_block ≠ [] →
  contains search_block original_content = true →
  count original_content search_block ≤ 1 →
  ∃ pre post,
    original_content = pre ++ search_block ++ post
    ∧ (∀ i, i < length pre → ¬ search_block `prefix_of` drop i original_content)
    ∧ contains search_block post = false
    ∧ edit_text original_content (JStr search_block) (JStr replace_block)
      = Return (Rewrite (pre ++ replace_block ++ post) EditedExact).
Proof.
  intros Hsub Hcontains Hcount.
  destruct (replace1_first _ _ replace_block Hcontains) as (pre & post & Hs & Hrep & Hleft).
  exists pre, post. split; [done|]. split; [|split].
  - intros i Hi Hprefix%startswith_prefix. by rewrite Hleft in Hprefix.
  - apply not_true_is_false. intros Hpost%(contains_count_from _ _ Hsub).
    unfold count in Hcount. destruct search_block as [|a sub] eqn:Hsb; [done|].
    rewrite <- Hsb in *. rewrite Hs in Hcount, Hleft.
    rewrite (count_from_leftmost _ _ _ Hsub Hleft) in Hcount. lia.
  - unfold edit_text, exact_match. rewrite Hcontains.
    apply Nat.le_ngt, Nat.ltb_nlt in Hcount as ->. by rewrite Hrep.
Qed.

Lemma exact_edit_replaces_the_first_occurrence_witness :
  py "aa" ≠ []
  ∧ contains (py "aa") (py "baaab") = true
  ∧ count (py "baaab") (py "aa") ≤ 1
  ∧ ∃ pre post,
      py "baaab" = pre ++ py "aa" ++ post
      ∧ (∀ i, i < length pre → ¬ py "aa" `prefix_of` drop i (py "baaab"))
      ∧ contains (py "aa") post = false
      ∧ edit_text (py "baaab") (JStr (py "aa")) (JStr (py "X"))
        = Return (Rewrite (pre ++ py "X" ++ post) EditedExact).
Proof.
  assert (py "aa" ≠ []) as H1 by discriminate.
  assert (contains (py "aa") (py "baaab") = true) as H2 by (vm_compute; reflexivity).
  assert (count (py "baaab") (py "aa") ≤ 1) as H3 by (vm_compute; lia).
  split; [exact H1|]. split; [exact H2|]. split; [exact H3|].
  exact (exact_edit_replaces_the_first_occurrence _ _ (py "X") H1 H2 H3).
Defined.

(** *** The failures of an edit *)

Lemma edit_text_rejects (original_content : text) (search_block replace_block : json)
    (e : error) :
  edit_text original_content search_block replace_block = Return (Reject e) →
  e = AmbiguousExact ∨ e = MatchNotFound ∨ ∃ n, e = AmbiguousFuzzy n ∧ 2 ≤ n.
Proof.
  unfold edit_text, exact_match, fuzzy_match.
  destruct search_block as [| | |sb| |]; try done.
  destruct (contains sb original_content) eqn:Hcontains.
  - destruct (1 <? count original_content sb).
    + intros [= <-]. by left.
    + by destruct replace_block.
  - case_bool_decide as Hempty.
    { rewrite length_map in Hempty. apply nil_length_inv in Hempty.
      destruct sb as [|c sb]; [by rewrite contains_nil in Hcontains|].
      by apply splitlines_nonempty in Hempty. }
    destruct (scan _ _) as [|i [|j l]].
    + intros [= <-]. right. by left.
    + destruct (splitlines original_content !! i); [|done]. by destruct replace_block.
    + intros [= <-]. right. right. eexists. split; [done|]. simpl. lia.
Qed.

(** Every failure [apply_file_edit] returns is one of: no workspace, a
    path outside it, no such file, an exception while reading, matching or
    writing, an ambiguous exact match, no match, or an ambiguous fuzzy match
    with at least two candidate windows.  The failure for an empty search
    block is never among them: a block without lines is the empty string,
    which strategy A has already found. *)
Theorem edit_failures (workspace_path : option text)
    (path search_block replace_block : json) (fs fs' : store) (e : error) :
  apply_file_edit workspace_path path search_block replace_block fs
  = (Return (Failure e), fs') →
  e ≠ EmptySearch
  ∧ (e = WorkspaceNotSet
     ∨ (∃ p, e = SecurityError p)
     ∨ (∃ p, e = FileNotFound p)
     ∨ (∃ x, e = EditError x)
     ∨ e = AmbiguousExact
     ∨ e = MatchNotFound
     ∨ ∃ n, e = AmbiguousFuzzy n ∧ 2 ≤ n).
Proof.
  intros Hcall.
  cut (e = WorkspaceNotSet
       ∨ (∃ p, e = SecurityError p)
       ∨ (∃ p, e = FileNotFound p)
       ∨ (∃ x, e = EditError x)
       ∨ e = AmbiguousExact
       ∨ e = MatchNotFound
       ∨ ∃ n, e = AmbiguousFuzzy n ∧ 2 ≤ n).
  { intros H. split; [|exact H].
    destruct H as [->|[[p ->]|[[p ->]|[[x ->]|[->|[->|(n & -> & _)]]]]]]; discriminate. }
  revert Hcall. unfold apply_file_edit, _resolve_and_check_path.
  destruct workspace_path as [[|c wp]|].
  - intros [= <- _]. by left.
  - destruct path as [| | |p| |]; try discriminate. cbn zeta.
    destruct (negb (startswith _ _)).
    { intros [= <- _]. right. left. by eexists. }
    destruct (negb (path_exists fs _)).
    { intros [= <- _]. do 2 right. left. by eexists. }
    destruct (read_text fs _) as [original_content|x].
    2:{ intros [= <- _]. do 3 right. left. by eexists. }
    destruct (edit_text original_content search_block replace_block)
      as [[error|final_content m]|x] eqn:Hedit.
    + intros [= <- _]. apply edit_text_rejects in Hedit.
      destruct Hedit as [->|[->|Hn]]; [do 4 right; by left|do 5 right; by left|].
      do 6 right. exact Hn.
    + destruct (open_w fs _); [discriminate|].
      intros [= <- _]. do 3 right. left. by eexists.
    + intros [= <- _]. do 3 right. left. by eexists.
  - intros [= <- _]. by left.
Qed.

Lemma edit_failures_witness :
  apply_file_edit (Some (py "/ws")) (JStr (py "f.txt")) (JStr (py "
")) (JStr (py "x")) (one_file (py "foo"))
  = (Return (Failure MatchNotFound), one_file (py "foo"))
  ∧ MatchNotFound ≠ EmptySearch
  ∧ (MatchNotFound = WorkspaceNotSet
     ∨ (∃ p, MatchNotFound = SecurityError p)
     ∨ (∃ p, MatchNotFound = FileNotFound p)
     ∨ (∃ x, MatchNotFound = EditError x)
     ∨ MatchNotFound = AmbiguousExact
     ∨ MatchNotFound = MatchNotFound
     ∨ ∃ n, MatchNotFound = AmbiguousFuzzy n ∧ 2 ≤ n).
Proof.
  assert (apply_file_edit (Some (py "/ws")) (JStr (py "f.txt")) (JStr (py "
")) (JStr (py "x")) (one_file (py "foo"))
          = (Return (Failure MatchNotFound), one_file (py "foo"))) as H
    by (vm_compute; reflexivity).
  split; [exact H|].
  exact (edit_failures _ _ _ _ _ _ _ H).
Defined.

(** *** Strategy B: the lines of the edited file *)

Lemma splitlines_line (l s : text) :
  Forall (λ c, is_linebreak c = false) l →
  splitlines (l ++ LF :: s) = l :: splitlines s.
Proof.
  induction 1 as [|c l Hc _ IH]; [done|].
  cbn [app splitlines]. by rewrite Hc, IH.
Qed.

Lemma splitlines_single (l : text) :
  l ≠ [] → Forall (λ c, is_linebreak c = false) l → splitlines l = [l].
Proof.
  intros Hne Hl. induction Hl as [|c l Hc Hl IH]; [done|].
  cbn [splitlines]. rewrite Hc.
  destruct l as [|c' l]; [done|]. by rewrite IH.
Qed.

(** Lines joined by newlines split into the same lines again, when the
    last one is not empty. *)
Lemma splitlines_join (lines : list text) :
  Forall (Forall (λ c, is_linebreak c = false)) lines →
  (∀ l, last lines = Some l → l ≠ []) →
  splitlines (join [LF] lines) = lines.
Proof.
  induction 1 as [|l lines Hl Hlines IH]; intros Hlast; [done|].
  destruct lines as [|l' lines].
  - cbn [join]. apply splitlines_single; [by apply Hlast|done].
  - rewrite PathSandbox.join_cons by done.
    change ([LF] ++ ?s) with (LF :: s).
    rewrite splitlines_line by done. f_equal. apply IH. exact Hlast.
Qed.

Lemma nil_is_nil : bool_decide (¬ @eq text [] []) = false.
Proof. apply bool_decide_eq_false_2. intros H. by apply H. Qed.

Lemma join_nonempty (sep : text) (lines : list text) (l : text) :
  last lines = Some l → l ≠ [] → join sep lines ≠ [].
Proof.
  intros Hlast Hl Hjoin. pose proof (last_join sep lines l Hlast Hl) as H.
  rewrite Hjoin in H. destruct l using rev_ind; [done|]. by rewrite last_snoc in H.
Qed.

Lemma last_no_linebreak (lines : list text) (l : text) :
  Forall (Forall (λ c, is_linebreak c = false)) lines →
  last lines = Some l → l ≠ [] →
  endswith (join [LF] lines) [LF] = false.
Proof.
  intros Hlines Hlast Hl. apply not_true_is_false. rewrite endswith_last.
  rewrite (last_join _ _ l Hlast Hl). intros Hend%last_Some_elem_of.
  apply last_Some_elem_of in Hlast.
  rewrite Forall_forall in Hlines. apply Hlines in Hlast.
  rewrite Forall_forall in Hlast. by apply Hlast in Hend.
Qed.

(** With exactly one candidate window, an indented matched line and a
    replacement whose first line starts with no white space, the edited file
    consists of the lines before the window, the lines of the replacement,
    each behind the indentation of the matched line, and the lines after the
    window: the edit changes no line outside the window.  (The lines before
    the window are not a single blank line, and the file does not end with
    a blank line.) *)
Theorem fuzzy_edit_replaces_the_window
    (original_content search_block replace_block : text) (start_index : nat)
    (matched_line : text) :
  contains search_block original_content = false →
  scan (map strip (splitlines original_content)) (map strip (splitlines search_block))
    = [start_index] →
  splitlines original_content !! start_index = Some matched_line →
  indent_of matched_line ≠ [] →
  (∃ first rest, splitlines replace_block = first :: rest ∧ lstrip first = first) →
  (take start_index (splitlines original_content) = []
   ∨ join [LF] (take start_index (splitlines original_content)) ≠ []) →
  (∀ l, last (splitlines original_content) = Some l → l ≠ []) →
  ∃ final_content,
    edit_text original_content (JStr search_block) (JStr replace_block)
    = Return (Rewrite final_content EditedFuzzy)
    ∧ splitlines final_content
      = take start_index (splitlines original_content)
        ++ map (λ line, indent_of matched_line ++ line) (splitlines replace_block)
        ++ drop (start_index + length (splitlines search_block))
             (splitlines original_content).
Proof.
  intros Hnot Hunique Hline Hindent (first & rest & Hsplit & Hfirst) Hbefore Hlastline.
  eexists. split; [by apply PatchEngine.unique_fuzzy_match|].
  set (file_lines := splitlines original_content) in *.
  set (before := take start_index file_lines) in *.
  set (after := drop (start_index + length (splitlines search_block)) file_lines).
  set (indent := indent_of matched_line) in *.
  set (block_lines := map (λ line, indent ++ line) (splitlines replace_block)).
  pose proof (splitlines_no_linebreak original_content) as Hlines.
  fold file_lines in Hlines.
  assert (Forall (λ c, is_linebreak c = false) indent) as Hindent_plain.
  { unfold indent, indent_of. apply Forall_take.
    apply list_elem_of_lookup_2 in Hline.
    by rewrite Forall_forall in Hlines; apply Hlines. }
  assert (Forall (Forall (λ c, is_linebreak c = false)) block_lines) as Hblock_plain.
  { unfold block_lines. rewrite Forall_map. eapply Forall_impl.
    - apply (splitlines_no_linebreak replace_block).
    - intros l Hl. cbn. by apply Forall_app. }
  assert (∃ l, last block_lines = Some l ∧ l ≠ []) as (last_block & Hlast_block & Hlast_ne).
  { unfold block_lines. rewrite last_map. rewrite Hsplit.
    destruct (last (first :: rest)) as [l|] eqn:Hl; [|by apply last_None in Hl].
    exists (indent ++ l).
    split; [exact (f_equal (fmap (λ line : text, indent ++ line)) Hl)|].
    intros [Heq _]%app_eq_nil. by apply Hindent. }
  assert (block_lines ≠ []) as Hblock_ne by (intros Heq; by rewrite Heq in Hlast_block).
  assert (corrected indent replace_block = join [LF] block_lines) as ->.
  { unfold corrected. rewrite Hsplit.
    destruct indent as [|c ind] eqn:Hind; [done|].
    destruct (lstrip_fixed _ Hfirst) as [-> ->]. cbn [negb andb].
    unfold block_lines. by rewrite Hsplit. }
  assert (after = [] ∨ ∃ l, last after = Some l ∧ l ≠ []) as Hafter.
  { destruct (last after) as [l|] eqn:Hl; [|left; by apply last_None].
    right. exists l. split; [done|]. apply Hlastline.
    unfold after in Hl. rewrite <- (take_drop (start_index + length (splitlines search_block))
                                      file_lines).
    by rewrite last_app, Hl. }
  assert (Forall (Forall (λ c, is_linebreak c = false)) before) as Hbefore_plain
    by by apply Forall_take.
  assert (Forall (Forall (λ c, is_linebreak c = false)) after) as Hafter_plain
    by by apply Forall_drop.
  assert (reconstruct file_lines start_index
            (start_index + length (splitlines search_block)) (join [LF] block_lines)
          = join [LF] (before ++ block_lines ++ after)) as ->.
  { unfold reconstruct. fold before after.
    rewrite (last_no_linebreak _ _ Hblock_plain Hlast_block Hlast_ne). cbn [negb andb].
    rewrite (bool_decide_eq_true_2 (join [LF] block_lines ≠ []))
      by by eapply join_nonempty.
    destruct Hbefore as [->|Hb], Hafter as [->|(l & Hl & Hlne)]; cbn [join].
    - rewrite !nil_is_nil. cbn [app]. by rewrite !app_nil_r.
    - rewrite nil_is_nil, bool_decide_eq_true_2 by by eapply join_nonempty.
      cbn [app]. rewrite PathSandbox.join_app; [done|done|].
      intros Heq. by rewrite Heq in Hl.
    - rewrite nil_is_nil, bool_decide_eq_true_2 by done. rewrite !app_nil_r.
      rewrite PathSandbox.join_app; [by rewrite <- app_assoc| |done].
      intros Heq. by rewrite Heq in Hb.
    - assert (before ≠ []) as Hb' by (intros Heq; by rewrite Heq in Hb).
      assert (after ≠ []) as Ha' by (intros Heq; by rewrite Heq in Hl).
      assert (block_lines ++ after ≠ []) as Hba by (by intros [Heq _]%app_eq_nil).
      rewrite !bool_decide_eq_true_2; [|by eapply join_nonempty|done].
      rewrite (PathSandbox.join_app _ before) by done.
      rewrite (PathSandbox.join_app _ block_lines) by done.
      by rewrite <- !app_assoc. }
  apply splitlines_join.
  - apply Forall_app. split; [done|]. by apply Forall_app.
  - intros l Hl0. destruct Hafter as [Ha|(l' & Hl' & Hlne)].
    + rewrite Ha, app_nil_r in Hl0. apply last_Some in Hlast_block as [bl' Hbl].
      rewrite Hbl, app_assoc, last_snoc in Hl0. by injection Hl0 as <-.
    + apply last_Some in Hl' as [a' Ha'].
      rewrite Ha', !app_assoc, last_snoc in Hl0. by injection Hl0 as <-.
Qed.

Lemma fuzzy_edit_replaces_the_window_witness :
  contains (py "bar ") indented = false
  ∧ scan (map strip (splitlines indented)) (map strip (splitlines (py "bar "))) = [1]
  ∧ splitlines indented !! 1 = Some (py "    bar")
  ∧ indent_of (py "    bar") ≠ []
  ∧ (∃ first rest, splitlines (py "bar2
qux") = first :: rest ∧ lstrip first = first)
  ∧ (take 1 (splitlines indented) = [] ∨ join [LF] (take 1 (splitlines indented)) ≠ [])
  ∧ (∀ l, last (splitlines indented) = Some l → l ≠ [])
  ∧ ∃ final_content,
      edit_text indented (JStr (py "bar ")) (JStr (py "bar2
qux")) = Return (Rewrite final_content EditedFuzzy)
      ∧ splitlines final_content
        = take 1 (splitlines indented)
          ++ map (λ line, indent_of (py "    bar") ++ line) (splitlines (py "bar2
qux"))
          ++ drop (1 + length (splitlines (py "bar "))) (splitlines indented).
Proof.
  assert (contains (py "bar ") indented = false) as H1 by (vm_compute; reflexivity).
  assert (scan (map strip (splitlines indented)) (map strip (splitlines (py "bar "))) = [1])
    as H2 by (vm_compute; reflexivity).
  assert (splitlines indented !! 1 = Some (py "    bar")) as H3 by (vm_compute; reflexivity).
  assert (indent_of (py "    bar") ≠ []) as H4 by (vm_compute; discriminate).
  assert (∃ first rest, splitlines (py "bar2
qux") = first :: rest ∧ lstrip first = first) as H5
    by (eexists _, _; split; vm_compute; reflexivity).
  assert (take 1 (splitlines indented) = [] ∨ join [LF] (take 1 (splitlines indented)) ≠ [])
    as H6 by (right; vm_compute; discriminate).
  assert (∀ l, last (splitlines indented) = Some l → l ≠ []) as H7
    by (intros l; vm_compute; intros [= <-]; discriminate).
  repeat (split; [assumption|]).
  exact (fuzzy_edit_replaces_the_window _ _ _ _ _ H1 H2 H3 H4 H5 H6 H7).
Defined.
End EditOutcomes.

(** ** Tool calls and the translation for Google *)

Module ToolCalls.
Import PyStr ToolExecutor Spec Samples MoreSamples.



(** An operation that raises is turned into a failure by the dispatcher. *)
Example raising_tool_is_contained :
  process_tool_call raising_tools loads_empty OpenAICompatible
    {| tc_id := py "call_0"; tc_name := py "boom"; tc_arguments := py "{}" |} ∅
  = (Return (Failure (ToolError (py "boom") LoopError), Some (py "boom"), Some (py "call_0")),
     ∅).
Proof. vm_compute. reflexivity. Qed.
End ToolCalls.

Module Translation.
Import APIClient Spec Samples TranslationNotions MoreSamples.

Section Translate.
Variable json_loads : text → option json.



Lemma coalesce_total (transformed : list entry) :
  ∃ final, coalesce transformed = Some final ∧ Coalesced transformed final.
Proof.
  destruct (Coalescing.coalesce_from_spec transformed (S (length transformed)) []
              transformed []) as (out & Hout & Heq); [done|lia|].
  by exists out.
Qed.


(** Without a user message the prompt still to be sent plays no part. *)
Lemma per_message_no_user (system_prompt : text) (messages : list chat_message) :
  Forall (λ m, ¬ is_user m) messages →
  per_message json_loads system_prompt messages = per_message json_loads [] messages.
Proof.
  induction 1 as [|m rest Hm _ IH]; [done|]. cbn [per_message].
  destruct m as [c|c|c tcs|name content id]; rewrite ?IH; done.
Qed.

Lemma per_message_app (system_prompt : text) (pre post : list chat_message)
    (a : list entry) :
  Forall (λ m, ¬ is_user m) pre →
  per_message json_loads [] pre = Return a →
  per_message json_loads system_prompt (pre ++ post)
  = match per_message json_loads system_prompt post with
    | Return b => Return (a ++ b)
    | Raise e => Raise e
    end.
Proof.
  intros Hpre. revert a.
  induction Hpre as [|m pre Hm _ IH]; intros a; cbn [per_message app].
  - intros [= <-]. by destruct (per_message _ _ _).
  - destruct m as [c|c|c tcs|name content id].
    + apply IH.
    + by destruct Hm.
    + destruct (per_message json_loads [] pre) as [a'|]; [|done].
      intros [= <-]. rewrite (IH a') by done.
      by destruct (per_message json_loads system_prompt post).
    + destruct (json_loads content); [|done].
      destruct (per_message json_loads [] pre) as [a'|]; [|done].
      intros [= <-]. rewrite (IH a') by done.
      by destruct (per_message json_loads system_prompt post).
Qed.

(** The system prompt of a history is sent once: in front of the first
    user message, under the task header.  Every other message is
    translated as in a history without a system prompt; and when there is
    no user message the prompt is not sent at all, the translation being the
    same whatever the prompt says. *)
Theorem system_prompt_goes_with_the_first_user_message
    (system_prompt content : text) (pre post : list chat_message) (a b : list entry) :
  system_prompt ≠ [] →
  Forall (λ m, ¬ is_user m) pre →
  per_message json_loads [] pre = Return a →
  per_message json_loads [] post = Return b →
  _transform_messages_for_google json_loads
    (SystemMessage system_prompt :: pre ++ UserMessage content :: post)
  = Return (coalesce (a ++ user_entry (under_system_prompt system_prompt content) :: b))
  ∧ ∀ other_prompt,
      _transform_messages_for_google json_loads (SystemMessage system_prompt :: pre)
      = _transform_messages_for_google json_loads (SystemMessage other_prompt :: pre).
Proof.
  intros Hsp Hpre Ha Hb. unfold _transform_messages_for_google. split.
  - cbn [per_message]. rewrite (per_message_app _ _ _ a Hpre Ha).
    cbn [per_message]. rewrite Hb. cbn [and_then].
    destruct system_prompt; [done|]. reflexivity.
  - intros other_prompt. cbn [per_message].
    by rewrite (per_message_no_user system_prompt), (per_message_no_user other_prompt).
Qed.
End Translate.


Lemma system_prompt_goes_with_the_first_user_message_witness :
  py "Be brief." ≠ []
  ∧ Forall (λ m, ¬ is_user m) [AssistantMessage (Some (py "hello")) None]
  ∧ per_message loads_empty [] [AssistantMessage (Some (py "hello")) None]
    = Return [{| entry_role := model; entry_parts := [TextPart (Some (py "hello"))] |}]
  ∧ per_message loads_empty [] [UserMessage (py "more")]
    = Return [user_entry (py "more")]
  ∧ _transform_messages_for_google loads_empty
      (SystemMessage (py "Be brief.")
       :: [AssistantMessage (Some (py "hello")) None]
       ++ UserMessage (py "go") :: [UserMessage (py "more")])
    = Return (coalesce
                ([{| entry_role := model; entry_parts := [TextPart (Some (py "hello"))] |}]
                 ++ user_entry (under_system_prompt (py "Be brief.") (py "go"))
                 :: [user_entry (py "more")]))
  ∧ ∀ other_prompt,
      _transform_messages_for_google loads_empty
        (SystemMessage (py "Be brief.") :: [AssistantMessage (Some (py "hello")) None])
      = _transform_messages_for_google loads_empty
          (SystemMessage other_prompt :: [AssistantMessage (Some (py "hello")) None]).
Proof.
  assert (py "Be brief." ≠ []) as H1 by discriminate.
  assert (Forall (λ m, ¬ is_user m) [AssistantMessage (Some (py "hello")) None]) as H2
    by (repeat constructor; intros []).
  assert (per_message loads_empty [] [AssistantMessage (Some (py "hello")) None]
          = Return [{| entry_role := model; entry_parts := [TextPart (Some (py "hello"))] |}])
    as H3 by reflexivity.
  assert (per_message loads_empty [] [UserMessage (py "more")]
          = Return [user_entry (py "more")]) as H4 by reflexivity.
  split; [exact H1|]. split; [exact H2|]. split; [exact H3|]. split; [exact H4|].
  exact (system_prompt_goes_with_the_first_user_message loads_empty _ (py "go") _ _ _ _
           H1 H2 H3 H4).
Defined.

(** *** What the coalescing pass keeps *)

Lemma coalesced_head (l l' : list entry) :
  Coalesced l l' →
  (∀ e, head l = Some e → entry_role e ≠ function) →
  ∀ e, head l' = Some e → entry_role e ≠ function.
Proof.
  destruct 1 as [|e l l' He _|run rest rest' Hne Hrun _ _]; intros Hhead; [done| |].
  - by intros ? [= <-].
  - destruct Hrun as [|e run He _]; [done|]. by destruct (Hhead e).
Qed.

Lemma coalesced_separated (l l' : list entry) : Coalesced l l' → separated l'.
Proof.
  induction 1 as [|e l l' He Hc IH|run rest rest' Hne Hrun Hrest Hc IH].
  - by intros i e1 e2 ?.
  - intros [|i] e1 e2; cbn.
    + by intros [= <-].
    + apply IH.
  - intros [|i] e1 e2; cbn.
    + intros _ H2 _. apply (coalesced_head _ _ Hc Hrest).
      by destruct rest'; simplify_eq/=.
    + apply IH.
Qed.

Lemma coalesced_parts (l l' : list entry) :
  Coalesced l l' → concat (map entry_parts l') = concat (map entry_parts l).
Proof.
  induction 1 as [|e l l' He Hc IH|run rest rest' Hne Hrun Hrest Hc IH]; [done| |].
  - cbn. by rewrite IH.
  - rewrite map_app, concat_app. cbn. by rewrite IH.
Qed.

Lemma coalesced_others (l l' : list entry) :
  Coalesced l l' →
  filter (λ e, entry_role e ≠ function) l' = filter (λ e, entry_role e ≠ function) l.
Proof.
  induction 1 as [|e l l' He Hc IH|run rest rest' Hne Hrun Hrest Hc IH]; [done| |].
  - rewrite !filter_cons, !decide_True by done. by rewrite IH.
  - rewrite filter_app, filter_cons, decide_False by (cbn; by intros H; apply H).
    rewrite IH.
    assert (filter (λ e, entry_role e ≠ function) run = []) as ->; [|done].
    clear Hne. induction Hrun as [|e run He _ IHrun]; [done|].
    by rewrite filter_cons, decide_False by (by intros H; apply H).
Qed.

(** What is sent to Google never has two [function] entries in a row; the
    parts of the translated messages are all sent, in their order, and the
    entries of the user and of the model are sent as they were translated. *)
Theorem translation_separates_function_entries (json_loads : text → option json)
    (messages : list chat_message) (final : list entry) :
  _transform_messages_for_google json_loads messages = Return (Some final) →
  separated final
  ∧ ∃ transformed,
      per_message json_loads
        match messages with
        | SystemMessage content :: _ => content
        | _ => []
        end messages = Return transformed
      ∧ concat (map entry_parts final) = concat (map entry_parts transformed)
      ∧ filter (λ e, entry_role e ≠ function) final
        = filter (λ e, entry_role e ≠ function) transformed.
Proof.
  unfold _transform_messages_for_google.
  destruct (per_message _ _ _) as [transformed|]; [|done].
  destruct (coalesce_total transformed) as (final' & -> & Hc). intros [= <-].
  split; [by eapply coalesced_separated|].
  exists transformed. split; [done|]. split.
  - by apply coalesced_parts.
  - by apply coalesced_others.
Qed.

Lemma translation_separates_function_entries_witness :
  _transform_messages_for_google loads_empty two_results
  = Return (Some
      [ user_entry (under_system_prompt (py "You are an agent.") (py "go"));
        {| entry_role := model;
           entry_parts := [FunctionCallPart (py "read_file") (JObj []);
                           FunctionCallPart (py "list_files") (JObj [])] |};
        {| entry_role := function;
           entry_parts := [FunctionResponsePart (py "read_file") (JObj []);
                           FunctionResponsePart (py "list_files") (JObj [])] |};
        {| entry_role := model; entry_parts := [TextPart (Some (py "done"))] |} ])
  ∧ separated
      [ user_entry (under_system_prompt (py "You are an agent.") (py "go"));
        {| entry_role := model;
           entry_parts := [FunctionCallPart (py "read_file") (JObj []);
                           FunctionCallPart (py "list_files") (JObj [])] |};
        {| entry_role := function;
           entry_parts := [FunctionResponsePart (py "read_file") (JObj []);
                           FunctionResponsePart (py "list_files") (JObj [])] |};
        {| entry_role := model; entry_parts := [TextPart (Some (py "done"))] |} ].
Proof.
  assert (_transform_messages_for_google loads_empty two_results
          = Return (Some
              [ user_entry (under_system_prompt (py "You are an agent.") (py "go"));
                {| entry_role := model;
                   entry_parts := [FunctionCallPart (py "read_file") (JObj []);
                                   FunctionCallPart (py "list_files") (JObj [])] |};
                {| entry_role := function;
                   entry_parts := [FunctionResponsePart (py "read_file") (JObj []);
                                   FunctionResponsePart (py "list_files") (JObj [])] |};
                {| entry_role := model; entry_parts := [TextPart (Some (py "done"))] |} ]))
    as H by (vm_compute; reflexivity).
  split; [exact H|].
  exact (proj1 (translation_separates_function_entries _ _ _ H)).
Defined.
End Translation.

(** ** Turns of the autonomous loop, for any model *)

Module Turns.
Import PyStr ToolExecutor TextualCLI Spec Samples TurnNotions MoreSamples.

Section Turn.
Variable workspace_path : option text.
Variable active_provider : provider.
Variable json_loads : text → option json.
Variable json_dumps : json → text.
Variable result_dumps : result → text.
Variable get_response : nat → list chat_message → reply active_provider.

Abbreviation run_loop :=
  (autonomous_loop workspace_path active_provider json_loads json_dumps result_dumps
     get_response).
Abbreviation run_turn :=
  (process_bot_turn workspace_path active_provider json_loads json_dumps result_dumps
     get_response).

(** Whatever the model answers, the loop ends: the fuel of a whole turn is
    never used up.  The history only grows, and the loop has either gone
    through all the rounds that were left or was ended by a text or by a
    failed request. *)
Lemma loop_outcome (fuel : nat) :
  ∀ loop_count st,
    MAX_LOOPS - loop_count < fuel →
    ∃ st',
      run_loop fuel loop_count st = Some st'
      ∧ messages st `prefix_of` messages st'
      ∧ loaded_context st' = loaded_context st
      ∧ requests st ≤ requests st'
      ∧ requests st' ≤ requests st + (MAX_LOOPS - loop_count)
      ∧ (requests st' = requests st + (MAX_LOOPS - loop_count)
         ∨ ∃ n history,
             requests st' = S n ∧ requests st ≤ n
             ∧ messages st `prefix_of` history
             ∧ ends_the_turn (get_response n history) history (messages st')).
Proof.
  induction fuel as [|fuel IH]; intros loop_count st Hfuel; [lia|].
  destruct (decide (loop_count < MAX_LOOPS)) as [Hlt|Hge].
  - destruct (get_response (requests st) (messages st)) as [[tool_calls|content]| |e]
      eqn:Hreply.
    + destruct (Orchestration.tool_round_step workspace_path active_provider json_loads
                  json_dumps result_dumps get_response fuel loop_count st tool_calls
                  Hlt Hreply)
        as (st1 & results & -> & Hmessages & Hrequests & Hcontext & _).
      destruct (IH (loop_count + 1) st1) as (st' & -> & Hprefix & Hctx & Hle & Hbound & Hend);
        [lia|].
      exists st'. split; [done|].
      assert (messages st `prefix_of` messages st1) as Hgrow
        by (rewrite Hmessages; by eexists).
      split; [by etrans|]. split; [congruence|]. split; [lia|]. split; [lia|].
      destruct Hend as [Hall|(n & history & Hn & Hle' & Hhist & Hends)]; [left; lia|].
      right. exists n, history. split; [done|]. split; [lia|]. split; [by etrans|done].
    + cbn [autonomous_loop]. apply Nat.ltb_lt in Hlt as Hlt'. rewrite Hlt', Hreply.
      eexists. split; [done|]. cbn [append asked messages loaded_context requests].
      split; [by eexists|]. split; [done|]. split; [lia|]. split; [lia|].
      right. exists (requests st), (messages st). rewrite Hreply. by repeat split.
    + cbn [autonomous_loop]. apply Nat.ltb_lt in Hlt as Hlt'. rewrite Hlt', Hreply.
      eexists. split; [done|]. cbn [asked messages loaded_context requests].
      split; [done|]. split; [done|]. split; [lia|]. split; [lia|].
      right. exists (requests st), (messages st). rewrite Hreply. by repeat split.
    + cbn [autonomous_loop]. apply Nat.ltb_lt in Hlt as Hlt'. rewrite Hlt', Hreply.
      eexists. split; [done|]. cbn [asked messages loaded_context requests].
      split; [done|]. split; [done|]. split; [lia|]. split; [lia|].
      right. exists (requests st), (messages st). rewrite Hreply. by repeat split.
  - cbn [autonomous_loop]. apply Nat.ltb_nlt in Hge as Hge'. rewrite Hge'.
    exists st. split; [done|]. split; [done|]. split; [done|]. split; [lia|]. split; [lia|].
    left. lia.
Qed.

(** With a workspace set, a turn ends whatever the model answers (the
    model is any function of the request number and the history): at most
    [MAX_LOOPS] requests are sent, and the history the turn started with,
    after the injection of the loaded context, is a prefix of the history it
    leaves. *)
Theorem turn_ends_within_the_bound (c : char) (wp : text) (st : state) :
  workspace_path = Some (c :: wp) →
  ∃ st',
    run_turn st = Some st'
    ∧ requests st ≤ requests st'
    ∧ requests st' ≤ requests st + MAX_LOOPS
    ∧ messages (inject st) `prefix_of` messages st'
    ∧ length (messages st) ≤ length (messages st').
Proof.
  intros Hwp. unfold process_bot_turn. rewrite Hwp. cbv iota. rewrite <- Hwp.
  destruct (loop_outcome (S MAX_LOOPS) 0 (inject st))
    as (st' & Hrun & Hprefix & _ & Hle & Hbound & _); [lia|].
  exists st'. split; [done|].
  assert (requests (inject st) = requests st ∧ length (messages (inject st)) = length (messages st))
    as [Hreq Hlen].
  { unfold inject. destruct (loaded_context st) as [[|x ctx]|]; try done.
    destruct (last (messages st)) as [[| | |]|] eqn:Hlast; try done.
    cbn [requests messages]. split; [done|].
    apply last_Some in Hlast as [l' ->].
    rewrite removelast_last, !length_app. done. }
  rewrite Hreq in *. split; [done|]. split; [lia|]. split; [done|].
  rewrite <- Hlen. by apply prefix_length.
Qed.


(** The loaded context is used once: a turn that starts from a user message
    with a context loaded puts the context in front of that message and
    leaves no context behind, so that the next turn injects nothing. *)
Theorem loaded_context_is_used_once (c : char) (wp : text) (st : state)
    (x : char) (context last_user_message : text) :
  workspace_path = Some (c :: wp) →
  loaded_context st = Some (x :: context) →
  last (messages st) = Some (UserMessage last_user_message) →
  ∃ st',
    run_turn st = Some st'
    ∧ (removelast (messages st) ++ [with_context (x :: context) last_user_message])
        `prefix_of` messages st'
    ∧ loaded_context st' = None
    ∧ inject st' = st'.
Proof.
  intros Hwp Hcontext Hlast. unfold process_bot_turn. rewrite Hwp. cbv iota. rewrite <- Hwp.
  destruct (loop_outcome (S MAX_LOOPS) 0 (inject st))
    as (st' & -> & Hprefix & Hctx & _); [lia|].
  exists st'. split; [done|].
  unfold inject in Hprefix, Hctx. rewrite Hcontext, Hlast in Hprefix, Hctx.
  cbn [messages loaded_context] in Hprefix, Hctx.
  split; [done|]. split; [done|]. unfold inject. by rewrite Hctx.
Qed.
End Turn.

(** Without a workspace the turn sends no request, and the user message
    that [run] has just appended is taken off the history again. *)
Theorem turn_without_workspace_is_dropped (active_provider : provider)
    (json_loads : text → option json) (json_dumps : json → text)
    (result_dumps : result → text)
    (get_response : nat → list chat_message → reply active_provider)
    (st : state) (user_input : text) :
  process_bot_turn None active_provider json_loads json_dumps result_dumps get_response
    (append st (UserMessage user_input)) = Some st
  ∧ process_bot_turn (Some []) active_provider json_loads json_dumps result_dumps get_response
      (append st (UserMessage user_input)) = Some st.
Proof.
  destruct st as [ms fs ctx n]. unfold process_bot_turn, append.
  cbn [messages files loaded_context requests].
  by rewrite last_snoc, removelast_last.
Qed.


Lemma turn_ends_within_the_bound_witness :
  Some (py "/ws") = Some (47%N :: py "ws")
  ∧ ∃ st',
      process_bot_turn (Some (py "/ws")) Google loads_empty dumps_empty dumps_result
        keeps_listing session = Some st'
      ∧ requests session ≤ requests st'
      ∧ requests st' ≤ requests session + MAX_LOOPS
      ∧ messages (inject session) `prefix_of` messages st'
      ∧ length (messages session) ≤ length (messages st').
Proof.
  assert (Some (py "/ws") = Some (47%N :: py "ws")) as H1 by reflexivity.
  split; [exact H1|].
  exact (turn_ends_within_the_bound _ _ _ _ _ keeps_listing _ _ session H1).
Defined.
Lemma loaded_context_is_used_once_witness :
  Some (py "/ws") = Some (47%N :: py "ws")
  ∧ loaded_context session_with_context = Some (67%N :: py "ONTEXT")
  ∧ last (messages session_with_context) = Some (UserMessage (py "go"))
  ∧ ∃ st',
      process_bot_turn (Some (py "/ws")) OpenAICompatible loads_empty dumps_empty dumps_result
        says_done session_with_context = Some st'
      ∧ (removelast (messages session_with_context)
         ++ [with_context (67%N :: py "ONTEXT") (py "go")]) `prefix_of` messages st'
      ∧ loaded_context st' = None
      ∧ inject st' = st'.
Proof.
  assert (Some (py "/ws") = Some (47%N :: py "ws")) as H1 by reflexivity.
  assert (loaded_context session_with_context = Some (67%N :: py "ONTEXT")) as H2
    by reflexivity.
  assert (last (messages session_with_context) = Some (UserMessage (py "go"))) as H3
    by reflexivity.
  split; [exact H1|]. split; [exact H2|]. split; [exact H3|].
  exact (loaded_context_is_used_once _ _ loads_empty dumps_empty dumps_result says_done
           _ _ _ _ _ _ H1 H2 H3).
Defined.

(** *** The ids of a Google batch *)

Lemma py_inj (s1 s2 : string) : py s1 = py s2 → s1 = s2.
Proof.
  unfold py. intros H.
  rewrite <- (String.string_of_list_ascii_of_string s1),
          <- (String.string_of_list_ascii_of_string s2).
  f_equal. revert H.
  generalize (String.list_ascii_of_string s1) (String.list_ascii_of_string s2).
  induction l as [|a l IH]; intros [|b l']; try done. cbn [map].
  intros [= Hab Hl]. f_equal; [|by apply IH].
  by rewrite <- (Ascii.ascii_N_embedding a), <- (Ascii.ascii_N_embedding b), Hab.
Qed.

Lemma imap_ids (json_dumps : json → text) (calls : list function_call) (n : nat) :
  map tc_id
    (imap (λ i tc, {| tc_id := py "call_" ++ py (pretty (n + i));
                      tc_name := fc_name tc;
                      tc_arguments := json_dumps (default (JObj []) (fc_args tc)) |}) calls)
  = map (λ i, py "call_" ++ py (pretty i)) (seq n (length calls)).
Proof.
  revert n. induction calls as [|tc calls IH]; intros n; [done|].
  cbn [imap map seq length tc_id]. rewrite Nat.add_0_r. f_equal.
  rewrite <- IH. f_equal. apply imap_ext. intros i x _. cbn.
  by rewrite Nat.add_succ_r.
Qed.

(** The ids given to the calls of a Google batch are the positions in the
    batch: within one batch no two calls share an id, while two batches use
    the same ids again, so that an id identifies a call of the history only
    together with its batch. *)
Theorem google_call_ids_are_positions (json_dumps : json → text)
    (calls : list function_call) :
  map tc_id (openai_formatted_tool_calls Google json_dumps calls)
  = map (λ i, py "call_" ++ py (pretty i)) (seq 0 (length calls))
  ∧ NoDup (map tc_id (openai_formatted_tool_calls Google json_dumps calls)).
Proof.
  assert (map tc_id (openai_formatted_tool_calls Google json_dumps calls)
          = map (λ i, py "call_" ++ py (pretty i)) (seq 0 (length calls))) as Hids
    by apply (imap_ids json_dumps calls 0).
  split; [done|]. rewrite Hids.
  assert (Inj (=) (=) (λ i : nat, py "call_" ++ py (pretty i))) as Hinj.
  { intros i j Hij. apply app_inv_head in Hij. by apply py_inj, (inj pretty) in Hij. }
  apply (NoDup_fmap_2 _), NoDup_seq.
Qed.
End Turns.

(** ** The chat session: history and context *)

Module SessionState.
Import PyStr ChatSessionService SessionNotions MoreSamples.

(** *** The command history *)

Lemma py_index_in_range {A} (l : list A) (i : Z) :
  (0 ≤ i < Z.of_nat (length l))%Z → py_index l i = match l !! Z.to_nat i with
                                                     | Some x => Return x
                                                     | None => Raise IndexError
                                                     end.
Proof.
  intros Hi. unfold py_index.
  destruct (Z.ltb_spec i 0) as [?|_]; [lia|].
  by destruct (Z.ltb_spec i 0) as [?|_]; [lia|].
Qed.

Lemma get_previous_history_nonempty (s : session) :
  command_history s ≠ [] →
  get_previous_history s
  = let s' := set_history_index s
                (Z.min (history_index s + 1) (Z.of_nat (length (command_history s)) - 1)) in
    (match py_index (command_history s') (history_index s') with
     | Return item => Return (Some item)
     | Raise e => Raise e
     end, s').
Proof. unfold get_previous_history. by destruct (command_history s). Qed.

(** The command history holds no command twice, and the history index is
    [-1] or an index of the history: both are kept by the three operations
    on the history, and under them recalling an entry never fails. *)
Theorem command_history_invariant (s : session) (user_input : text) :
  NoDup (command_history s) →
  index_in_range s →
  (NoDup (command_history (add_to_command_history s user_input))
   ∧ index_in_range (add_to_command_history s user_input)
   ∧ user_input ∈ command_history (add_to_command_history s user_input))
  ∧ (∃ r, get_previous_history s = (Return r, (get_previous_history s).2)
          ∧ index_in_range (get_previous_history s).2
          ∧ command_history (get_previous_history s).2 = command_history s
          ∧ (command_history s ≠ [] →
             ∃ item, r = Some item
                     ∧ command_history s !! Z.to_nat (history_index (get_previous_history s).2)
                       = Some item))
  ∧ (∃ r, get_next_history s = (Return r, (get_next_history s).2)
          ∧ index_in_range (get_next_history s).2
          ∧ command_history (get_next_history s).2 = command_history s).
Proof.
  intros Hnodup [Hlo Hhi]. unfold index_in_range. split; [|split].
  - unfold add_to_command_history. cbn [command_history history_index].
    case_bool_decide as Hin.
    + split; [done|]. split; [|done]. destruct (command_history s); [by inversion Hin|].
      simpl. lia.
    + split; [by constructor|]. split; [simpl; lia|]. by left.
  - unfold get_previous_history.
    destruct (command_history s) as [|item0 h] eqn:Hh.
    { exists None. cbn. rewrite Hh. split; [done|]. split; [done|]. split; [done|]. done. }
    cbn [snd set_history_index command_history history_index]. rewrite Hh.
    set (i := Z.min (history_index s + 1) (Z.of_nat (length (item0 :: h)) - 1)).
    assert (0 ≤ i < Z.of_nat (length (item0 :: h)))%Z as Hi by (unfold i; simpl; lia).
    rewrite py_index_in_range by done.
    destruct ((item0 :: h) !! Z.to_nat i) as [item|] eqn:Hitem.
    + exists (Some item). split; [done|]. split; [lia|]. split; [done|].
      intros _. by exists item.
    + apply lookup_ge_None in Hitem. lia.
  - unfold get_next_history.
    destruct (bool_decide (command_history s ≠ []) && (-1 <? history_index s)%Z) eqn:Hcond.
    + apply andb_true_iff in Hcond as [Hne%bool_decide_eq_true Hpos%Z.ltb_lt].
      cbn [set_history_index command_history history_index].
      destruct (Z.eqb_spec (Z.max (history_index s - 1) (-1)) (-1)) as [Heq|Hneq].
      * exists []. cbn [snd set_history_index command_history history_index].
        split; [done|].
        split; [lia|done].
      * rewrite py_index_in_range by lia.
        destruct (command_history s !! Z.to_nat (Z.max (history_index s - 1) (-1)))
          as [item|] eqn:Hitem.
        -- exists item. cbn [snd set_history_index command_history history_index].
           split; [done|].
           split; [lia|done].
        -- apply lookup_ge_None in Hitem. lia.
    + exists []. by repeat split.
Qed.

Lemma command_history_invariant_witness :
  NoDup (command_history (add_to_command_history (__init__ (py "prompt")) (py "ls")))
  ∧ index_in_range (add_to_command_history (__init__ (py "prompt")) (py "ls"))
  ∧ ∃ r, get_previous_history (add_to_command_history (__init__ (py "prompt")) (py "ls"))
         = (Return r,
            (get_previous_history (add_to_command_history (__init__ (py "prompt")) (py "ls"))).2)
         ∧ r = Some (py "ls").
Proof.
  assert (NoDup (command_history (add_to_command_history (__init__ (py "prompt")) (py "ls"))))
    as H1 by (repeat constructor; by intros ?%elem_of_nil).
  assert (index_in_range (add_to_command_history (__init__ (py "prompt")) (py "ls")))
    as H2 by (vm_compute; split; [discriminate|reflexivity]).
  split; [exact H1|]. split; [exact H2|].
  destruct (command_history_invariant _ (py "x") H1 H2) as (_ & (r & Hr & _ & _ & Hitem) & _).
  exists r. split; [exact Hr|].
  destruct Hitem as (item & -> & Hlookup); [discriminate|].
  vm_compute in Hlookup. injection Hlookup as <-. reflexivity.
Defined.

(** Away from the oldest entry, recalling the previous command and then
    the next one leads back: the session is as before, and the second call
    hands back the entry the index stood on (the empty string for [-1]). *)
Theorem previous_then_next (s : session) :
  index_in_range s →
  (history_index s + 1 < Z.of_nat (length (command_history s)))%Z →
  ∃ item,
    command_history s !! Z.to_nat (history_index s + 1) = Some item
    ∧ get_previous_history s
      = (Return (Some item), set_history_index s (history_index s + 1))
    ∧ get_next_history (set_history_index s (history_index s + 1))
      = (if bool_decide (history_index s = (-1)%Z) then Return []
         else py_index (command_history s) (history_index s),
         s).
Proof.
  intros [Hlo Hhi] Hroom.
  destruct (command_history s !! Z.to_nat (history_index s + 1)) as [item|] eqn:Hitem;
    [|apply lookup_ge_None in Hitem; lia].
  exists item. split; [done|]. split.
  - rewrite get_previous_history_nonempty
      by (intros Hnil; rewrite Hnil in Hroom; simpl in Hroom; lia).
    cbn [set_history_index command_history history_index].
    rewrite Z.min_l by lia. rewrite py_index_in_range by lia. by rewrite Hitem.
  - unfold get_next_history. cbn [set_history_index command_history history_index].
    rewrite bool_decide_eq_true_2
      by (intros Hnil; rewrite Hnil in Hroom; simpl in Hroom; lia).
    destruct (Z.ltb_spec (-1) (history_index s + 1)) as [_|?]; [|lia]. cbn [andb].
    replace (Z.max (history_index s + 1 - 1) (-1)) with (history_index s) by lia.
    destruct s as [sp objs msgs ctx h i]. cbn [history_index] in *.
    destruct (Z.eqb_spec i (-1)) as [->|Hi].
    + by rewrite bool_decide_eq_true_2.
    + by rewrite bool_decide_eq_false_2.
Qed.

Lemma previous_then_next_witness :
  index_in_range (add_to_command_history (__init__ (py "prompt")) (py "ls"))
  ∧ (history_index (add_to_command_history (__init__ (py "prompt")) (py "ls")) + 1
     < Z.of_nat (length (command_history
                           (add_to_command_history (__init__ (py "prompt")) (py "ls")))))%Z
  ∧ ∃ item,
      get_previous_history (add_to_command_history (__init__ (py "prompt")) (py "ls"))
      = (Return (Some item),
         set_history_index (add_to_command_history (__init__ (py "prompt")) (py "ls")) 0)
      ∧ get_next_history
          (set_history_index (add_to_command_history (__init__ (py "prompt")) (py "ls")) 0)
        = (Return [], add_to_command_history (__init__ (py "prompt")) (py "ls")).
Proof.
  assert (index_in_range (add_to_command_history (__init__ (py "prompt")) (py "ls")))
    as H1 by (vm_compute; split; [discriminate|reflexivity]).
  assert (history_index (add_to_command_history (__init__ (py "prompt")) (py "ls")) + 1
          < Z.of_nat (length (command_history
                                (add_to_command_history (__init__ (py "prompt")) (py "ls")))))%Z
    as H2 by (vm_compute; reflexivity).
  split; [exact H1|]. split; [exact H2|].
  destruct (previous_then_next _ H1 H2) as (item & _ & Hprev & Hnext).
  exists item. split; [exact Hprev|exact Hnext].
Defined.

(** A command that is entered again keeps its place in the history: it is
    not moved to the front, so that the first entry recalled afterwards is
    the most recent new command, not the command just entered. *)
Theorem repeated_command_keeps_its_place (s : session) (user_input newest : text)
    (older : list text) :
  command_history s = newest :: older →
  user_input ∈ older →
  command_history (add_to_command_history s user_input) = newest :: older
  ∧ (get_previous_history (add_to_command_history s user_input)).1 = Return (Some newest).
Proof.
  intros Hh Hin. unfold get_previous_history, add_to_command_history.
  cbn [command_history history_index set_history_index]. rewrite Hh.
  rewrite bool_decide_eq_true_2 by by right. split; [done|].
  cbn [fst]. rewrite Z.min_l by (simpl; lia). done.
Qed.

Lemma repeated_command_keeps_its_place_witness :
  command_history
    (add_to_command_history (add_to_command_history (__init__ (py "prompt")) (py "ls"))
       (py "pwd"))
  = py "pwd" :: [py "ls"]
  ∧ py "ls" ∈ [py "ls"]
  ∧ command_history
      (add_to_command_history
         (add_to_command_history (add_to_command_history (__init__ (py "prompt")) (py "ls"))
            (py "pwd")) (py "ls"))
    = py "pwd" :: [py "ls"]
  ∧ (get_previous_history
       (add_to_command_history
          (add_to_command_history (add_to_command_history (__init__ (py "prompt")) (py "ls"))
             (py "pwd")) (py "ls"))).1
    = Return (Some (py "pwd")).
Proof.
  assert (command_history
            (add_to_command_history (add_to_command_history (__init__ (py "prompt")) (py "ls"))
               (py "pwd"))
          = py "pwd" :: [py "ls"]) as H1 by (vm_compute; reflexivity).
  assert (py "ls" ∈ [py "ls"]) as H2 by by left.
  split; [exact H1|]. split; [exact H2|].
  exact (repeated_command_keeps_its_place _ _ _ _ H1 H2).
Defined.

(** *** The context and the shared messages *)

Lemma last_satisfying (P : nat → Prop) `{∀ i, Decision (P i)} (n idx : nat) :
  idx < n → P idx → (∀ j, idx < j → j < n → ¬ P j) →
  head (filter P (reverse (seq 0 n))) = Some idx.
Proof.
  intros Hlt Hidx Hlater. induction n as [|n IH]; [lia|].
  rewrite seq_S, reverse_app. cbn [reverse app Nat.add]. change (reverse [n]) with [n].
  cbn [app]. rewrite filter_cons. destruct (decide (P n)) as [Hn|Hn].
  - destruct (decide (idx = n)) as [->|Hne]; [done|].
    destruct (Hlater n); [lia|lia|done].
  - apply IH.
    + destruct (decide (idx = n)) as [->|Hne]; [done|lia].
    + intros j Hj Hjn. apply Hlater; lia.
Qed.

Lemma last_user_found (objects : list chat_message) (temp_messages : list nat)
    (idx address : nat) :
  temp_messages !! idx = Some address →
  role_is_user objects address = true →
  (∀ j a, idx < j → temp_messages !! j = Some a → role_is_user objects a = false) →
  last_user_msg_idx objects temp_messages = Some idx.
Proof.
  intros Hidx Huser Hlater. unfold last_user_msg_idx.
  apply last_satisfying.
  - by eapply lookup_lt_Some.
  - by rewrite Hidx.
  - intros j Hj _. destruct (temp_messages !! j) as [a|] eqn:Ha; [|discriminate].
    rewrite (Hlater j a) by done. discriminate.
Qed.

Lemma injection_step (s : session) (idx address : nat) (original_content : text) :
  managed_context s ≠ [] →
  messages s !! idx = Some address →
  objects s !! address = Some (UserMessage original_content) →
  (∀ j a, idx < j → messages s !! j = Some a → role_is_user (objects s) a = false) →
  get_messages_with_injected_context s
  = (messages s,
     {| system_prompt := system_prompt s;
        objects := <[address := UserMessage
                       (context_str (managed_context s) ++ original_content)]> (objects s);
        messages := messages s;
        managed_context := managed_context s;
        command_history := command_history s;
        history_index := history_index s |}).
Proof.
  intros Hctx Hidx Haddr Hlater. unfold get_messages_with_injected_context, get_messages.
  rewrite (last_user_found _ _ idx address), Hidx, Haddr; try done.
  - by destruct (managed_context s).
  - unfold role_is_user. by rewrite Haddr.
Qed.

(** The context is put into the dictionary the session itself holds.  With
    a context loaded, every request of a turn puts the context text in front
    of the last user message once more: after [n] requests the message the
    session stores starts with [n] copies of it. *)
Theorem injected_context_accumulates (s : session) (idx address : nat)
    (original_content : text) (n : nat) :
  managed_context s ≠ [] →
  messages s !! idx = Some address →
  objects s !! address = Some (UserMessage original_content) →
  (∀ j a, idx < j → messages s !! j = Some a → role_is_user (objects s) a = false) →
  messages (after_requests n s) = messages s
  ∧ objects (after_requests n s) !! address
    = Some (UserMessage
              (concat (replicate n (context_str (managed_context s))) ++ original_content)).
Proof.
  intros Hctx Hidx Haddr Hlater.
  cut (messages (after_requests n s) = messages s
       ∧ managed_context (after_requests n s) = managed_context s
       ∧ (∀ a, role_is_user (objects (after_requests n s)) a = role_is_user (objects s) a)
       ∧ objects (after_requests n s) !! address
         = Some (UserMessage
                   (concat (replicate n (context_str (managed_context s)))
                    ++ original_content))); [tauto|].
  induction n as [|n (Hmessages & Hcontext & Hroles & Hobject)]; [done|].
  change (after_requests (S n) s)
    with (get_messages_with_injected_context (after_requests n s)).2.
  rewrite (injection_step (after_requests n s) idx address
             (concat (replicate n (context_str (managed_context s))) ++ original_content));
    cycle 1.
  - by rewrite Hcontext.
  - by rewrite Hmessages.
  - exact Hobject.
  - intros j a Hj Ha. rewrite Hroles. apply (Hlater j a); [done|]. by rewrite <- Hmessages.
  - cbn [snd messages managed_context objects]. rewrite Hcontext.
    split; [done|]. split; [done|]. split.
    + intros a. rewrite <- Hroles. unfold role_is_user.
      destruct (decide (a = address)) as [->|Hne].
      * rewrite list_lookup_insert_eq by by eapply lookup_lt_Some. by rewrite Hobject.
      * by rewrite list_lookup_insert_ne.
    + rewrite list_lookup_insert_eq by by eapply lookup_lt_Some.
      cbn [replicate concat]. by rewrite <- app_assoc.
Qed.

Lemma injected_context_accumulates_witness :
  managed_context one_file_in_context ≠ []
  ∧ messages one_file_in_context !! 1 = Some 1
  ∧ objects one_file_in_context !! 1 = Some (UserMessage (py "go"))
  ∧ (∀ j a, 1 < j → messages one_file_in_context !! j = Some a →
            role_is_user (objects one_file_in_context) a = false)
  ∧ messages (after_requests 2 one_file_in_context) = messages one_file_in_context
  ∧ objects (after_requests 2 one_file_in_context) !! 1
    = Some (UserMessage
              (concat (replicate 2 (context_str (managed_context one_file_in_context)))
               ++ py "go")).
Proof.
  assert (managed_context one_file_in_context ≠ []) as H1 by discriminate.
  assert (messages one_file_in_context !! 1 = Some 1) as H2 by reflexivity.
  assert (objects one_file_in_context !! 1 = Some (UserMessage (py "go"))) as H3
    by reflexivity.
  assert (∀ j a, 1 < j → messages one_file_in_context !! j = Some a →
                 role_is_user (objects one_file_in_context) a = false) as H4
    by (intros [|[|[|j]]] a Hj; try lia; discriminate).
  split; [exact H1|]. split; [exact H2|]. split; [exact H3|]. split; [exact H4|].
  exact (injected_context_accumulates one_file_in_context 1 1 (py "go") 2 H1 H2 H3 H4).
Defined.

(** After two requests the stored user message carries the context twice. *)
Example context_is_injected_twice :
  read (after_requests 2 one_file_in_context)
    (messages (after_requests 2 one_file_in_context))
  = [SystemMessage (py "prompt");
     UserMessage (py "--- CONTEXT START ---
--- FILE: a.txt ---
A
--- END FILE: a.txt ---

--- CONTEXT END ---

--- CONTEXT START ---
--- FILE: a.txt ---
A
--- END FILE: a.txt ---

--- CONTEXT END ---

go")].
Proof. vm_compute. reflexivity. Qed.
End SessionState.

(** ** The history of the prompt and of the session service *)

Module HistoryAgreement.
Import PyStr ChatSessionService InputHistory SessionNotions.

(** The prompt of [main.py] and the session service keep the history in
    the same way.  From states that hold the same history, with the index
    in range: ['up'] shows the entry [get_previous_history] returns, ['down']
    the text [get_next_history] returns, an input that is not blank is
    remembered as [add_to_command_history] remembers its stripped text, and
    each time the two hold the same history again.  No key raises. *)
Theorem prompt_and_session_agree (s : session) (p : prompt) (user_input : text) :
  same_history s p →
  index_in_range s →
  (∃ p', up p = Return p'
         ∧ same_history (get_previous_history s).2 p'
         ∧ (history p ≠ [] → (get_previous_history s).1 = Return (Some (buffer p'))))
  ∧ (∃ p', down p = Return p'
           ∧ same_history (get_next_history s).2 p'
           ∧ (history p ≠ [] → (get_next_history s).1 = Return (buffer p')))
  ∧ (∀ p', remember p user_input = Some p' →
           same_history (add_to_command_history s (strip user_input)) p').
Proof.
  destruct s as [sp objs msgs ctx h i], p as [h' i' b].
  unfold same_history, index_in_range.
  cbn [command_history ChatSessionService.history_index history history_index].
  intros [<- <-] [Hlo Hhi]. split; [|split].
  - unfold up, get_previous_history, set_history_index.
    cbn [command_history ChatSessionService.history_index history history_index buffer].
    destruct h as [|item0 h]; [by eexists|].
    set (j := Z.min (i + 1) (Z.of_nat (length (item0 :: h)) - 1)).
    assert (0 ≤ j < Z.of_nat (length (item0 :: h)))%Z as Hrange
      by (unfold j; simpl in *; lia).
    rewrite SessionState.py_index_in_range by done.
    destruct ((item0 :: h) !! Z.to_nat j) as [item|] eqn:Hitem;
      [|apply lookup_ge_None in Hitem; lia].
    eexists. split; [reflexivity|]. cbn. by repeat split.
  - unfold down, get_next_history, set_history_index.
    cbn [command_history ChatSessionService.history_index history history_index buffer].
    destruct h as [|item0 h].
    { rewrite bool_decide_eq_false_2 by (by intros H; apply H). by eexists. }
    rewrite bool_decide_eq_true_2 by done. cbn [andb].
    destruct (Z.ltb_spec (-1) i) as [Hpos|Hneg].
    + destruct (Z.eqb_spec (Z.max (i - 1) (-1)) (-1)) as [Heq|Hneq].
      * eexists. split; [reflexivity|]. cbn. by repeat split.
      * rewrite SessionState.py_index_in_range by (simpl in *; lia).
        destruct ((item0 :: h) !! Z.to_nat (Z.max (i - 1) (-1))) as [item|] eqn:Hitem;
          [|apply lookup_ge_None in Hitem; simpl in *; lia].
        eexists. split; [reflexivity|]. cbn. by repeat split.
    + assert (i = (-1)%Z) as -> by lia.
      change (Z.max (-1 - 1) (-1) =? -1)%Z with true. cbn iota.
      eexists. split; [reflexivity|]. cbn. by repeat split.
  - intros p'. unfold remember, add_to_command_history.
    cbn [command_history ChatSessionService.history_index history history_index buffer].
    destruct (strip user_input) as [|c stripped]; [done|]. by intros [= <-].
Qed.

Lemma prompt_and_session_agree_witness :
  same_history (add_to_command_history (__init__ (py "prompt")) (py "ls"))
    {| history := [py "ls"]; history_index := (-1)%Z; buffer := [] |}
  ∧ index_in_range (add_to_command_history (__init__ (py "prompt")) (py "ls"))
  ∧ up {| history := [py "ls"]; history_index := (-1)%Z; buffer := [] |}
    = Return {| history := [py "ls"]; history_index := 0%Z; buffer := py "ls" |}
  ∧ (get_previous_history (add_to_command_history (__init__ (py "prompt")) (py "ls"))).1
    = Return (Some (py "ls")).
Proof.
  assert (same_history (add_to_command_history (__init__ (py "prompt")) (py "ls"))
            {| history := [py "ls"]; history_index := (-1)%Z; buffer := [] |}) as H1
    by (split; reflexivity).
  assert (index_in_range (add_to_command_history (__init__ (py "prompt")) (py "ls")))
    as H2 by (vm_compute; split; [discriminate|reflexivity]).
  split; [exact H1|]. split; [exact H2|].
  destruct (prompt_and_session_agree _ _ (py "pwd") H1 H2)
    as ((p' & Hup & _ & Hprevious) & _ & _).
  assert (up {| history := [py "ls"]; history_index := (-1)%Z; buffer := [] |}
          = Return {| history := [py "ls"]; history_index := 0%Z; buffer := py "ls" |})
    as Hshown by (vm_compute; reflexivity).
  split; [exact Hshown|].
  rewrite Hshown in Hup. injection Hup as <-. apply Hprevious. discriminate.
Defined.
End HistoryAgreement.

(** ** The configuration: what a start makes of the file *)

Module Configuration.
Import PyStr ConfigManager ConfigNotions.

Lemma dict_snoc (fields : list (text * json)) (key : text) (value : json) :
  ToolExecutor.dict (fields ++ [(key, value)]) = <[key := value]> (ToolExecutor.dict fields).
Proof. unfold ToolExecutor.dict. by rewrite rev_unit. Qed.

Lemma dict_keys (fields : list (text * json)) (key : text) :
  key ∈ fields.*1 ↔ is_Some (ToolExecutor.dict fields !! key).
Proof.
  induction fields as [|[k v] fields IH] using rev_ind.
  - change (ToolExecutor.dict []) with (∅ : gmap text json).
    rewrite lookup_empty, is_Some_alt. split; [by intros ?%elem_of_nil|done].
  - rewrite fmap_app, elem_of_app, dict_snoc, lookup_insert_is_Some, IH. cbn.
    rewrite list_elem_of_singleton. split.
    + intros [H| ->]; [|by left]. destruct (decide (k = key)); [by left|by right].
    + intros [->|[_ H]]; [by right|by left].
Qed.

Lemma py_setitem_spec (container : json) (key : text) (value container' : json) :
  py_setitem container key value = Ok container' →
  ∃ fields, container = JObj fields ∧ container' = JObj (fields ++ [(key, value)]).
Proof. destruct container; try done. intros [= <-]. by eexists. Qed.

Lemma py_getitem_spec (container : json) (key : text) (value : json) :
  py_getitem container key = Ok value →
  ∃ fields, container = JObj fields ∧ ToolExecutor.dict fields !! key = Some value.
Proof.
  destruct container as [| | | | |fields]; try done. cbn.
  destruct (ToolExecutor.dict fields !! key) eqn:E; [|done]. intros [= <-]. by eexists.
Qed.

Lemma py_setitem_in (container : json) (key : text) (value container' : json) (k : text) :
  py_setitem container key value = Ok container' →
  py_in key container' = Ok true
  ∧ (py_in k container = Ok true → py_in k container' = Ok true).
Proof.
  intros (fields & -> & ->)%py_setitem_spec. cbn. split.
  - rewrite bool_decide_eq_true_2; [done|]. rewrite fmap_app, elem_of_app. right. by left.
  - intros [= H%bool_decide_eq_true]. rewrite bool_decide_eq_true_2; [done|].
    rewrite fmap_app, elem_of_app. by left.
Qed.

Section Migration.
Variable default_config : list (text * json).
Variable default_providers : list (text * list (text * json)).

Lemma fill_mono (defaults : list (text * json)) :
  ∀ container container' updated k,
    fill container defaults = Ok (container', updated) →
    py_in k container = Ok true → py_in k container' = Ok true.
Proof.
  induction defaults as [|[key value] defaults IH]; intros c c' u k; cbn [fill].
  - by intros [= <- _].
  - destruct (py_in key c) as [[|]|]; [apply IH| |done].
    destruct (py_setitem c key value) as [c1|] eqn:Hset; [|done].
    destruct (fill c1 defaults) as [[c2 u2]|] eqn:Hfill; [|done].
    intros [= <- _] Hk. eapply IH; [done|].
    exact (proj2 (py_setitem_in _ _ _ _ k Hset) Hk).
Qed.

Lemma fill_present (defaults : list (text * json)) :
  ∀ container container' updated,
    fill container defaults = Ok (container', updated) →
    Forall (λ item, py_in item.1 container' = Ok true) defaults.
Proof.
  induction defaults as [|[key value] defaults IH]; intros c c' u; cbn [fill];
    [constructor|].
  destruct (py_in key c) as [[|]|] eqn:Hin; [| |done].
  - intros Hfill. constructor; [|by eapply IH]. by eapply fill_mono.
  - destruct (py_setitem c key value) as [c1|] eqn:Hset; [|done].
    destruct (fill c1 defaults) as [[c2 u2]|] eqn:Hfill; [|done].
    intros [= <- _]. constructor; [|by eapply IH].
    eapply fill_mono; [done|]. exact (proj1 (py_setitem_in _ _ _ _ key Hset)).
Qed.

Lemma fill_nothing (container : json) (defaults : list (text * json)) :
  Forall (λ item, py_in item.1 container = Ok true) defaults →
  fill container defaults = Ok (container, false).
Proof.
  induction 1 as [|[key value] defaults Hin _ IH]; [done|].
  cbn [fill]. cbn in Hin. by rewrite Hin.
Qed.

Lemma fill_unchanged (defaults : list (text * json)) :
  ∀ container container',
    fill container defaults = Ok (container', false) → container' = container.
Proof.
  induction defaults as [|[key value] defaults IH]; intros c c'; cbn [fill].
  - by intros [= <-].
  - destruct (py_in key c) as [[|]|]; [apply IH| |done].
    destruct (py_setitem c key value) as [c1|]; [|done].
    by destruct (fill c1 defaults) as [[c2 u2]|].
Qed.

Lemma complete_set (providers providers' : json) (provider : text) (current : json)
    (item : text * list (text * json)) :
  py_setitem providers provider current = Ok providers' →
  (provider = item.1 → Forall (λ setting, py_in setting.1 current = Ok true) item.2) →
  complete providers item → complete providers' item.
Proof.
  intros Hset Hsame [Hin [Hnil|(old & Hget & Hall)]];
    (split; [exact (proj2 (py_setitem_in _ _ _ _ item.1 Hset) Hin)|]); [by left|right].
  apply py_setitem_spec in Hset as (fields & -> & ->).
  cbn in *. rewrite dict_snoc.
  destruct (decide (provider = item.1)) as [Heq|Hne].
  - rewrite Heq, lookup_insert_eq. eexists. split; [done|]. by apply Hsame.
  - rewrite lookup_insert_ne by done. by exists old.
Qed.

Lemma providers_stable (defaults : list (text * list (text * json)))
    (item : text * list (text * json)) :
  ∀ providers providers' updated,
    fill_providers providers defaults = Ok (providers', updated) →
    complete providers item → complete providers' item.
Proof.
  induction defaults as [|[provider settings] defaults IH]; intros P P' u;
    cbn [fill_providers]; [by intros [= <- _]|].
  destruct (py_in provider P) as [[|]|] eqn:Hin; [| |done].
  - destruct settings as [|setting settings]; [apply IH|].
    destruct (py_getitem P provider) as [current|] eqn:Hget; [|done].
    destruct (fill current _) as [[current' [|]]|] eqn:Hfill; [| |done].
    + destruct (py_setitem P provider current') as [P1|] eqn:Hset; [|done].
      destruct (fill_providers P1 defaults) as [[P2 u2]|] eqn:Hrest; [|done].
      intros [= <- _] Hitem. eapply IH; [done|].
      eapply complete_set; [done| |done].
      intros ->. destruct Hitem as [_ [->|(old & Hold & Hall)]]; [constructor|].
      rewrite Hget in Hold. injection Hold as <-.
      eapply Forall_impl; [exact Hall|]. intros s Hs.
      by eapply fill_mono.
    + apply IH.
  - destruct (py_setitem P provider (JObj settings)) as [P1|] eqn:Hset; [|done].
    destruct (fill_providers P1 defaults) as [[P2 u2]|] eqn:Hrest; [|done].
    intros [= <- _] Hitem. eapply IH; [done|].
    eapply complete_set; [done| |done].
    intros ->. destruct Hitem as [Hitem _]. congruence.
Qed.

Lemma providers_present (defaults : list (text * list (text * json))) :
  ∀ providers providers' updated,
    fill_providers providers defaults = Ok (providers', updated) →
    Forall (complete providers') defaults.
Proof.
  induction defaults as [|[provider settings] defaults IH]; intros P P' u;
    cbn [fill_providers]; [constructor|].
  destruct (py_in provider P) as [[|]|] eqn:Hin; [| |done].
  - destruct settings as [|setting settings].
    { intros Hrest. constructor; [|by eapply IH].
      eapply providers_stable; [done|]. split; [done|by left]. }
    destruct (py_getitem P provider) as [current|] eqn:Hget; [|done].
    destruct (fill current _) as [[current' [|]]|] eqn:Hfill; [| |done].
    + destruct (py_setitem P provider current') as [P1|] eqn:Hset; [|done].
      destruct (fill_providers P1 defaults) as [[P2 u2]|] eqn:Hrest; [|done].
      intros [= <- _]. constructor; [|by eapply IH].
      eapply providers_stable; [done|].
      split; [exact (proj1 (py_setitem_in _ _ _ _ provider Hset))|]. right.
      apply py_setitem_spec in Hset as (fields & -> & ->).
      cbn. rewrite dict_snoc, lookup_insert_eq. eexists. split; [done|].
      by eapply fill_present.
    + intros Hrest. constructor; [|by eapply IH].
      eapply providers_stable; [done|]. split; [done|]. right.
      exists current. split; [done|].
      rewrite <- (fill_unchanged _ _ _ Hfill). by eapply fill_present.
  - destruct (py_setitem P provider (JObj settings)) as [P1|] eqn:Hset; [|done].
    destruct (fill_providers P1 defaults) as [[P2 u2]|] eqn:Hrest; [|done].
    intros [= <- _]. constructor; [|by eapply IH].
    eapply providers_stable; [done|].
    split; [exact (proj1 (py_setitem_in _ _ _ _ provider Hset))|]. right.
    apply py_setitem_spec in Hset as (fields & -> & ->).
    cbn. rewrite dict_snoc, lookup_insert_eq. eexists. split; [done|].
    apply Forall_forall. intros [k v] Hk. cbn.
    rewrite bool_decide_eq_true_2; [done|]. apply list_elem_of_fmap. by exists (k, v).
Qed.

Lemma providers_nothing (providers : json) (defaults : list (text * list (text * json))) :
  Forall (complete providers) defaults →
  fill_providers providers defaults = Ok (providers, false).
Proof.
  induction 1 as [|[provider settings] defaults [Hin Hsettings] _ IH]; [done|].
  cbn [fill_providers]. cbn in Hin, Hsettings. rewrite Hin.
  destruct settings as [|setting settings]; [done|].
  destruct Hsettings as [?|(current & Hget & Hall)]; [done|].
  by rewrite Hget, (fill_nothing _ _ Hall).
Qed.

Lemma providers_unchanged (defaults : list (text * list (text * json))) :
  ∀ providers providers',
    fill_providers providers defaults = Ok (providers', false) → providers' = providers.
Proof.
  induction defaults as [|[provider settings] defaults IH]; intros P P';
    cbn [fill_providers]; [by intros [= <-]|].
  destruct (py_in provider P) as [[|]|]; [| |done].
  - destruct settings as [|setting settings]; [apply IH|].
    destruct (py_getitem P provider) as [current|]; [|done].
    destruct (fill current _) as [[current' [|]]|]; [| |done].
    + destruct (py_setitem P provider current') as [P1|]; [|done].
      by destruct (fill_providers P1 defaults) as [[P2 u2]|].
    + apply IH.
  - destruct (py_setitem P provider (JObj settings)) as [P1|]; [|done].
    by destruct (fill_providers P1 defaults) as [[P2 u2]|].
Qed.

Hypothesis has_providers : py "providers" ∈ default_config.*1.

Lemma providers_key_present (config config' : json) (updated : bool) :
  fill config default_config = Ok (config', updated) →
  py_in (py "providers") config' = Ok true.
Proof.
  intros Hfill%fill_present. rewrite Forall_forall in Hfill.
  apply list_elem_of_fmap in has_providers as ([k v] & Hk & Hitem).
  cbn in Hk. subst k. by apply (Hfill _ Hitem).
Qed.

(** A second migration finds nothing to add. *)
Lemma migrate_again (config config' : json) (updated : bool) :
  migrate default_config default_providers config = Ok (config', updated) →
  migrate default_config default_providers config' = Ok (config', false).
Proof.
  unfold migrate at 1.
  destruct (fill config default_config) as [[c1 u1]|] eqn:Hfill; [|done].
  rewrite (providers_key_present _ _ _ Hfill).
  destruct (py_getitem c1 (py "providers")) as [P|] eqn:Hget; [|done].
  destruct (fill_providers P default_providers) as [[P' [|]]|] eqn:Hproviders; [| |done].
  - destruct (py_setitem c1 (py "providers") P') as [c2|] eqn:Hset; [|done].
    intros [= <- _]. unfold migrate.
    assert (fill c2 default_config = Ok (c2, false)) as ->.
    { apply fill_nothing. eapply Forall_impl; [by eapply fill_present|].
      intros item Hitem. exact (proj2 (py_setitem_in _ _ _ _ item.1 Hset) Hitem). }
    rewrite (proj1 (py_setitem_in _ _ _ _ (py "providers") Hset)).
    apply py_setitem_spec in Hset as (fields & -> & ->).
    cbn [py_getitem]. rewrite dict_snoc, lookup_insert_eq.
    by rewrite (providers_nothing _ _ (providers_present _ _ _ _ Hproviders)).
  - intros [= <- _]. unfold migrate.
    rewrite (fill_nothing _ _ (fill_present _ _ _ _ Hfill)).
    rewrite (providers_key_present _ _ _ Hfill), Hget.
    apply providers_unchanged in Hproviders as Heq. subst P'.
    by rewrite (providers_nothing _ _ (providers_present _ _ _ _ Hproviders)).
Qed.

(** A value that is no dictionary is not migrated: the [TypeError] of the
    first assignment, or of [config["providers"]]. *)
Lemma fill_other (container : json) (defaults : list (text * json)) :
  (∀ fields, container ≠ JObj fields) →
  fill container defaults = Fails (Exn TypeError)
  ∨ fill container defaults = Ok (container, false).
Proof.
  intros Hother. induction defaults as [|[key value] defaults IH]; [by right|].
  cbn [fill]. destruct container as [| | |s|values|fields]; cbn [py_in py_setitem];
    try by left.
  - destruct (contains key s); [exact IH|by left].
  - destruct (existsb _ values); [exact IH|by left].
  - by destruct (Hother fields).
Qed.

Lemma migrate_other (config : json) :
  (∀ fields, config ≠ JObj fields) →
  migrate default_config default_providers config = Fails (Exn TypeError).
Proof.
  intros Hother. unfold migrate.
  destruct (fill_other config default_config Hother) as [->| Hfill]; [done|].
  rewrite Hfill, (providers_key_present _ _ _ Hfill).
  destruct config; try done. by destruct (Hother fields).
Qed.
End Migration.

Lemma default_has_providers : py "providers" ∈ create_default_config.*1.
Proof. apply (bool_decide_unpack _). vm_compute. exact I. Qed.

(** Migration is idempotent: the configuration a start has migrated (and
    saved) is left as it is by the next start, which finds nothing to add
    and does not write the file again. *)
Theorem migration_is_idempotent (config config' : json) (saved : option json) :
  load_and_migrate_config (Holds config) = Ok (config', saved) →
  load_and_migrate_config (Holds config') = Ok (config', None).
Proof.
  unfold load_and_migrate_config.
  destruct (migrate create_default_config default_providers config) as [[c u]|] eqn:Hm;
    [|done].
  intros [= <- _].
  by rewrite (migrate_again _ _ default_has_providers _ _ _ Hm).
Qed.

Lemma migration_is_idempotent_witness :
  load_and_migrate_config (Holds (JObj []))
  = Ok (JObj create_default_config, Some (JObj create_default_config))
  ∧ load_and_migrate_config (Holds (JObj create_default_config))
    = Ok (JObj create_default_config, None).
Proof.
  assert (load_and_migrate_config (Holds (JObj []))
          = Ok (JObj create_default_config, Some (JObj create_default_config))) as H
    by (vm_compute; reflexivity).
  split; [exact H|]. exact (migration_is_idempotent _ _ _ H).
Defined.

(** A configuration file that holds JSON other than an object is not
    replaced by the defaults, as a file that is not JSON is: the start fails
    with a [TypeError], which [load_and_migrate_config] does not catch. *)
Theorem other_json_is_not_caught (config : json) :
  (∀ fields, config ≠ JObj fields) →
  load_and_migrate_config (Holds config) = Fails (Exn TypeError)
  ∧ load_and_migrate_config NotJSON = Ok (JObj create_default_config, None).
Proof.
  intros Hother. split; [|done]. unfold load_and_migrate_config.
  by rewrite (migrate_other _ _ default_has_providers _ Hother).
Qed.

Lemma other_json_is_not_caught_witness :
  (∀ fields, JArr [JStr (py "providers")] ≠ JObj fields)
  ∧ load_and_migrate_config (Holds (JArr [JStr (py "providers")])) = Fails (Exn TypeError)
  ∧ load_and_migrate_config NotJSON = Ok (JObj create_default_config, None).
Proof.
  assert (∀ fields, JArr [JStr (py "providers")] ≠ JObj fields) as H by discriminate.
  split; [exact H|]. exact (other_json_is_not_caught _ H).
Defined.

(** *** Configurations of the expected shape *)

Lemma dict_list_to_map (fields : list (text * json)) :
  NoDup fields.*1 → ToolExecutor.dict fields = list_to_map fields.
Proof.
  intros Hnodup. unfold ToolExecutor.dict. symmetry.
  apply list_to_map_proper; [done|]. apply Permutation_rev.
Qed.

Lemma or_else_none {A} (x : option A) :
  match x with Some v => Some v | None => None end = x.
Proof. by destruct x. Qed.

(** On a dictionary the loop adds the defaults that are missing. *)
Lemma fill_object (defaults : list (text * json)) :
  ∀ fields,
    ∃ fields' updated,
      fill (JObj fields) defaults = Ok (JObj fields', updated)
      ∧ ToolExecutor.dict fields' = ToolExecutor.dict fields ∪ list_to_map defaults.
Proof.
  induction defaults as [|[k v] defaults IH]; intros fields; cbn [fill py_in].
  - exists fields, false. split; [done|]. cbn. by rewrite (right_id_L ∅ (∪)).
  - case_bool_decide as Hk.
    + destruct (IH fields) as (fields' & u & -> & Hd). exists fields', u.
      split; [done|]. rewrite Hd. cbn [list_to_map foldr].
      apply dict_keys in Hk as [x Hx]. apply map_eq. intros i.
      rewrite !lookup_union. destruct (decide (i = k)) as [->|Hi].
      * rewrite Hx, lookup_insert_eq. by destruct (list_to_map defaults !! k).
      * by rewrite lookup_insert_ne.
    + cbn [py_setitem]. destruct (IH (fields ++ [(k, v)])) as (fields' & u & -> & Hd).
      exists fields', true. split; [done|]. rewrite Hd, dict_snoc. cbn [list_to_map foldr].
      assert (ToolExecutor.dict fields !! k = None) as Hnone.
      { apply eq_None_not_Some. by rewrite <- dict_keys. }
      by rewrite <- insert_union_l, insert_union_r.
Qed.

Lemma first_default_absent (defaults : list (text * list (text * json)))
    (provider key : text) :
  provider ∉ defaults.*1 → first_default defaults provider key = None.
Proof.
  induction defaults as [|[p settings] defaults IH]; [done|]. cbn.
  intros [Hp Hrest]%not_elem_of_cons.
  rewrite bool_decide_eq_false_2 by done. by apply IH.
Qed.

Lemma first_default_spec (defaults : list (text * list (text * json)))
    (provider key : text) :
  NoDup defaults.*1 →
  Forall (λ item, NoDup item.2.*1) defaults →
  first_default defaults provider key
  = setting_in (JObj (map (λ item, (item.1, JObj item.2)) defaults)) provider key.
Proof.
  intros Hproviders Hsettings. unfold setting_in. cbn [entry].
  rewrite dict_list_to_map
    by (rewrite <- list_fmap_compose; exact Hproviders).
  induction defaults as [|[p settings] defaults IH]; [done|].
  apply NoDup_cons in Hproviders as [Hp Hproviders].
  apply Forall_cons in Hsettings as [Hs Hsettings]. cbn in Hs.
  cbn [map list_to_map foldr first_default fst snd].
  case_bool_decide as Heq.
  - subst p. rewrite lookup_insert_eq. cbn [mbind option_bind entry].
    rewrite (dict_list_to_map _ Hs), first_default_absent by done.
    apply or_else_none.
  - rewrite lookup_insert_ne by done. by apply IH.
Qed.

Lemma dictionaries_set (fields : list (text * json)) (provider : text)
    (settings : list (text * json)) :
  dictionaries (JObj fields) →
  dictionaries (JObj (fields ++ [(provider, JObj settings)])).
Proof.
  intros [_ Hall]. split; [by eexists|]. intros p S. cbn [entry]. rewrite dict_snoc.
  destruct (decide (p = provider)) as [->|Hne].
  - rewrite lookup_insert_eq. intros [= <-]. by eexists.
  - rewrite lookup_insert_ne by done. apply Hall.
Qed.

(** On a dictionary of dictionaries the loop over the default providers
    adds the providers that are missing and fills the others. *)
Lemma fill_providers_object (defaults : list (text * list (text * json))) :
  Forall (λ item, NoDup item.2.*1) defaults →
  ∀ fields,
    dictionaries (JObj fields) →
    ∃ fields' updated,
      fill_providers (JObj fields) defaults = Ok (JObj fields', updated)
      ∧ dictionaries (JObj fields')
      ∧ ∀ provider key,
          setting_in (JObj fields') provider key
          = match setting_in (JObj fields) provider key with
            | Some value => Some value
            | None => first_default defaults provider key
            end.
Proof.
  induction 1 as [|[q settings] defaults Hs _ IH]; intros fields Hdicts.
  { exists fields, false. split; [done|]. split; [done|]. intros p k.
    by destruct (setting_in _ _ _). }
  cbn [fill_providers py_in]. cbn in Hs. case_bool_decide as Hq.
  - destruct settings as [|setting settings'].
    { destruct (IH fields Hdicts) as (fields' & u' & -> & Hdicts' & Hspec).
      exists fields', u'. split; [done|]. split; [done|]. intros p k.
      rewrite Hspec. cbn [first_default list_to_map foldr]. rewrite lookup_empty.
      by case_bool_decide. }
    set (settings := setting :: settings') in *.
    apply dict_keys in Hq as [S HS]. cbn [py_getitem]. rewrite HS.
    destruct (proj2 Hdicts q S HS) as [current ->].
    destruct (fill_object settings current) as (current' & u & Hfill & Hd).
    rewrite Hfill. destruct u.
    + cbn [py_setitem].
      destruct (IH (fields ++ [(q, JObj current')]))
        as (fields' & u' & -> & Hdicts' & Hspec); [by apply dictionaries_set|].
      exists fields', true. split; [done|]. split; [done|]. intros p k.
      rewrite Hspec. unfold setting_in. cbn [entry first_default]. rewrite dict_snoc.
      case_bool_decide as Hp.
      * subst p. rewrite lookup_insert_eq, HS. cbn [mbind option_bind entry].
        rewrite Hd, lookup_union.
        by destruct (ToolExecutor.dict current !! k), (list_to_map settings !! k).
      * by rewrite lookup_insert_ne.
    + apply fill_unchanged in Hfill. injection Hfill as ->.
      destruct (IH fields Hdicts) as (fields' & u' & -> & Hdicts' & Hspec).
      exists fields', u'. split; [done|]. split; [done|]. intros p k.
      rewrite Hspec. unfold setting_in. cbn [entry first_default].
      case_bool_decide as Hp; [|done].
      subst p. rewrite HS. cbn [mbind option_bind entry].
      destruct (ToolExecutor.dict current !! k) eqn:Hk; [done|].
      pose proof (f_equal (λ m : gmap text json, m !! k) Hd) as Hk'. cbn beta in Hk'.
      rewrite lookup_union, Hk in Hk'.
      by destruct (list_to_map settings !! k).
  - cbn [py_setitem].
    destruct (IH (fields ++ [(q, JObj settings)]))
      as (fields' & u' & -> & Hdicts' & Hspec); [by apply dictionaries_set|].
    exists fields', true. split; [done|]. split; [done|]. intros p k.
    rewrite Hspec. unfold setting_in. cbn [entry first_default]. rewrite dict_snoc.
    assert (ToolExecutor.dict fields !! q = None) as Hnone.
    { apply eq_None_not_Some. by rewrite <- dict_keys. }
    case_bool_decide as Hp.
    + subst p. rewrite lookup_insert_eq, Hnone. cbn [mbind option_bind entry].
      by rewrite (dict_list_to_map _ Hs).
    + by rewrite lookup_insert_ne.
Qed.

Lemma default_shape :
  NoDup create_default_config.*1
  ∧ NoDup default_providers.*1
  ∧ Forall (λ item, NoDup item.2.*1) default_providers
  ∧ ToolExecutor.dict create_default_config !! py "providers"
    = Some (JObj (map (λ item, (item.1, JObj item.2)) default_providers)).
Proof.
  split; [|split; [|split]].
  - apply (bool_decide_unpack _). vm_compute. exact I.
  - apply (bool_decide_unpack _). vm_compute. exact I.
  - repeat constructor; apply (bool_decide_unpack _); vm_compute; exact I.
  - vm_compute. reflexivity.
Qed.

Lemma default_dictionaries :
  dictionaries (JObj (map (λ item, (item.1, JObj item.2)) default_providers)).
Proof.
  split; [by eexists|]. intros p S. cbn [entry].
  generalize default_providers. intros defaults. unfold ToolExecutor.dict.
  rewrite <- map_rev. generalize (rev defaults). clear defaults. intros defaults.
  induction defaults as [|[q s] defaults IH]; [done|]. cbn [map list_to_map foldr fst snd].
  destruct (decide (p = q)) as [->|Hne].
  - rewrite lookup_insert_eq. intros [= <-]. by eexists.
  - rewrite lookup_insert_ne by done. apply IH.
Qed.

(** The migration of a configuration of the expected shape succeeds and
    fills the gaps: a setting the file holds is kept, a setting it lacks
    gets its default, at the top level and for every provider; the result
    has the expected shape again. *)
Theorem migration_fills_the_gaps (config : json) :
  well_formed config →
  ∃ config' saved,
    load_and_migrate_config (Holds config) = Ok (config', saved)
    ∧ well_formed config'
    ∧ (∀ key, key ≠ py "providers" →
              entry config' key
              = match entry config key with
                | Some value => Some value
                | None => entry (JObj create_default_config) key
                end)
    ∧ (∀ provider key,
         provider_setting config' provider key
         = match provider_setting config provider key with
           | Some value => Some value
           | None => default_setting provider key
           end).
Proof.
  intros [[fields ->] Hproviders].
  destruct default_shape as (Htop & Hnames & Hsettings & Hdefault).
  unfold load_and_migrate_config, migrate.
  destruct (fill_object create_default_config fields) as (fields1 & u1 & Hfill & Hd).
  rewrite Hfill, (providers_key_present _ default_has_providers _ _ _ Hfill).
  rewrite <- (dict_list_to_map _ Htop) in Hd.
  assert (∃ P, ToolExecutor.dict fields1 !! py "providers" = Some (JObj P)
               ∧ dictionaries (JObj P)
               ∧ ∀ provider key,
                   match setting_in (JObj P) provider key with
                   | Some value => Some value
                   | None => first_default default_providers provider key
                   end
                   = match provider_setting (JObj fields) provider key with
                     | Some value => Some value
                     | None => default_setting provider key
                     end) as (P & HP & Hdicts & Hsame).
  { rewrite Hd, lookup_union. unfold provider_setting, default_setting, provider_setting.
    cbn [entry]. rewrite Hdefault.
    destruct (ToolExecutor.dict fields !! py "providers") as [P0|] eqn:HP0.
    - destruct (Hproviders P0 HP0) as [[P ->] Hall]. exists P. split; [done|].
      split; [by split; [eexists|]|]. intros provider key. cbn [mbind option_bind].
      by rewrite first_default_spec.
    - eexists. split; [reflexivity|]. split; [apply default_dictionaries|].
      intros provider key. cbn [mbind option_bind].
      rewrite first_default_spec by done. by destruct (setting_in _ _ _). }
  cbn [py_getitem]. rewrite HP.
  destruct (fill_providers_object default_providers Hsettings P Hdicts)
    as (P' & u2 & Hrun & Hdicts' & Hspec).
  rewrite Hrun.
  assert (∀ key, key ≠ py "providers" →
                 ToolExecutor.dict fields1 !! key
                 = match ToolExecutor.dict fields !! key with
                   | Some value => Some value
                   | None => ToolExecutor.dict create_default_config !! key
                   end) as Hkeys.
  { intros key _. rewrite Hd, lookup_union.
    by destruct (ToolExecutor.dict fields !! key),
                (ToolExecutor.dict create_default_config !! key). }
  destruct u2.
  - cbn [py_setitem]. eexists _, _. split; [reflexivity|]. split; [|split].
    + split; [by eexists|]. intros providers. cbn [entry].
      rewrite dict_snoc, lookup_insert_eq. by intros [= <-].
    + intros key Hkey. cbn [entry]. rewrite dict_snoc, lookup_insert_ne by done.
      by apply Hkeys.
    + intros provider key. unfold provider_setting at 1. cbn [entry].
      rewrite dict_snoc, lookup_insert_eq. cbn [mbind option_bind].
      by rewrite Hspec, Hsame.
  - apply providers_unchanged in Hrun. injection Hrun as ->.
    eexists _, _. split; [reflexivity|]. split; [|split].
    + split; [by eexists|]. intros providers. cbn [entry]. rewrite HP.
      by intros [= <-].
    + intros key Hkey. cbn [entry]. by apply Hkeys.
    + intros provider key. unfold provider_setting at 1. cbn [entry].
      rewrite HP. cbn [mbind option_bind]. by rewrite Hspec, Hsame.
Qed.

Lemma migration_fills_the_gaps_witness :
  well_formed old_config
  ∧ ∃ config' saved,
      load_and_migrate_config (Holds old_config) = Ok (config', saved)
      ∧ well_formed config'
      ∧ (∀ key, key ≠ py "providers" →
                entry config' key
                = match entry old_config key with
                  | Some value => Some value
                  | None => entry (JObj create_default_config) key
                  end)
      ∧ (∀ provider key,
           provider_setting config' provider key
           = match provider_setting old_config provider key with
             | Some value => Some value
             | None => default_setting provider key
             end).
Proof.
  assert (well_formed old_config) as H.
  { split; [by eexists|]. intros providers Hproviders.
    assert (providers = JObj [(py "groq", JObj [(py "api_key", JStr (py "secret"))])])
      as -> by (vm_compute in Hproviders; injection Hproviders as <-; reflexivity).
    split; [by eexists|]. intros provider settings. cbn [entry].
    change (ToolExecutor.dict [(py "groq", JObj [(py "api_key", JStr (py "secret"))])])
      with (<[py "groq" := JObj [(py "api_key", JStr (py "secret"))]]>
              (∅ : gmap text json)).
    destruct (decide (provider = py "groq")) as [->|Hne].
    - rewrite lookup_insert_eq. intros [= <-]. by eexists.
    - by rewrite lookup_insert_ne, lookup_empty. }
  split; [exact H|]. exact (migration_fills_the_gaps _ H).
Defined.
End Configuration.
